(** * KRL schedule analysis: a shallow embedding of [analyze.ts], [through.ts]
    and the [ThroughCommand] class of the command module.

    The development follows the TypeScript sources function by function.

    - A CSV row ([AnyCsv = Record<string, string>]) is a [gmap string string]:
      the map of the properties of its own.  A missing column is a failed
      lookup ([undefined] in the source) for the columns that the analysis
      reads by name, none of which an object inherits.  Where the code reads
      or writes a row under a name it is given (the headers of [readCsv] and
      of [toCSV]), the members inherited from [Object.prototype] are
      modelled as well.
    - A JavaScript [Map] that the code iterates is an association list kept in
      insertion order ([JsMap]); the train metadata map, which is only ever
      queried with [get], is a [gmap].
    - A JavaScript number is a [JsNum]: [NaN], the two infinities, or a finite
      value.  Finite values are exact rationals: rounding, overflow and the
      sign of zero of IEEE doubles are not modelled.  The arithmetic of the
      doubles is exact on whole numbers of moderate size and keeps the order
      of its results, so the properties that depend on a computed value are
      stated for whole minutes, or as an order or a closed bound that
      rounding keeps; no general property is stated that turns on the last
      digit of a quotient or of a square root.
    - The built-ins whose result is not determined by the source text
      ([Number] applied to a string, [String.prototype.toLowerCase],
      [String.prototype.localeCompare]) are the fields of the class
      [JsRuntime]; [ascii_runtime] is one concrete runtime, used to run the
      functions on examples.
    - [Array.prototype.sort] is a stable insertion sort driven by the sign of
      the comparator's result.  It agrees with every conforming engine when
      the comparator is a consistent ordering of the elements; otherwise the
      order of the real result is left to the engine, while its elements are
      the same.
    - An [async] function is the function from what it reads to what it
      settles to ([Outcome]); a file is the rows [readCsv] returns for it, or
      nothing when [fileExists] is false.

    The embedding also covers the code around these: the CSV reader and
    writer as functions on text, the services of [services.ts], the rows
    that the scraper of [app.ts] writes, the audit and the compare mode of
    [analyze.ts], [main] of [through.ts], and the container with the entry
    point ([di.ts], [container.ts], [main.ts], [index.ts]).

    The first part holds the definitions: the embedding of the sources, a
    concrete runtime, the notions the properties are stated with, and example
    data.  The second part holds the properties. *)

From Stdlib Require Import ZArith QArith Qround Qabs Qreals Reals Psatz Lia.
From Stdlib Require Import Ascii String Sorted.
From stdpp Require Import base option list gmap strings.

Local Open Scope string_scope.
Local Open Scope list_scope.

(** ** JavaScript numbers *)

Inductive JsNum : Type :=
| NaN
| Inf (negative : bool)
| Fin (q : Q).

Module Js.

Definition zero : JsNum := Fin 0.

Definition of_Z (z : Z) : JsNum := Fin (inject_Z z).

Definition of_nat (n : nat) : JsNum := Fin (inject_Z (Z.of_nat n)).

Definition isNaN (n : JsNum) : bool :=
  match n with NaN => true | _ => false end.

(** [Number.isFinite] *)
Definition isFinite (n : JsNum) : bool :=
  match n with Fin _ => true | _ => false end.

(** ToBoolean on a number: [NaN] and zero are falsy. *)
Definition truthy (n : JsNum) : bool :=
  match n with
  | NaN => false
  | Inf _ => true
  | Fin q => negb (Qeq_bool q 0)
  end.

(** [a || b] on numbers. *)
Definition or (a b : JsNum) : JsNum := if truthy a then a else b.

Definition neg (a : JsNum) : JsNum :=
  match a with
  | NaN => NaN
  | Inf s => Inf (negb s)
  | Fin q => Fin (- q)
  end.

Definition add (a b : JsNum) : JsNum :=
  match a, b with
  | NaN, _ | _, NaN => NaN
  | Inf s, Inf s' => if Bool.eqb s s' then Inf s else NaN
  | Inf s, Fin _ | Fin _, Inf s => Inf s
  | Fin p, Fin q => Fin (p + q)
  end.

Definition sub (a b : JsNum) : JsNum := add a (neg b).

(** [q < 0] on a finite number. *)
Definition qneg (q : Q) : bool := negb (Qle_bool 0 q).

Definition mul (a b : JsNum) : JsNum :=
  match a, b with
  | NaN, _ | _, NaN => NaN
  | Inf s, Inf s' => Inf (xorb s s')
  | Inf s, Fin q | Fin q, Inf s =>
      if Qeq_bool q 0 then NaN else Inf (xorb s (qneg q))
  | Fin p, Fin q => Fin (p * q)
  end.

(** Division; a zero divisor is taken to be [+0]. *)
Definition div (a b : JsNum) : JsNum :=
  match a, b with
  | NaN, _ | _, NaN => NaN
  | Inf _, Inf _ => NaN
  | Inf s, Fin q => Inf (xorb s (qneg q))
  | Fin _, Inf _ => Fin 0
  | Fin p, Fin q =>
      if Qeq_bool q 0
      then (if Qeq_bool p 0 then NaN else Inf (qneg p))
      else Fin (p / q)
  end.

(** [Math.floor] *)
Definition floor (a : JsNum) : JsNum :=
  match a with
  | Fin q => Fin (inject_Z (Qfloor q))
  | _ => a
  end.

(** [a < b]; any comparison with [NaN] is false. *)
Definition lt (a b : JsNum) : bool :=
  match a, b with
  | NaN, _ | _, NaN => false
  | Inf s, Inf s' => s && negb s'
  | Inf s, Fin _ => s
  | Fin _, Inf s => negb s
  | Fin p, Fin q => negb (Qle_bool q p)
  end.

(** [a > b] *)
Definition gt (a b : JsNum) : bool := lt b a.

(** [a <= b] between finite numbers, as a proposition. *)
Definition le (a b : JsNum) : Prop :=
  match a, b with
  | Fin p, Fin q => (p <= q)%Q
  | _, _ => False
  end.

(** A minute of the day: a finite value in [0, 1440). *)
Definition in_day (n : JsNum) : bool :=
  match n with
  | Fin q => Qle_bool 0 q && negb (Qle_bool 1440 q)
  | _ => false
  end.

End Js.

(** ** The built-ins the sources rely on *)

Class JsRuntime : Type := {
  (** [Number(s)] for a string [s] *)
  Number : string → JsNum;
  (** [s.toLowerCase()] *)
  toLowerCase : string → string;
  (** [a.localeCompare(b)]: negative, zero or positive *)
  localeCompare : string → string → Z;
}.

(** [Number(v)] for [v : string | undefined]; [Number(undefined)] is [NaN]. *)
Definition NumberU `{JsRuntime} (v : option string) : JsNum :=
  match v with
  | Some s => Number s
  | None => NaN
  end.

(** [String(v)] for [v : string | undefined]. *)
Definition StringU (v : option string) : string :=
  match v with
  | Some s => s
  | None => "undefined"
  end.

(** ToBoolean on [string | undefined]: only a non-empty string is truthy. *)
Definition truthyS (v : option string) : bool :=
  match v with
  | Some "" | None => false
  | Some _ => true
  end.

(** ** Arrays *)

Module Arr.
Section Arr.
Context {A : Type}.

(** One insertion of [Array.prototype.sort]: [x] goes in front of the first
    element it does not compare greater than.  A [NaN] comparator result counts
    as zero. *)
Fixpoint sort_insert (cmp : A → A → JsNum) (x : A) (l : list A) : list A :=
  match l with
  | [] => [x]
  | y :: l' =>
      if Js.gt (cmp x y) Js.zero then y :: sort_insert cmp x l' else x :: y :: l'
  end.

(** [arr.sort(cmp)]: stable. *)
Definition sort (cmp : A → A → JsNum) (l : list A) : list A :=
  foldr (sort_insert cmp) [] l.

Fixpoint findIndex_from (P : A → bool) (l : list A) (i : Z) : Z :=
  match l with
  | [] => (-1)%Z
  | x :: l' => if P x then i else findIndex_from P l' (i + 1)%Z
  end.

(** [arr.findIndex(P)]: the first index whose element satisfies [P], or -1. *)
Definition findIndex (P : A → bool) (l : list A) : Z := findIndex_from P l 0.

(** [arr[i]] for an integer [i]: [undefined] out of range. *)
Definition at_ (l : list A) (i : Z) : option A :=
  if (i <? 0)%Z then None else l !! Z.to_nat i.

End Arr.
End Arr.

(** ** Insertion-ordered maps ([Map<string, V>]) *)

Module JsMap.
Section JsMap.
Context {V : Type}.

Definition t : Type := list (string * V).

Fixpoint get (k : string) (m : list (string * V)) : option V :=
  match m with
  | [] => None
  | (k', v) :: m' => if String.eqb k' k then Some v else get k m'
  end.

Definition has (k : string) (m : list (string * V)) : bool :=
  match get k m with Some _ => true | None => false end.

(** [m.set(k, v)]: an existing key keeps its position, a new key goes last. *)
Fixpoint set (k : string) (v : V) (m : list (string * V)) : list (string * V) :=
  match m with
  | [] => [(k, v)]
  | (k', v') :: m' =>
      if String.eqb k' k then (k', v) :: m' else (k', v') :: set k v m'
  end.

End JsMap.
End JsMap.

(** [s.split(sep)] for a one-character separator: never empty. *)
Fixpoint split_on (sep : ascii) (s : string) : list string :=
  match s with
  | EmptyString => [EmptyString]
  | String c s' =>
      if Ascii.eqb c sep then EmptyString :: split_on sep s'
      else match split_on sep s' with
           | [] => [String c EmptyString]
           | w :: ws => String c w :: ws
           end
  end.

(** ** Rows and train metadata *)

Abbreviation AnyCsv := (gmap string string).

Record TrainMeta : Type := {
  tm_dest : option string;
  tm_ka_name : option string;
  tm_route_name : option string;
}.

(** The object [{}] used when a train has no metadata. *)
Definition no_meta : TrainMeta :=
  {| tm_dest := None; tm_ka_name := None; tm_route_name := None |}.

Record NameMeta : Type := {
  ka_name : option string;
  route_name : option string;
}.

(** [ThroughResult] of [through.ts]. *)
Module ThroughResult.
Record t : Type := mk {
  train_id : string;
  ka_name : option string;
  route_name : option string;
  depart_via_time : option string;
  via_index : JsNum;
  continues_to_dest : bool;
}.
End ThroughResult.

(** [PairResult] of [through.ts]. *)
Module PairResult.
Record t : Type := mk {
  from_train_id : string;
  to_train_id : string;
  depart_via_time : string;
  arrive_ta_time : string;
  depart_ta_time : string;
  arrive_dest_time : option string;
  wait_min : JsNum;
  meta_from : option NameMeta;
  meta_to : option NameMeta;
}.
End PairResult.

(** The local types [LegA] and [LegB] of [buildTransferPairs]. *)
Module LegA.
Record t : Type := mk {
  trainId : string;
  departVia : string;
  arriveTA : string;
  departViaMin : JsNum;
  arriveTAMin : JsNum;
  meta : option NameMeta;
}.
End LegA.

Module LegB.
Record t : Type := mk {
  trainId : string;
  departTA : string;
  arriveDest : option string;
  departTAMin : JsNum;
  arriveDestMin : option JsNum;
  meta : option NameMeta;
}.
End LegB.

(** [meta ? { ka_name: meta.ka_name, route_name: meta.route_name } : undefined] *)
Definition name_meta (meta : option TrainMeta) : option NameMeta :=
  match meta with
  | Some m => Some {| ka_name := tm_ka_name m; route_name := tm_route_name m |}
  | None => None
  end.

(** The loop shared by every function that groups stop rows:
<<
  const tid = r["train_id"] ?? "";
  if (!byTrain.has(tid)) byTrain.set(tid, []);
  byTrain.get(tid)!.push(r);
>>
    The [push] mutates the array held by the map, which the model writes
    back with [set]. *)
Definition byTrain_step (byTrain : list (string * list AnyCsv)) (r : AnyCsv)
  : list (string * list AnyCsv) :=
  let tid := default "" (r !! "train_id") in
  let byTrain1 := if JsMap.has tid byTrain then byTrain else JsMap.set tid [] byTrain in
  JsMap.set tid (default [] (JsMap.get tid byTrain1) ++ [r]) byTrain1.

Definition groupByTrain (stops : list AnyCsv) : list (string * list AnyCsv) :=
  foldl byTrain_step [] stops.

(** ** [through.ts] *)

Module Through.
Section Through.
Context `{JsRuntime}.

(** [(a, b) => (Number(a["stop_index"]) || 0) - (Number(b["stop_index"]) || 0)] *)
Definition byStopIndex (a b : AnyCsv) : JsNum :=
  Js.sub (Js.or (NumberU (a !! "stop_index")) Js.zero)
         (Js.or (NumberU (b !! "stop_index")) Js.zero).

(** [r => (r["station_name"] ?? "").toLowerCase() === name.toLowerCase()] *)
Definition isStation (name : string) (r : AnyCsv) : bool :=
  bool_decide (toLowerCase (default "" (r !! "station_name")) = toLowerCase name).

(** The body of the loop of [findThrough] over one entry of [byTrain]: the
    result pushed onto [res], if any. *)
Definition throughOfTrain (trains : gmap string TrainMeta) (via dest : string)
    (entry : string * list AnyCsv) : option ThroughResult.t :=
  let '(tid, arr0) := entry in
  let arr := Arr.sort byStopIndex arr0 in
  let viaIdx := Arr.findIndex (isStation via) arr in
  if (viaIdx <? 0)%Z then None else
  let taIdx := Arr.findIndex (isStation "tanah abang") arr in
  if (taIdx <? 0)%Z then None else
  if negb (viaIdx <? taIdx)%Z then None else
  let destIdx := Arr.findIndex (isStation dest) arr in
  let continues := (destIdx >? taIdx)%Z in
  if negb continues then None else
  let meta := default no_meta (trains !! tid) in
  Some {|
    ThroughResult.train_id := tid;
    ThroughResult.ka_name := tm_ka_name meta;
    ThroughResult.route_name := tm_route_name meta;
    ThroughResult.depart_via_time := Arr.at_ arr viaIdx ≫= (λ r, r !! "time_est");
    ThroughResult.via_index :=
      Js.or (NumberU (Arr.at_ arr viaIdx ≫= (λ r, r !! "stop_index"))) (Js.of_Z viaIdx);
    ThroughResult.continues_to_dest := true
  |}.

(** [(a, b) => String(a.depart_via_time).localeCompare(String(b.depart_via_time))] *)
Definition byDepartVia (a b : ThroughResult.t) : JsNum :=
  Js.of_Z (localeCompare (StringU (ThroughResult.depart_via_time a))
                         (StringU (ThroughResult.depart_via_time b))).

Definition findThrough (stops : list AnyCsv) (trains : gmap string TrainMeta)
    (via dest : string) : list ThroughResult.t :=
  let byTrain := groupByTrain stops in
  let res := omap (throughOfTrain trains via dest) byTrain in
  Arr.sort byDepartVia res.

Definition hmsToMin (hms : option string) : option JsNum :=
  if negb (truthyS hms) then None else
  let parts := split_on ":" (default "" hms) in
  let hStr := parts !! 0%nat in
  let mStr := parts !! 1%nat in
  let sStr := Some (default "0" (parts !! 2%nat)) in
  let h := NumberU hStr in
  let m := NumberU mStr in
  let s := NumberU sStr in
  if Js.isNaN h || Js.isNaN m then None else
  Some (Js.add (Js.add (Js.mul h (Js.of_Z 60)) m)
               (if Js.isNaN s then Js.zero else Js.floor (Js.div s (Js.of_Z 60)))).

(** [Number(v) || hmsToMin(hms)] *)
Definition minuteOr (v : option string) (hms : option string) : option JsNum :=
  let n := NumberU v in
  if Js.truthy n then Some n else hmsToMin hms.

(** The body of the loop over [byTrainPre]: the [LegA] pushed, if any. *)
Definition legAOfTrain (trains : gmap string TrainMeta) (via : string)
    (entry : string * list AnyCsv) : option LegA.t :=
  let '(tid, arr0) := entry in
  let arr := Arr.sort byStopIndex arr0 in
  let idxVia := Arr.findIndex (isStation via) arr in
  let idxTA := Arr.findIndex (isStation "tanah abang") arr in
  let meta := trains !! tid in
  if (idxVia >=? 0)%Z && (idxTA >? idxVia)%Z then
    match Arr.at_ arr idxVia, Arr.at_ arr idxTA with
    | Some rVia, Some rTA =>
        let departVia := rVia !! "time_est" in
        let arriveTA := rTA !! "time_est" in
        let departViaMin := minuteOr (rVia !! "time_est_min") departVia in
        let arriveTAMin := minuteOr (rTA !! "time_est_min") arriveTA in
        if truthyS departVia && truthyS arriveTA then
          match departViaMin, arriveTAMin with
          | Some dvm, Some atm =>
              Some {| LegA.trainId := tid;
                      LegA.departVia := default "" departVia;
                      LegA.arriveTA := default "" arriveTA;
                      LegA.departViaMin := dvm;
                      LegA.arriveTAMin := atm;
                      LegA.meta := name_meta meta |}
          | _, _ => None
          end
        else None
    | _, _ => None (* not reached: both indices are in range *)
    end
  else None.

(** The body of the loop over [byTrainPost]: the [LegB] pushed, if any. *)
Definition legBOfTrain (trains : gmap string TrainMeta) (dest : string)
    (entry : string * list AnyCsv) : option LegB.t :=
  let '(tid, arr0) := entry in
  let arr := Arr.sort byStopIndex arr0 in
  let idxTA := Arr.findIndex (isStation "tanah abang") arr in
  let idxDest := Arr.findIndex (isStation dest) arr in
  let meta := trains !! tid in
  if (idxTA >=? 0)%Z && (idxDest >? idxTA)%Z then
    match Arr.at_ arr idxTA, Arr.at_ arr idxDest with
    | Some rTA, Some rDest =>
        let departTA := rTA !! "time_est" in
        let arriveDest := rDest !! "time_est" in
        let departTAMin := minuteOr (rTA !! "time_est_min") departTA in
        let arriveDestMin := minuteOr (rDest !! "time_est_min") arriveDest in
        if truthyS departTA then
          match departTAMin with
          | Some dtm =>
              Some {| LegB.trainId := tid;
                      LegB.departTA := default "" departTA;
                      LegB.arriveDest := arriveDest;
                      LegB.departTAMin := dtm;
                      LegB.arriveDestMin := arriveDestMin;
                      LegB.meta := name_meta meta |}
          | None => None
          end
        else None
    | _, _ => None (* not reached: both indices are in range *)
    end
  else None.

Definition legAs (stopsPre : list AnyCsv) (trains : gmap string TrainMeta)
    (via : string) : list LegA.t :=
  omap (legAOfTrain trains via) (groupByTrain stopsPre).

(** [legBs] before [legBs.sort(...)]. *)
Definition legBsUnsorted (stopsPost : list AnyCsv) (trains : gmap string TrainMeta)
    (dest : string) : list LegB.t :=
  omap (legBOfTrain trains dest) (groupByTrain stopsPost).

(** [(a, b) => a.departTAMin - b.departTAMin] *)
Definition byDepartTA (a b : LegB.t) : JsNum :=
  Js.sub (LegB.departTAMin a) (LegB.departTAMin b).

Definition legBs (stopsPost : list AnyCsv) (trains : gmap string TrainMeta)
    (dest : string) : list LegB.t :=
  Arr.sort byDepartTA (legBsUnsorted stopsPost trains dest).

Definition waitDiffMin (arrive depart : JsNum) : JsNum :=
  let d := Js.sub depart arrive in
  if Js.lt d Js.zero then Js.add d (Js.of_Z (24 * 60)) else d.

(** The [while (lo < hi)] loop; [hi - lo] shrinks at every turn, so
    [fuel = hi - lo] turns are enough.  [legBs[mid]] is always defined
    there; the [None] branch is not reached. *)
Fixpoint searchLoop (fuel : nat) (bs : list LegB.t) (arrive : JsNum) (lo hi : nat) : nat :=
  match fuel with
  | O => lo
  | S fuel' =>
      if (lo <? hi)%nat then
        let mid := Nat.shiftr (lo + hi) 1 in
        match bs !! mid with
        | Some b =>
            if Js.lt (LegB.departTAMin b) arrive
            then searchLoop fuel' bs arrive (mid + 1) hi
            else searchLoop fuel' bs arrive lo mid
        | None => lo
        end
      else lo
  end.

(** The binary search of [buildTransferPairs]: the value of [lo] after the loop. *)
Definition lowerBound (bs : list LegB.t) (arrive : JsNum) : nat :=
  searchLoop (length bs) bs arrive 0 (length bs).

(** [addCand(legBs[i])].  The candidates are kept as indices into [legBs]:
    [candidates.includes(b)] compares object identities, and the elements of
    [legBs] are distinct objects. *)
Definition addCand (bs : list LegB.t) (candidates : list nat) (i : nat) : list nat :=
  match bs !! i with
  | Some _ => if bool_decide (i ∈ candidates) then candidates else candidates ++ [i]
  | None => candidates
  end.

Definition candidatesFor (bs : list LegB.t) (lo : nat) : list nat :=
  addCand bs (addCand bs (addCand bs [] lo) (lo + 1)) 0.

(** [maxWaitMin != null && wait > maxWaitMin] *)
Definition overMaxWait (maxWaitMin : option JsNum) (wait : JsNum) : bool :=
  match maxWaitMin with
  | Some m => Js.gt wait m
  | None => false
  end.

(** One turn of [for (const b of candidates)]. *)
Definition bestStep (bs : list LegB.t) (arrive : JsNum) (maxWaitMin : option JsNum)
    (best : option (LegB.t * JsNum)) (i : nat) : option (LegB.t * JsNum) :=
  match bs !! i with
  | None => best
  | Some b =>
      let wait := waitDiffMin arrive (LegB.departTAMin b) in
      if overMaxWait maxWaitMin wait then best
      else match best with
           | None => Some (b, wait)
           | Some (_, w) => if Js.lt wait w then Some (b, wait) else best
           end
  end.

Definition bestFor (bs : list LegB.t) (maxWaitMin : option JsNum) (a : LegA.t)
  : option (LegB.t * JsNum) :=
  let lo := lowerBound bs (LegA.arriveTAMin a) in
  foldl (bestStep bs (LegA.arriveTAMin a) maxWaitMin) None (candidatesFor bs lo).

(** The body of [for (const a of legAs)]: the pair pushed, if any. *)
Definition pairFor (bs : list LegB.t) (maxWaitMin : option JsNum) (a : LegA.t)
  : option PairResult.t :=
  match bestFor bs maxWaitMin a with
  | Some (b, wait) =>
      Some {| PairResult.from_train_id := LegA.trainId a;
              PairResult.to_train_id := LegB.trainId b;
              PairResult.depart_via_time := LegA.departVia a;
              PairResult.arrive_ta_time := LegA.arriveTA a;
              PairResult.depart_ta_time := LegB.departTA b;
              PairResult.arrive_dest_time := LegB.arriveDest b;
              PairResult.wait_min := wait;
              PairResult.meta_from := LegA.meta a;
              PairResult.meta_to := LegB.meta b |}
  | None => None
  end.

(** [(x, y) => x.wait_min - y.wait_min
      || String(x.depart_via_time).localeCompare(String(y.depart_via_time))] *)
Definition byWait (x y : PairResult.t) : JsNum :=
  Js.or (Js.sub (PairResult.wait_min x) (PairResult.wait_min y))
        (Js.of_Z (localeCompare (PairResult.depart_via_time x) (PairResult.depart_via_time y))).

Definition buildTransferPairs (stopsPre stopsPost : list AnyCsv)
    (trains : gmap string TrainMeta) (via dest : string)
    (maxWaitMin : option JsNum) : list PairResult.t :=
  let As := legAs stopsPre trains via in
  let Bs := legBs stopsPost trains dest in
  let pairs := omap (pairFor Bs maxWaitMin) As in
  Arr.sort byWait pairs.

End Through.
End Through.

(** ** The class [ThroughCommand] of the command module

    The methods are translated on their own, from the text of the class;
    the hub name is the literal ["tanah abang"] there. *)

Module ThroughCommand.
Section ThroughCommand.
Context `{JsRuntime}.

(** [(a, b) => (Number(a["stop_index"]) || 0) - (Number(b["stop_index"]) || 0)] *)
Definition byStopIndex (a b : AnyCsv) : JsNum :=
  Js.sub (Js.or (NumberU (a !! "stop_index")) Js.zero)
         (Js.or (NumberU (b !! "stop_index")) Js.zero).

(** [r => (r["station_name"] ?? "").toLowerCase() === name.toLowerCase()] *)
Definition isStation (name : string) (r : AnyCsv) : bool :=
  bool_decide (toLowerCase (default "" (r !! "station_name")) = toLowerCase name).

(** The body of the loop of [findThrough] over one entry of [byTrain]: the
    result pushed onto [res], if any. *)
Definition throughOfTrain (trains : gmap string TrainMeta) (via dest : string)
    (entry : string * list AnyCsv) : option ThroughResult.t :=
  let '(tid, arr0) := entry in
  let arr := Arr.sort byStopIndex arr0 in
  let viaIdx := Arr.findIndex (isStation via) arr in
  if (viaIdx <? 0)%Z then None else
  let taIdx := Arr.findIndex (λ r, bool_decide (toLowerCase (default "" (r !! "station_name")) = "tanah abang")) arr in
  if (taIdx <? 0)%Z then None else
  if negb (viaIdx <? taIdx)%Z then None else
  let destIdx := Arr.findIndex (isStation dest) arr in
  let continues := (destIdx >? taIdx)%Z in
  if negb continues then None else
  let meta := default no_meta (trains !! tid) in
  Some {|
    ThroughResult.train_id := tid;
    ThroughResult.ka_name := tm_ka_name meta;
    ThroughResult.route_name := tm_route_name meta;
    ThroughResult.depart_via_time := Arr.at_ arr viaIdx ≫= (λ r, r !! "time_est");
    ThroughResult.via_index :=
      Js.or (NumberU (Arr.at_ arr viaIdx ≫= (λ r, r !! "stop_index"))) (Js.of_Z viaIdx);
    ThroughResult.continues_to_dest := true
  |}.

(** [(a, b) => String(a.depart_via_time).localeCompare(String(b.depart_via_time))] *)
Definition byDepartVia (a b : ThroughResult.t) : JsNum :=
  Js.of_Z (localeCompare (StringU (ThroughResult.depart_via_time a))
                         (StringU (ThroughResult.depart_via_time b))).

Definition findThrough (stops : list AnyCsv) (trains : gmap string TrainMeta)
    (via dest : string) : list ThroughResult.t :=
  let byTrain := groupByTrain stops in
  let res := omap (throughOfTrain trains via dest) byTrain in
  Arr.sort byDepartVia res.

Definition hmsToMin (hms : option string) : option JsNum :=
  if negb (truthyS hms) then None else
  let parts := split_on ":" (default "" hms) in
  let hStr := parts !! 0%nat in
  let mStr := parts !! 1%nat in
  let sStr := Some (default "0" (parts !! 2%nat)) in
  let h := NumberU hStr in
  let m := NumberU mStr in
  let s := NumberU sStr in
  if Js.isNaN h || Js.isNaN m then None else
  Some (Js.add (Js.add (Js.mul h (Js.of_Z 60)) m)
               (if Js.isNaN s then Js.zero else Js.floor (Js.div s (Js.of_Z 60)))).

(** [Number(v) || hmsToMin(hms)] *)
Definition minuteOr (v : option string) (hms : option string) : option JsNum :=
  let n := NumberU v in
  if Js.truthy n then Some n else hmsToMin hms.

(** The body of the loop over [byTrainPre]: the [LegA] pushed, if any. *)
Definition legAOfTrain (trains : gmap string TrainMeta) (via : string)
    (entry : string * list AnyCsv) : option LegA.t :=
  let '(tid, arr0) := entry in
  let arr := Arr.sort byStopIndex arr0 in
  let idxVia := Arr.findIndex (isStation via) arr in
  let idxTA := Arr.findIndex (λ r, bool_decide (toLowerCase (default "" (r !! "station_name")) = "tanah abang")) arr in
  let meta := trains !! tid in
  if (idxVia >=? 0)%Z && (idxTA >? idxVia)%Z then
    match Arr.at_ arr idxVia, Arr.at_ arr idxTA with
    | Some rVia, Some rTA =>
        let departVia := rVia !! "time_est" in
        let arriveTA := rTA !! "time_est" in
        let departViaMin := minuteOr (rVia !! "time_est_min") departVia in
        let arriveTAMin := minuteOr (rTA !! "time_est_min") arriveTA in
        if truthyS departVia && truthyS arriveTA then
          match departViaMin, arriveTAMin with
          | Some dvm, Some atm =>
              Some {| LegA.trainId := tid;
                      LegA.departVia := default "" departVia;
                      LegA.arriveTA := default "" arriveTA;
                      LegA.departViaMin := dvm;
                      LegA.arriveTAMin := atm;
                      LegA.meta := name_meta meta |}
          | _, _ => None
          end
        else None
    | _, _ => None (* not reached: both indices are in range *)
    end
  else None.

(** The body of the loop over [byTrainPost]: the [LegB] pushed, if any. *)
Definition legBOfTrain (trains : gmap string TrainMeta) (dest : string)
    (entry : string * list AnyCsv) : option LegB.t :=
  let '(tid, arr0) := entry in
  let arr := Arr.sort byStopIndex arr0 in
  let idxTA := Arr.findIndex (λ r, bool_decide (toLowerCase (default "" (r !! "station_name")) = "tanah abang")) arr in
  let idxDest := Arr.findIndex (isStation dest) arr in
  let meta := trains !! tid in
  if (idxTA >=? 0)%Z && (idxDest >? idxTA)%Z then
    match Arr.at_ arr idxTA, Arr.at_ arr idxDest with
    | Some rTA, Some rDest =>
        let departTA := rTA !! "time_est" in
        let arriveDest := rDest !! "time_est" in
        let departTAMin := minuteOr (rTA !! "time_est_min") departTA in
        let arriveDestMin := minuteOr (rDest !! "time_est_min") arriveDest in
        if truthyS departTA then
          match departTAMin with
          | Some dtm =>
              Some {| LegB.trainId := tid;
                      LegB.departTA := default "" departTA;
                      LegB.arriveDest := arriveDest;
                      LegB.departTAMin := dtm;
                      LegB.arriveDestMin := arriveDestMin;
                      LegB.meta := name_meta meta |}
          | None => None
          end
        else None
    | _, _ => None (* not reached: both indices are in range *)
    end
  else None.

Definition legAs (stopsPre : list AnyCsv) (trains : gmap string TrainMeta)
    (via : string) : list LegA.t :=
  omap (legAOfTrain trains via) (groupByTrain stopsPre).

(** [legBs] before [legBs.sort(...)]. *)
Definition legBsUnsorted (stopsPost : list AnyCsv) (trains : gmap string TrainMeta)
    (dest : string) : list LegB.t :=
  omap (legBOfTrain trains dest) (groupByTrain stopsPost).

(** [(a, b) => a.departTAMin - b.departTAMin] *)
Definition byDepartTA (a b : LegB.t) : JsNum :=
  Js.sub (LegB.departTAMin a) (LegB.departTAMin b).

Definition legBs (stopsPost : list AnyCsv) (trains : gmap string TrainMeta)
    (dest : string) : list LegB.t :=
  Arr.sort byDepartTA (legBsUnsorted stopsPost trains dest).

Definition waitDiffMin (arrive depart : JsNum) : JsNum :=
  let d := Js.sub depart arrive in
  if Js.lt d Js.zero then Js.add d (Js.of_Z (24 * 60)) else d.

(** The [while (lo < hi)] loop; [hi - lo] shrinks at every turn, so
    [fuel = hi - lo] turns are enough.  [legBs[mid]] is always defined
    there; the [None] branch is not reached. *)
Fixpoint searchLoop (fuel : nat) (bs : list LegB.t) (arrive : JsNum) (lo hi : nat) : nat :=
  match fuel with
  | O => lo
  | S fuel' =>
      if (lo <? hi)%nat then
        let mid := Nat.shiftr (lo + hi) 1 in
        match bs !! mid with
        | Some b =>
            if Js.lt (LegB.departTAMin b) arrive
            then searchLoop fuel' bs arrive (mid + 1) hi
            else searchLoop fuel' bs arrive lo mid
        | None => lo
        end
      else lo
  end.

(** The binary search of [buildTransferPairs]: the value of [lo] after the loop. *)
Definition lowerBound (bs : list LegB.t) (arrive : JsNum) : nat :=
  searchLoop (length bs) bs arrive 0 (length bs).

(** [addCand(legBs[i])].  The candidates are kept as indices into [legBs]:
    [candidates.includes(b)] compares object identities, and the elements of
    [legBs] are distinct objects. *)
Definition addCand (bs : list LegB.t) (candidates : list nat) (i : nat) : list nat :=
  match bs !! i with
  | Some _ => if bool_decide (i ∈ candidates) then candidates else candidates ++ [i]
  | None => candidates
  end.

Definition candidatesFor (bs : list LegB.t) (lo : nat) : list nat :=
  addCand bs (addCand bs (addCand bs [] lo) (lo + 1)) 0.

(** [maxWaitMin != null && wait > maxWaitMin] *)
Definition overMaxWait (maxWaitMin : option JsNum) (wait : JsNum) : bool :=
  match maxWaitMin with
  | Some m => Js.gt wait m
  | None => false
  end.

(** One turn of [for (const b of candidates)]. *)
Definition bestStep (bs : list LegB.t) (arrive : JsNum) (maxWaitMin : option JsNum)
    (best : option (LegB.t * JsNum)) (i : nat) : option (LegB.t * JsNum) :=
  match bs !! i with
  | None => best
  | Some b =>
      let wait := waitDiffMin arrive (LegB.departTAMin b) in
      if overMaxWait maxWaitMin wait then best
      else match best with
           | None => Some (b, wait)
           | Some (_, w) => if Js.lt wait w then Some (b, wait) else best
           end
  end.

Definition bestFor (bs : list LegB.t) (maxWaitMin : option JsNum) (a : LegA.t)
  : option (LegB.t * JsNum) :=
  let lo := lowerBound bs (LegA.arriveTAMin a) in
  foldl (bestStep bs (LegA.arriveTAMin a) maxWaitMin) None (candidatesFor bs lo).

(** The body of [for (const a of legAs)]: the pair pushed, if any. *)
Definition pairFor (bs : list LegB.t) (maxWaitMin : option JsNum) (a : LegA.t)
  : option PairResult.t :=
  match bestFor bs maxWaitMin a with
  | Some (b, wait) =>
      Some {| PairResult.from_train_id := LegA.trainId a;
              PairResult.to_train_id := LegB.trainId b;
              PairResult.depart_via_time := LegA.departVia a;
              PairResult.arrive_ta_time := LegA.arriveTA a;
              PairResult.depart_ta_time := LegB.departTA b;
              PairResult.arrive_dest_time := LegB.arriveDest b;
              PairResult.wait_min := wait;
              PairResult.meta_from := LegA.meta a;
              PairResult.meta_to := LegB.meta b |}
  | None => None
  end.

(** [(x, y) => x.wait_min - y.wait_min
      || String(x.depart_via_time).localeCompare(String(y.depart_via_time))] *)
Definition byWait (x y : PairResult.t) : JsNum :=
  Js.or (Js.sub (PairResult.wait_min x) (PairResult.wait_min y))
        (Js.of_Z (localeCompare (PairResult.depart_via_time x) (PairResult.depart_via_time y))).

Definition buildTransferPairs (stopsPre stopsPost : list AnyCsv)
    (trains : gmap string TrainMeta) (via dest : string)
    (maxWaitMin : option JsNum) : list PairResult.t :=
  let As := legAs stopsPre trains via in
  let Bs := legBs stopsPost trains dest in
  let pairs := omap (pairFor Bs maxWaitMin) As in
  Arr.sort byWait pairs.

End ThroughCommand.
End ThroughCommand.

(** ** [analyze.ts] *)

(** [LegOut]; a non-null [leg_minutes] is always a finite number. *)
Module LegOut.
Record t : Type := mk {
  train_id : string;
  seq : JsNum;
  from_station : string;
  to_station : string;
  leg_minutes : option Q;
  ka_name : option string;
  route_name : option string;
  color : option string;
}.
End LegOut.

Module Stats.
Record t : Type := mk {
  count : nat;
  min : option Q;
  max : option Q;
  sum : Q;
}.
End Stats.

(** One row of [segment_stats.csv]. *)
Module SegRow.
Record t : Type := mk {
  from_station : string;
  to_station : string;
  count : nat;
  min : option Q;
  max : option Q;
  avg : option Q;
}.
End SegRow.

(** One row of [outliers.csv]. *)
Module Outlier.
Record t : Type := mk {
  segment : string;
  value : Q;
}.
End Outlier.

Module SeriesPerDest.
Record t : Type := mk {
  dest : string;
  labels : list string;
  avgA : list (option Q);
  avgB : list (option Q);
}.
End SeriesPerDest.

(** What an [async] function settles to: a value, or a thrown [Error]. *)
Inductive Outcome (A : Type) : Type :=
| Returned (a : A)
| Thrown (message : string).
Arguments Returned {A} a.
Arguments Thrown {A} message.

(** [Math.min] and [Math.max] on finite numbers. *)
Definition math_min (a b : Q) : Q := if Qle_bool a b then a else b.
Definition math_max (a b : Q) : Q := if Qle_bool a b then b else a.

(** [Number(x.toFixed(2))] on a finite number: the nearest multiple of 1/100,
    a tie going away from zero.  The program rounds the double it has
    computed, which may lie on the other side of a tie than the exact value;
    the properties leave the direction of a tie open ([roundedTo2]). *)
Definition toFixed2 (x : Q) : Q :=
  let n := Qfloor (Qabs x * 100 + (1 # 2))%Q in
  if Qle_bool 0 x then (inject_Z n / 100)%Q else (- (inject_Z n / 100))%Q.

(** [n] as a finite number. *)
Definition Qnat (n : nat) : Q := inject_Z (Z.of_nat n).

Module Analyze.
Section Analyze.
Context `{JsRuntime}.

Definition toNum (v : option string) : option Q :=
  match v with
  | None => None
  | Some s =>
      match Number s with
      | Fin n => Some n
      | _ => None
      end
  end.

Definition pushStat (st : Stats.t) (v : option Q) : Stats.t :=
  match v with
  | None => st
  | Some v =>
      {| Stats.count := Stats.count st + 1;
         Stats.sum := (Stats.sum st + v)%Q;
         Stats.min := Some (match Stats.min st with None => v | Some m => math_min m v end);
         Stats.max := Some (match Stats.max st with None => v | Some m => math_max m v end) |}
  end.

(** [(a, b) => (Number(a["stop_index"]) || 0) - (Number(b["stop_index"]) || 0)] *)
Definition byStopIndex (a b : AnyCsv) : JsNum :=
  Js.sub (Js.or (NumberU (a !! "stop_index")) Js.zero)
         (Js.or (NumberU (b !! "stop_index")) Js.zero).

(** The leg pushed at turn [i] of the inner loop of [deriveLegsFromStops],
    for [a = list[i]] and [b = list[i + 1]].  The difference and the sum with
    1440 are exact here and rounded in the program, where a difference just
    below 0 gives 1440 itself; on whole minutes the two agree. *)
Definition legBetween (trainId : string) (i : nat) (a b : AnyCsv) : LegOut.t :=
  let aMin := toNum (a !! "time_est_min") in
  let bMin := toNum (b !! "time_est_min") in
  let d :=
    match aMin, bMin with
    | Some aMin, Some bMin =>
        let d := (bMin - aMin)%Q in
        Some (if Js.qneg d then (d + inject_Z (24 * 60))%Q else d)
    | _, _ => None
    end in
  {| LegOut.train_id := trainId;
     LegOut.seq := Js.of_nat (i + 1);
     LegOut.from_station := default "" (a !! "station_name");
     LegOut.to_station := default "" (b !! "station_name");
     LegOut.leg_minutes := d;
     LegOut.ka_name := a !! "ka_name";
     LegOut.route_name := a !! "route_name";
     LegOut.color := a !! "color" |}.

(** [for (let i = 0; i < list.length - 1; i++)], started at index [i] on the
    rest [stops] of the array [list]. *)
Fixpoint legsFrom (trainId : string) (i : nat) (stops : list AnyCsv) : list LegOut.t :=
  match stops with
  | a :: rest =>
      match rest with
      | b :: _ => legBetween trainId i a b :: legsFrom trainId (i + 1) rest
      | [] => []
      end
  | [] => []
  end.

(** [deriveLegsFromStops], on the rows that [readCsv] returned. *)
Definition deriveLegsFromStops (rows : list AnyCsv) : list LegOut.t :=
  let byTrain := groupByTrain rows in
  flat_map (λ '(trainId, list0), legsFrom trainId 0 (Arr.sort byStopIndex list0)) byTrain.

(** The object built by [rows.map((r, idx) => ...)] in [loadLegs]. *)
Definition legOfRow (idx : nat) (r : AnyCsv) : LegOut.t :=
  {| LegOut.train_id := default "" (r !! "train_id");
     LegOut.seq := Js.or (NumberU (r !! "from_index")) (Js.of_nat (idx + 1));
     LegOut.from_station := default "" (r !! "from_station");
     LegOut.to_station := default "" (r !! "to_station");
     LegOut.leg_minutes := toNum (r !! "leg_minutes");
     LegOut.ka_name := r !! "ka_name";
     LegOut.route_name := r !! "route_name";
     LegOut.color := r !! "color" |}.

(** [loadLegs].  A file is [None] when [fileExists] says it is absent, and
    otherwise the rows that [readCsv] returns for it. *)
Definition loadLegs (legsCsv stopsCsv : option (list AnyCsv)) : Outcome (list LegOut.t) :=
  match legsCsv with
  | Some rows => Returned (imap legOfRow rows)
  | None =>
      match stopsCsv with
      | Some rows => Returned (deriveLegsFromStops rows)
      | None => Thrown "legs.csv atau stops.csv tidak ditemukan"
      end
  end.

Definition byTrainLeg_step (m : list (string * list LegOut.t)) (l : LegOut.t)
  : list (string * list LegOut.t) :=
  let m1 := if JsMap.has (LegOut.train_id l) m then m else JsMap.set (LegOut.train_id l) [] m in
  JsMap.set (LegOut.train_id l) (default [] (JsMap.get (LegOut.train_id l) m1) ++ [l]) m1.

(** [(a, b) => a.seq - b.seq] *)
Definition bySeq (a b : LegOut.t) : JsNum := Js.sub (LegOut.seq a) (LegOut.seq b).

Definition groupLegsByTrain (legs : list LegOut.t) : list (string * list LegOut.t) :=
  let m := foldl byTrainLeg_step [] legs in
  map (λ '(k, arr), (k, Arr.sort bySeq arr)) m.

(** [`${l.from_station}→${l.to_station}`] *)
Definition label (l : LegOut.t) : string :=
  String.append (LegOut.from_station l) (String.append "→" (LegOut.to_station l)).

(** The inner loop of [extractSegments]: legs are taken up to and including
    the first one that arrives at [dest]. *)
Fixpoint takeUntilDest (dest : string) (seq : list LegOut.t) : list LegOut.t :=
  match seq with
  | [] => []
  | leg :: seq' =>
      leg :: (if bool_decide (LegOut.to_station leg = dest) then [] else takeUntilDest dest seq')
  end.

Definition extractSegments_step (startStation : string) (trains : gmap string TrainMeta)
    (res : list (string * list LegOut.t)) (entry : string * list LegOut.t)
  : list (string * list LegOut.t) :=
  let '(tid, seq) := entry in
  let startIdx := Arr.findIndex (λ l, bool_decide (LegOut.from_station l = startStation)) seq in
  if (startIdx <? 0)%Z then res else
  let d1 := trains !! tid ≫= tm_dest in
  let d2 := LegOut.to_station <$> last seq in
  let dest := if truthyS d1 then default "" d1
              else if truthyS d2 then default "" d2 else "" in
  if negb (truthyS (Some dest)) then res else
  let taken := takeUntilDest dest (drop (Z.to_nat startIdx) seq) in
  if (length taken =? 0)%nat then res else
  let cur := default [] (JsMap.get dest res) in
  JsMap.set dest (cur ++ taken) res.

Definition extractSegments (startStation : string) (byTrain : list (string * list LegOut.t))
    (trains : gmap string TrainMeta) : list (string * list LegOut.t) :=
  foldl (extractSegments_step startStation trains) [] byTrain.

(** [acc.includes(x) ? acc : acc.push(x)], folded: the distinct elements in
    the order of their first occurrence.  This is also the iteration order of
    [new Set(l)]. *)
Definition dedupe (l : list string) : list string :=
  foldl (λ acc x, if bool_decide (x ∈ acc) then acc else acc ++ [x]) [] l.

Definition labelsFrom (legs : option (list LegOut.t)) : list string :=
  match legs with
  | None | Some [] => []
  | Some legs =>
      foldl (λ labels l,
               let lab := label l in
               if (length labels =? 0)%nat || negb (bool_decide (last labels = Some lab))
               then labels ++ [lab] else labels) [] legs
  end.

Definition avgByLabel_step (acc : list (string * (Q * nat))) (l : LegOut.t)
  : list (string * (Q * nat)) :=
  let lab := label l in
  match LegOut.leg_minutes l with
  | None => acc
  | Some v =>
      let e := default (0%Q, 0%nat) (JsMap.get lab acc) in
      JsMap.set lab ((e.1 + v)%Q, (e.2 + 1)%nat) acc
  end.

Definition avgByLabel (labelOrder : list string) (legs : option (list LegOut.t))
  : list (option Q) :=
  let sums := foldl avgByLabel_step [] (default [] legs) in
  (λ lab,
     match JsMap.get lab sums with
     | Some e => if (0 <? e.2)%nat then Some (toFixed2 (e.1 / Qnat e.2)%Q) else None
     | None => None
     end) <$> labelOrder.

Definition buildCompareSeries (startStation : string) (legsA legsB : list LegOut.t)
    (trainsA trainsB : gmap string TrainMeta) : list SeriesPerDest.t :=
  let byTrainA := groupLegsByTrain legsA in
  let byTrainB := groupLegsByTrain legsB in
  let segsAByDest := extractSegments startStation byTrainA trainsA in
  let segsBByDest := extractSegments startStation byTrainB trainsB in
  let allDests := dedupe (segsAByDest.*1 ++ segsBByDest.*1) in
  (λ dest,
     let labelOrder :=
       dedupe (labelsFrom (JsMap.get dest segsAByDest)
               ++ filter (λ _, True) (labelsFrom (JsMap.get dest segsBByDest))) in
     {| SeriesPerDest.dest := dest;
        SeriesPerDest.labels := labelOrder;
        SeriesPerDest.avgA := avgByLabel labelOrder (JsMap.get dest segsAByDest);
        SeriesPerDest.avgB := avgByLabel labelOrder (JsMap.get dest segsBByDest) |})
  <$> allDests.

(** *** Audit mode of [main]: the z-score outliers *)

Definition segStats_step (segStats : list (string * list Q)) (l : LegOut.t)
  : list (string * list Q) :=
  match LegOut.leg_minutes l with
  | None => segStats
  | Some v =>
      let k := label l in
      let e := default [] (JsMap.get k segStats) in
      JsMap.set k (e ++ [v]) segStats
  end.

Definition segStats (legs : list LegOut.t) : list (string * list Q) :=
  foldl segStats_step [] legs.

(** [arr.reduce((a, b) => a + b, 0) / arr.length], in exact arithmetic, as
    are the variance, the deviation and the z-score below.  The program
    rounds every operation, so its z-score may differ from this one in the
    last digits: no general property is stated on which z-scores reach
    the threshold, and the examples use samples on which the arithmetic of
    the program is exact. *)
Definition meanOf (arr : list Q) : Q :=
  (foldl Qplus 0 arr / Qnat (length arr))%Q.

(** [arr.reduce((a, b) => a + (b - mean) * (b - mean), 0) / arr.length] *)
Definition varianceOf (arr : list Q) : Q :=
  let mean := meanOf arr in
  (foldl (λ a b, a + (b - mean) * (b - mean)) 0 arr / Qnat (length arr))%Q.

(** [Math.sqrt(...) || 0].  The square root is taken in the real numbers,
    where [x || 0] is [x]. *)
Definition stdOf (arr : list Q) : R := sqrt (Q2R (varianceOf arr)).

(** [Math.abs((v - mean) / std)] *)
Definition zScore (arr : list Q) (v : Q) : R :=
  Rabs (Q2R (v - meanOf arr)%Q / stdOf arr)%R.

(** The body of [for (const [k, e] of segStats)]: the outliers pushed for
    one segment. *)
Definition outliersOfSegment (entry : string * list Q) : list Outlier.t :=
  let '(k, arr) := entry in
  if (length arr <? 5)%nat then [] else
  if Req_dec_T (stdOf arr) 0%R then [] else
  omap (λ v, if Rge_dec (zScore arr v) 3%R
             then Some {| Outlier.segment := k; Outlier.value := toFixed2 v |}
             else None) arr.

Definition outliers (legs : list LegOut.t) : list Outlier.t :=
  flat_map outliersOfSegment (segStats legs).

(** *** Single-directory mode of [main]: the segment statistics *)

(** [`${r.from_station}__${r.to_station}`] *)
Definition segmentKey (r : LegOut.t) : string :=
  String.append (LegOut.from_station r) (String.append "__" (LegOut.to_station r)).

Definition emptyStats : Stats.t :=
  {| Stats.count := 0; Stats.min := None; Stats.max := None; Stats.sum := 0%Q |}.

(** One turn of [for (const r of legs)]: [agg] and [keyInfo] after it. *)
Definition agg_step (s : list (string * Stats.t) * list (string * (string * string)))
    (r : LegOut.t) : list (string * Stats.t) * list (string * (string * string)) :=
  let '(agg, keyInfo) := s in
  let key := segmentKey r in
  let st := default emptyStats (JsMap.get key agg) in
  let st := pushStat st (LegOut.leg_minutes r) in
  (JsMap.set key st agg,
   if JsMap.has key keyInfo then keyInfo
   else JsMap.set key (LegOut.from_station r, LegOut.to_station r) keyInfo).

Definition aggregate (legs : list LegOut.t)
  : list (string * Stats.t) * list (string * (string * string)) :=
  foldl agg_step ([], []) legs.

(** The row built by [Array.from(agg.entries()).map(([key, st]) => ...)];
    [keyInfo.get(key)!] is defined for every key of [agg]. *)
Definition segRowOf (keyInfo : list (string * (string * string)))
    (entry : string * Stats.t) : SegRow.t :=
  let '(key, st) := entry in
  let info := default ("", "") (JsMap.get key keyInfo) in
  let avg := if (0 <? Stats.count st)%nat
             then Some (Stats.sum st / Qnat (Stats.count st))%Q else None in
  {| SegRow.from_station := info.1;
     SegRow.to_station := info.2;
     SegRow.count := Stats.count st;
     SegRow.min := Stats.min st;
     SegRow.max := Stats.max st;
     SegRow.avg := toFixed2 <$> avg |}.

(** [(a, b) => (b.avg ?? 0) - (a.avg ?? 0)] *)
Definition byAvgDesc (a b : SegRow.t) : JsNum :=
  Fin (default 0 (SegRow.avg b) - default 0 (SegRow.avg a))%Q.

Definition segRows (legs : list LegOut.t) : list SegRow.t :=
  let '(agg, keyInfo) := aggregate legs in
  Arr.sort byAvgDesc (segRowOf keyInfo <$> agg).

End Analyze.
End Analyze.

(** ** A concrete runtime

    [Number] follows the StringToNumber grammar of ECMAScript on ASCII text
    (white space is trimmed, the empty string is 0, a decimal literal may carry
    a sign, a fraction and an exponent, [Infinity] and the 0x, 0o and 0b
    literals are recognised); [toLowerCase] folds the letters A to Z;
    [localeCompare] orders strings by their bytes. *)

Module AsciiRuntime.

Definition code (c : ascii) : Z := Z.of_N (N_of_ascii c).

Definition is_space (c : ascii) : bool :=
  let n := code c in
  ((n =? 32) || (n =? 9) || (n =? 10) || (n =? 11) || (n =? 12) || (n =? 13))%Z.

Fixpoint drop_space (l : list ascii) : list ascii :=
  match l with
  | c :: l' => if is_space c then drop_space l' else l
  | [] => []
  end.

Definition trim (l : list ascii) : list ascii :=
  rev (drop_space (rev (drop_space l))).

Definition digit (base : Z) (c : ascii) : option Z :=
  let n := code c in
  let v := if ((48 <=? n) && (n <=? 57))%Z then Some (n - 48)%Z
           else if ((97 <=? n) && (n <=? 102))%Z then Some (n - 87)%Z
           else if ((65 <=? n) && (n <=? 70))%Z then Some (n - 55)%Z
           else None in
  match v with
  | Some d => if (d <? base)%Z then Some d else None
  | None => None
  end.

(** The value of a run of digits; [None] if some character is not a digit. *)
Fixpoint digits (base : Z) (acc : Z) (l : list ascii) : option Z :=
  match l with
  | [] => Some acc
  | c :: l' =>
      match digit base c with
      | Some d => digits base (acc * base + d) l'
      | None => None
      end
  end.

Definition digits1 (base : Z) (l : list ascii) : option Z :=
  match l with
  | [] => None
  | _ => digits base 0 l
  end.

(** [l] cut at the first character satisfying [P]. *)
Fixpoint cut (P : ascii → bool) (l : list ascii) : list ascii * option (list ascii) :=
  match l with
  | [] => ([], None)
  | c :: l' =>
      if P c then ([], Some l')
      else let '(a, b) := cut P l' in (c :: a, b)
  end.

Definition is_char (n : Z) (c : ascii) : bool := (code c =? n)%Z.

Definition exponent (l : list ascii) : option Z :=
  match l with
  | c :: l' =>
      if is_char 43 c then digits1 10 l'
      else if is_char 45 c then Z.opp <$> digits1 10 l'
      else digits1 10 l
  | [] => None
  end.

Definition mantissa (l : list ascii) : option Q :=
  match cut (is_char 46) l with
  | (int, None) => inject_Z <$> digits1 10 int
  | (int, Some frac) =>
      match int, frac with
      | [], [] => None
      | _, _ =>
          match digits 10 0 int, digits 10 0 frac with
          | Some i, Some f =>
              Some (inject_Z i + inject_Z f / Qpower 10 (Z.of_nat (length frac)))%Q
          | _, _ => None
          end
      end
  end.

Definition unsigned_decimal (l : list ascii) : option Q :=
  match cut (λ c, is_char 101 c || is_char 69 c) l with
  | (m, None) => mantissa m
  | (m, Some e) =>
      match mantissa m, exponent e with
      | Some q, Some z => Some (q * Qpower 10 z)%Q
      | _, _ => None
      end
  end.

Definition signed_decimal (negative : bool) (l : list ascii) : JsNum :=
  if bool_decide (l = list_ascii_of_string "Infinity") then Inf negative
  else match unsigned_decimal l with
       | Some q => Fin (if negative then (- q)%Q else q)
       | None => NaN
       end.

Definition radix_literal (base : Z) (l : list ascii) : JsNum :=
  match digits1 base l with
  | Some z => Fin (inject_Z z)
  | None => NaN
  end.

Definition Number (s : string) : JsNum :=
  match trim (list_ascii_of_string s) with
  | [] => Fin 0
  | c :: l =>
      if is_char 43 c then signed_decimal false l
      else if is_char 45 c then signed_decimal true l
      else match l with
           | x :: l' =>
               if is_char 48 c && (is_char 120 x || is_char 88 x) then radix_literal 16 l'
               else if is_char 48 c && (is_char 111 x || is_char 79 x) then radix_literal 8 l'
               else if is_char 48 c && (is_char 98 x || is_char 66 x) then radix_literal 2 l'
               else signed_decimal false (c :: l)
           | [] => signed_decimal false (c :: l)
           end
  end.

Definition lower (c : ascii) : ascii :=
  let n := code c in
  if ((65 <=? n) && (n <=? 90))%Z then ascii_of_N (Z.to_N (n + 32)) else c.

Fixpoint toLowerCase (s : string) : string :=
  match s with
  | EmptyString => EmptyString
  | String c s' => String (lower c) (toLowerCase s')
  end.

Definition localeCompare (a b : string) : Z :=
  match String.compare a b with
  | Lt => (-1)%Z
  | Eq => 0%Z
  | Gt => 1%Z
  end.

End AsciiRuntime.

Definition ascii_runtime : JsRuntime :=
  {| Number := AsciiRuntime.Number;
     toLowerCase := AsciiRuntime.toLowerCase;
     localeCompare := AsciiRuntime.localeCompare |}.

(** A row from its cells, in any order. *)
Definition row (cells : list (string * string)) : AnyCsv := list_to_map cells.

(** A stop row with the columns the analysis reads. *)
Definition stop (train_id stop_index station_name time_est time_est_min : string) : AnyCsv :=
  row [("train_id", train_id); ("stop_index", stop_index);
       ("station_name", station_name); ("time_est", time_est);
       ("time_est_min", time_est_min)].


(** ** Notions used to state the properties *)

(** [i] is the first position of [l] whose element passes the test [P]:
    what [l.findIndex(P)] looks for. *)
Definition firstAt {A : Type} (P : A → bool) (l : list A) (i : nat) : Prop :=
  (∃ x, l !! i = Some x ∧ P x = true) ∧
  ∀ j x, (j < i)%nat → l !! j = Some x → P x = false.

(** The train a stop row is filed under: [r["train_id"] ?? ""]. *)
Definition trainIdOf (r : AnyCsv) : string := default "" (r !! "train_id").

(** The sequence index a stop row is sorted by: [Number(r["stop_index"]) || 0]. *)
Definition sequenceIndex `{JsRuntime} (r : AnyCsv) : JsNum :=
  Js.or (NumberU (r !! "stop_index")) Js.zero.

(** The stops of one vehicle, sorted ascending by sequence index (stops of
    equal index keep the order of the rows). *)
Definition stopsOfTrain `{JsRuntime} (tid : string) (stops : list AnyCsv) : list AnyCsv :=
  Arr.sort (λ a b, Js.sub (sequenceIndex a) (sequenceIndex b))
    (filter (λ r, trainIdOf r = tid) stops).

(** The result [r] records the stop of its vehicle at [station]: the
    departure time of the first stop so named, and its sequence index (its
    position among the sorted stops when [stop_index] is zero or not a
    number). *)
Definition recordsStopAt `{JsRuntime} (station : string) (stops : list AnyCsv)
    (r : ThroughResult.t) : Prop :=
  ∃ i s,
    firstAt (Through.isStation station) (stopsOfTrain (ThroughResult.train_id r) stops) i ∧
    stopsOfTrain (ThroughResult.train_id r) stops !! i = Some s ∧
    ThroughResult.depart_via_time r = s !! "time_est" ∧
    ThroughResult.via_index r = Js.or (NumberU (s !! "stop_index")) (Js.of_nat i).

(** [x mod m] on rationals: [x] minus the largest multiple of [m] below it. *)
Definition Qmod (x m : Q) : Q := (x - m * inject_Z (Qfloor (x / m)))%Q.

(** The wait of a transfer from the inbound leg [a] to the outbound leg [b]. *)
Definition waitAt `{JsRuntime} (a : LegA.t) (b : LegB.t) : JsNum :=
  Through.waitDiffMin (LegA.arriveTAMin a) (LegB.departTAMin b).

(** The legs that [deriveLegsFromStops] emits for one vehicle. *)
Definition legsOfTrain (tid : string) (legs : list LegOut.t) : list LegOut.t :=
  filter (λ l, LegOut.train_id l = tid) legs.

(** [x] is a whole number. *)
Definition isInteger (x : Q) : Prop := ∃ z : Z, (x == inject_Z z)%Q.

(** The non-null duration samples of the segment labelled [k], in the order
    of the legs. *)
Definition samplesOf (k : string) (legs : list LegOut.t) : list Q :=
  omap LegOut.leg_minutes (filter (λ l, Analyze.label l = k) legs).

(** The non-null duration samples of the legs whose aggregation key is [key]. *)
Definition samplesOfKey (key : string) (legs : list LegOut.t) : list Q :=
  omap LegOut.leg_minutes (filter (λ l, Analyze.segmentKey l = key) legs).

(** The aggregation key of an output row: [`${from_station}__${to_station}`]. *)
Definition rowKey (row : SegRow.t) : string :=
  String.append (SegRow.from_station row) (String.append "__" (SegRow.to_station row)).

(** The order of the output rows: descending by mean, a null mean counting as 0. *)
Definition avgDescending (r1 r2 : SegRow.t) : Prop :=
  (default 0 (SegRow.avg r2) <= default 0 (SegRow.avg r1))%Q.










(** [q] is [x] rounded to two decimals: [q] is a whole number [k] of
    hundredths, and no whole number is nearer to [100 x] than [k] (when [100 x]
    lies halfway between two, [k] is either). *)
Definition roundedTo2 (x q : Q) : Prop :=
  ∃ k : Z, (q == inject_Z k / 100)%Q ∧ (Qabs (inject_Z k - 100 * x) <= 1 # 2)%Q.

(** The samples [xs] are durations in whole minutes, at most a million of
    them and none beyond a million minutes.  Within these bounds the sum that
    the program computes in double precision is exact, and its quotient by
    the count is rounded to the same two decimals as the exact quotient,
    unless that lies halfway between two. *)
Definition wholeMinutes (xs : list Q) : Prop :=
  (Z.of_nat (length xs) <= 1000000)%Z ∧
  ∀ x, x ∈ xs → ∃ z : Z, (x == inject_Z z)%Q ∧ (-1000000 <= z <= 1000000)%Z.

(** The mean of the samples [xs]: their sum over their number. *)
Definition meanOfSamples (xs : list Q) : Q :=
  (foldl Qplus 0 xs / inject_Z (Z.of_nat (length xs)))%Q.

(** ** Example data *)

Module Examples.

(** Train 101 calls at Palmerah, Tanah Abang and Sudirman. *)
Definition through_stops : list AnyCsv :=
  [stop "101" "0" "Palmerah" "07:00" "420";
   stop "101" "1" "Tanah Abang" "07:20" "440";
   stop "101" "2" "Sudirman" "07:40" "460"].

Definition through_result : ThroughResult.t :=
  {| ThroughResult.train_id := "101";
     ThroughResult.ka_name := None;
     ThroughResult.route_name := None;
     ThroughResult.depart_via_time := Some "07:00";
     ThroughResult.via_index := Fin 0;
     ThroughResult.continues_to_dest := true |}.

(** An inbound train reaching the hub at 07:20 ... *)
Definition pre_stops : list AnyCsv :=
  [stop "A" "0" "Palmerah" "07:00" "420";
   stop "A" "1" "Tanah Abang" "07:20" "440"].

(** ... and outbound trains leaving it at 07:10 and at 07:45. *)
Definition post_stops : list AnyCsv :=
  [stop "B" "0" "Tanah Abang" "07:10" "430";
   stop "B" "1" "Rangkasbitung" "08:10" "490";
   stop "C" "0" "Tanah Abang" "07:45" "465";
   stop "C" "1" "Rangkasbitung" "08:45" "525"].


Definition transfer_pair : PairResult.t :=
  {| PairResult.from_train_id := "A";
     PairResult.to_train_id := "C";
     PairResult.depart_via_time := "07:00";
     PairResult.arrive_ta_time := "07:20";
     PairResult.depart_ta_time := "07:45";
     PairResult.arrive_dest_time := Some "08:45";
     PairResult.wait_min := Fin 25;
     PairResult.meta_from := None;
     PairResult.meta_to := None |}.

(** An inbound train reaching the hub at 23:50 and a single outbound train
    leaving it at 00:10. *)
Definition late_pre_stops : list AnyCsv :=
  [stop "L" "0" "Palmerah" "23:30" "1410";
   stop "L" "1" "Tanah Abang" "23:50" "1430"].

Definition early_post_stops : list AnyCsv :=
  [stop "E" "0" "Tanah Abang" "00:10" "10";
   stop "E" "1" "Rangkasbitung" "01:10" "70"].


Definition leg (train_id : string) (seq : Z) (from to : string) (minutes : option Q)
  : LegOut.t :=
  {| LegOut.train_id := train_id;
     LegOut.seq := Js.of_Z seq;
     LegOut.from_station := from;
     LegOut.to_station := to;
     LegOut.leg_minutes := minutes;
     LegOut.ka_name := None;
     LegOut.route_name := None;
     LegOut.color := None |}.

(** Three samples of the segment A to B: 1, 1 and 2 minutes. *)
Definition thirds_legs : list LegOut.t :=
  [leg "1" 1 "A" "B" (Some 1%Q); leg "2" 1 "A" "B" (Some 1%Q);
   leg "3" 1 "A" "B" (Some 2%Q)].

Definition thirds_row : SegRow.t :=
  {| SegRow.from_station := "A";
     SegRow.to_station := "B";
     SegRow.count := 3;
     SegRow.min := Some 1%Q;
     SegRow.max := Some 2%Q;
     SegRow.avg := Some (133 # 100)%Q |}.


(** Four samples of one segment, one of them far from the others. *)
Definition few_legs : list LegOut.t :=
  [leg "1" 1 "A" "B" (Some 1%Q); leg "2" 1 "A" "B" (Some 1%Q);
   leg "3" 1 "A" "B" (Some 1%Q); leg "4" 1 "A" "B" (Some 1000%Q)].

(** Five samples of one segment: 10, 10, 10, 10 and 50 minutes. *)
Definition spread_legs : list LegOut.t :=
  [leg "1" 1 "A" "B" (Some 10%Q); leg "2" 1 "A" "B" (Some 10%Q);
   leg "3" 1 "A" "B" (Some 10%Q); leg "4" 1 "A" "B" (Some 10%Q);
   leg "5" 1 "A" "B" (Some 50%Q)].

(** Ten samples of one segment: nine of 0 minutes and one of 10 minutes. *)
Definition boundary_legs : list LegOut.t :=
  [leg "0" 1 "A" "B" (Some 10%Q); leg "1" 1 "A" "B" (Some 0%Q);
   leg "2" 1 "A" "B" (Some 0%Q); leg "3" 1 "A" "B" (Some 0%Q);
   leg "4" 1 "A" "B" (Some 0%Q); leg "5" 1 "A" "B" (Some 0%Q);
   leg "6" 1 "A" "B" (Some 0%Q); leg "7" 1 "A" "B" (Some 0%Q);
   leg "8" 1 "A" "B" (Some 0%Q); leg "9" 1 "A" "B" (Some 0%Q)].


End Examples.

(** ** CSV text: [readCsv] and [SimpleCsvService.toCSV]

    [readCsv] is written out three times, in [through.ts], in [analyze.ts]
    and in the command module, with the same text; it is translated once,
    as the function from the content that [fs.readFile] returned to the rows.
    A string is a sequence of characters; the four characters that the two
    functions treat specially are ASCII. *)

(** [PrimitiveCsv = string | number | boolean | null | undefined] *)
Inductive PrimitiveCsv : Type :=
| PString (s : string)
| PNumber (n : JsNum)
| PBoolean (b : bool)
| PNull
| PUndefined.

(** [String(n)] for a number [n], and [String(Object.prototype[name])] for
    the name of a member that objects inherit: more built-ins whose result
    the source text does not determine. *)
Class JsFormat : Type := {
  numberToString : JsNum → string;
  memberToString : string → string;
}.

Module Csv.

Definition dquote : ascii := "034"%char.
Definition comma : ascii := ","%char.
Definition lf : ascii := "010"%char.
Definition cr : ascii := "013"%char.

(** [c] put in front of the first piece. *)
Definition consHead (c : ascii) (pieces : list string) : list string :=
  match pieces with
  | [] => [String c EmptyString]
  | w :: ws => String c w :: ws
  end.

(** [content.split(/\r?\n/)]: a line ends at a line feed, and a carriage
    return just before the line feed belongs to the separator. *)
Fixpoint splitLines (content : string) : list string :=
  match content with
  | EmptyString => [EmptyString]
  | String c rest =>
      if Ascii.eqb c lf then EmptyString :: splitLines rest
      else if Ascii.eqb c cr then
        match rest with
        | String c' rest' =>
            if Ascii.eqb c' lf then EmptyString :: splitLines rest'
            else consHead c (splitLines rest)
        | EmptyString => consHead c (splitLines rest)
        end
      else consHead c (splitLines rest)
  end.

(** [cur += ch] *)
Definition push (cur : string) (ch : ascii) : string :=
  String.append cur (String ch EmptyString).

(** The loop [for (let j = 0; j < line.length; j++)] of [readCsv] followed by
    the last [cols.push(cur)], from the state [(inQ, cur)] on the rest of the
    line: the columns pushed from there on.  In the branch of a doubled quote
    the [j++] skips the second quote. *)
Fixpoint columns (inQ : bool) (cur : string) (line : string) : list string :=
  match line with
  | EmptyString => [cur]
  | String ch rest =>
      if inQ then
        if Ascii.eqb ch dquote then
          match rest with
          | String ch' rest' =>
              if Ascii.eqb ch' dquote then columns true (push cur dquote) rest'
              else columns false cur rest
          | EmptyString => columns false cur rest
          end
        else columns true (push cur ch) rest
      else
        if Ascii.eqb ch dquote then columns true cur rest
        else if Ascii.eqb ch comma then cur :: columns false EmptyString rest
        else columns false (push cur ch) rest
  end.

(** The names of the members that an object literal inherits from
    [Object.prototype].  Reading one of them from an object that has no
    property of its own under that name gives the inherited member, and
    assigning a string to [__proto__] calls the inherited setter, which
    stores nothing. *)
Definition inheritedNames : list string :=
  ["constructor"; "hasOwnProperty"; "isPrototypeOf"; "propertyIsEnumerable";
   "toLocaleString"; "toString"; "valueOf";
   "__defineGetter__"; "__defineSetter__"; "__lookupGetter__"; "__lookupSetter__";
   "__proto__"].

(** [headers.forEach((h, idx) => { obj[h] = cols[idx] ?? ""; })], from the
    header of index [idx] on.  The object starts as [{}]: the assignment
    creates or overwrites a column, except under the header [__proto__]. *)
Fixpoint rowFrom (idx : nat) (headers cols : list string) (obj : AnyCsv) : AnyCsv :=
  match headers with
  | [] => obj
  | h :: headers' =>
      rowFrom (S idx) headers' cols
        (if decide (h = "__proto__") then obj
         else <[h := default "" (cols !! idx)]> obj)
  end.

Definition rowOfLine (headers : list string) (line : string) : AnyCsv :=
  rowFrom 0 headers (columns false EmptyString line) ∅.

(** [readCsv], on the content of the file. *)
Definition readCsv (content : string) : list AnyCsv :=
  let lines := filter (λ l, (0 < String.length l)%nat) (splitLines content) in
  match lines with
  | [] => []
  | headerLine :: lines' =>
      let headers := split_on comma headerLine in
      rowOfLine headers <$> lines'
  end.

(** [arr.join(sep)] on an array of strings. *)
Fixpoint join (sep : string) (arr : list string) : string :=
  match arr with
  | [] => EmptyString
  | x :: arr' =>
      match arr' with
      | [] => x
      | _ :: _ => String.append x (String.append sep (join sep arr'))
      end
  end.

(** The test of [esc]: [s] holds a double quote, a comma or a line feed. *)
Fixpoint needsQuote (s : string) : bool :=
  match s with
  | EmptyString => false
  | String c s' =>
      Ascii.eqb c dquote || Ascii.eqb c comma || Ascii.eqb c lf || needsQuote s'
  end.

(** The replacement of [esc]: every double quote of [s] is doubled. *)
Fixpoint doubleQuotes (s : string) : string :=
  match s with
  | EmptyString => EmptyString
  | String c s' =>
      if Ascii.eqb c dquote then String dquote (String dquote (doubleQuotes s'))
      else String c (doubleQuotes s')
  end.

Section ToCSV.
Context `{JsFormat}.

(** [v == null ? "" : String(v)], for the value [v] of a property that may
    be missing. *)
Definition cellText (v : option PrimitiveCsv) : string :=
  match v with
  | Some (PString s) => s
  | Some (PNumber n) => numberToString n
  | Some (PBoolean b) => if b then "true" else "false"
  | Some PNull | Some PUndefined | None => ""
  end.

(** The function [esc] of [toCSV]. *)
Definition esc (v : option PrimitiveCsv) : string :=
  let s := cellText v in
  if needsQuote s
  then String dquote (String.append (doubleQuotes s) (String dquote EmptyString))
  else s.

(** [r[h]] on a row object: its own property, or else the member it
    inherits under that name, which [esc] turns into text as it does a
    string; [undefined] otherwise. *)
Definition member (r : gmap string PrimitiveCsv) (h : string) : option PrimitiveCsv :=
  match r !! h with
  | Some v => Some v
  | None =>
      if bool_decide (h ∈ inheritedNames) then Some (PString (memberToString h))
      else None
  end.

(** [Array.from(new Set(names))]: the names, each at its first occurrence. *)
Fixpoint unique (names : list string) : list string :=
  match names with
  | [] => []
  | n :: names' => n :: filter (λ m, m ≠ n) (unique names')
  end.

(** The text returned by [toCSV] once the headers are known. *)
Definition lines (rows : list (gmap string PrimitiveCsv)) (headers : list string) : string :=
  join (String lf EmptyString)
    (join "," headers
       :: ((λ r, join "," ((λ h, esc (member r h)) <$> headers)) <$> rows)).

(** [toCSV(rows, headerOrder)].  A row is the map of its own properties;
    [ownKeys r] is [Object.keys(r)], the names of these properties in the
    order in which the object lists them, which the map does not record.  It
    is used only when no header order is given. *)
Definition toCSV (ownKeys : gmap string PrimitiveCsv → list string)
    (rows : list (gmap string PrimitiveCsv)) (headerOrder : option (list string)) : string :=
  match rows with
  | [] => ""
  | _ :: _ =>
      lines rows
        (match headerOrder with
         | Some headers => headers
         | None => unique (flat_map ownKeys rows)
         end)
  end.

End ToCSV.
End Csv.

(** ** Command-line arguments: [parseArgs] *)

(** A value of the record that [parseArgs] returns: a string, or [true] for
    an argument without [=]. *)
Inductive ArgValue : Type :=
| VString (s : string)
| VTrue.

Module Cli.

(** [p.replace(/^--/, "")] *)
Definition stripDashes (p : string) : string :=
  match p with
  | String "-" (String "-" rest) => rest
  | _ => p
  end.

(** The pair built for one argument:
    [const [k, v] = p.replace(/^--/, "").split("="); return [k, v ?? true]]. *)
Definition argEntry (p : string) : string * ArgValue :=
  let parts := split_on "=" (stripDashes p) in
  (default "" (parts !! 0%nat),
   match parts !! 1%nat with
   | Some v => VString v
   | None => VTrue
   end).

(** [Object.fromEntries(pairs)]: a later pair overwrites an earlier one with
    the same key. *)
Definition fromEntries (pairs : list (string * ArgValue)) : gmap string ArgValue :=
  foldl (λ o kv, <[kv.1 := kv.2]> o) ∅ pairs.

Definition parseArgs (argv : list string) : gmap string ArgValue :=
  fromEntries (argEntry <$> drop 2 argv).

(** [String(v)] for [v : string | boolean]. *)
Definition stringOf (v : ArgValue) : string :=
  match v with
  | VString s => s
  | VTrue => "true"
  end.

(** ToBoolean on [string | boolean | undefined]. *)
Definition truthyArg (v : option ArgValue) : bool :=
  match v with
  | Some (VString s) => truthyS (Some s)
  | Some VTrue => true
  | None => false
  end.

End Cli.

(** ** [services.ts] *)

(** [AppConfig] *)
Module AppConfig.
Record t : Type := mk {
  apiBase : string;
  token : string;
  outDir : string;
  stationId : string;
  timeFrom : string;
  timeTo : string;
}.
End AppConfig.

Module EnvCliConfigService.

Definition getStringArg (map : gmap string ArgValue) (key fallback : string) : string :=
  match map !! key with
  | Some (VString v) => if (0 <? String.length v)%nat then v else fallback
  | _ => fallback
  end.

(** [s.replace(/\/$/, "")]: one slash at the very end is removed. *)
Fixpoint stripSlash (s : string) : string :=
  match s with
  | EmptyString => EmptyString
  | String c s' =>
      match s' with
      | EmptyString => if Ascii.eqb c "/" then EmptyString else s
      | String _ _ => String c (stripSlash s')
      end
  end.

(** [getConfig], for the arguments and the environment given to the
    constructor. *)
Definition getConfig (argv : list string) (env : gmap string string)
  : Outcome AppConfig.t :=
  let stripped := stripSlash <$> env !! "KRL_API_BASE" in
  let apiBase := if truthyS stripped then default "" stripped
                 else "https://api-partner.krl.co.id" in
  let token := env !! "KRL_TOKEN" in
  if negb (truthyS token) then Thrown "Env KRL_TOKEN belum diset" else
  let args := Cli.fromEntries (Cli.argEntry <$> drop 2 argv) in
  let stationId := getStringArg args "station" (getStringArg args "s" "THB") in
  let timeFrom := getStringArg args "from" "00:00" in
  let timeTo := getStringArg args "to" (getStringArg args "timeto" "23:00") in
  let outDir := getStringArg args "out" "./out" in
  Returned {| AppConfig.apiBase := apiBase;
              AppConfig.token := default "" token;
              AppConfig.outDir := outDir;
              AppConfig.stationId := stationId;
              AppConfig.timeFrom := timeFrom;
              AppConfig.timeTo := timeTo |}.

End EnvCliConfigService.

Module DefaultTimeService.
Section DefaultTimeService.
Context `{JsRuntime}.

Definition MIN_IN_DAY : JsNum := Js.of_Z (24 * 60).

(** [hmsToMin] and [diffMin] compute in exact arithmetic; the program rounds
    the quotient of the seconds, the sums and the difference.  The two agree
    on times without seconds, whose minute values are whole numbers. *)
Definition hmsToMin (hms : option string) : option JsNum :=
  if negb (truthyS hms) then None else
  let parts := split_on ":" (default "" hms) in
  let hStr := parts !! 0%nat in
  let mStr := parts !! 1%nat in
  let sStr := Some (default "0" (parts !! 2%nat)) in
  let h := NumberU hStr in
  let m := NumberU mStr in
  let s := NumberU sStr in
  if Js.isNaN h || Js.isNaN m then None else
  Some (Js.add (Js.add (Js.mul h (Js.of_Z 60)) m)
               (if Js.isNaN s then Js.zero else Js.div s (Js.of_Z 60))).

Definition diffMin (aHms bHms : option string) : option JsNum :=
  let a := hmsToMin aHms in
  let b := hmsToMin bHms in
  match a, b with
  | Some a, Some b =>
      let d := Js.sub b a in
      Some (if Js.lt d Js.zero then Js.add d MIN_IN_DAY else d)
  | _, _ => None
  end.

End DefaultTimeService.
End DefaultTimeService.

(** [FetchHttpClient.getJSON].  What the [try] block of an attempt settles
    to (the parsed body, or whatever it throws: a network error, the abort
    of the timer, the [Error] made for a response that is not ok, a body
    that is not JSON) is given by [attempt]; the function returns what the
    call settles to, together with the delays it slept, in milliseconds. *)
Module FetchHttpClient.
Section FetchHttpClient.
Context {T : Type}.

(** The [for] loop from [attempt = k] on; [fuel] bounds the turns left. *)
Fixpoint attemptsFrom (fuel : nat) (attempt : nat → Outcome T) (retries : Z) (k : nat)
  : Outcome T * list Z :=
  match fuel with
  | O => (Thrown "Request failed after retries", [])
  | S fuel' =>
      if (Z.of_nat k <=? retries)%Z then
        match attempt k with
        | Returned v => (Returned v, [])
        | Thrown e =>
            if (Z.of_nat k =? retries)%Z then (Thrown e, [])
            else
              let '(r, sleeps) := attemptsFrom fuel' attempt retries (S k) in
              (r, (750 * (Z.of_nat k + 1))%Z :: sleeps)
        end
      else (Thrown "Request failed after retries", [])
  end.

(** [getJSON(url, { retries })] for a whole number of retries: the loop makes
    at most [retries + 1] turns. *)
Definition getJSON (attempt : nat → Outcome T) (retries : Z) : Outcome T * list Z :=
  attemptsFrom (Z.to_nat (retries + 1) + 1) attempt retries 0.

End FetchHttpClient.
End FetchHttpClient.

(** ** A concrete [String(n)]

    A finite number is printed in decimal notation, without exponent: the
    integer part, then a point and up to 17 digits of the fraction (cut
    there) when the number is not whole. *)

Module AsciiFormat.

Definition digitChar (d : Z) : ascii := ascii_of_N (Z.to_N (48 + d)).

(** The decimal digits of [n >= 0], in front of [acc]. *)
Fixpoint digitsOf (fuel : nat) (n : Z) (acc : string) : string :=
  match fuel with
  | O => acc
  | S fuel' =>
      let acc' := String (digitChar (n mod 10)) acc in
      if (n <? 10)%Z then acc' else digitsOf fuel' (n / 10) acc'
  end.

(** The digits of the fraction [num / den], for [0 <= num < den]. *)
Fixpoint fractionOf (fuel : nat) (num den : Z) : string :=
  match fuel with
  | O => EmptyString
  | S fuel' =>
      if (num =? 0)%Z then EmptyString
      else String (digitChar (num * 10 / den)) (fractionOf fuel' (num * 10 mod den) den)
  end.

Definition finiteToString (q : Q) : string :=
  let n := Z.abs (Qnum q) in
  let d := Z.pos (Qden q) in
  let whole := digitsOf (S (Z.to_nat (Z.log2 (n / d)))) (n / d) EmptyString in
  let fraction := fractionOf 17 (n mod d) d in
  String.append (if (Qnum q <? 0)%Z then "-" else "")
    (String.append whole
       (match fraction with
        | EmptyString => EmptyString
        | _ => String "." fraction
        end)).

Definition numberToString (n : JsNum) : string :=
  match n with
  | NaN => "NaN"
  | Inf false => "Infinity"
  | Inf true => "-Infinity"
  | Fin q => finiteToString q
  end.

(** The prototype prints as an object, its methods as native functions. *)
Definition memberToString (name : string) : string :=
  if decide (name = "__proto__") then "[object Object]"
  else String.append "function " (String.append name "() { [native code] }").

End AsciiFormat.

Definition ascii_format : JsFormat :=
  {| numberToString := AsciiFormat.numberToString;
     memberToString := AsciiFormat.memberToString |}.

(** ** Notions used to state the properties of the text functions *)

(** The character [c] occurs in [s]. *)
Fixpoint hasChar (c : ascii) (s : string) : bool :=
  match s with
  | EmptyString => false
  | String c' s' => Ascii.eqb c' c || hasChar c s'
  end.

(** What a row written by [toCSV] is expected to read back as: every header
    mapped to the text of its cell. *)
Definition readBack `{JsFormat} (headers : list string) (r : gmap string PrimitiveCsv)
  : AnyCsv :=
  list_to_map ((λ h, (h, Csv.cellText (r !! h))) <$> headers).

(** The text of [v] before its first [c]: the first piece of [v.split(c)]. *)
Fixpoint upTo (c : ascii) (v : string) : string :=
  match v with
  | EmptyString => EmptyString
  | String c' v' => if Ascii.eqb c' c then EmptyString else String c' (upTo c v')
  end.

(** The delays slept before the attempt of index [k]: 750 ms after the first
    failure, 1500 ms after the second, and so on. *)
Definition sleepsBefore (k : nat) : list Z :=
  (λ i, (750 * (Z.of_nat i + 1))%Z) <$> seq 0 k.

(** ** [app.ts]: the rows the scraper writes *)

(** [ScheduleItem] of [services.ts]. *)
Module ScheduleItem.
Record t : Type := mk {
  train_id : string;
  ka_name : string;
  route_name : string;
  dest : string;
  color : string;
  time_est : string;
  dest_time : string;
}.
End ScheduleItem.

(** The field [transit_station] of a [TrainStop]:
    [boolean | 0 | 1 | null | undefined]. *)
Inductive TransitStation : Type :=
| TransitBool (b : bool)
| TransitZero
| TransitOne
| TransitNullish.

(** The field [transit] of a [TrainStop]:
    [string[] | string | null | undefined]. *)
Inductive Transit : Type :=
| TransitArray (colors : list string)
| TransitString (s : string)
| TransitNone.

(** [TrainStop] of [services.ts]. *)
Module TrainStop.
Record t : Type := mk {
  station_name : string;
  time_est : string;
  transit_station : TransitStation;
  transit : Transit;
}.
End TrainStop.

(** [TrainSummaryRow] of [domain.ts]. *)
Module TrainSummaryRow.
Record t : Type := mk {
  query_station : string;
  time_from : string;
  time_to : string;
  train_id : string;
  ka_name : string;
  route_name : string;
  dest : string;
  color : string;
  time_est : string;
  dest_time : string;
}.
End TrainSummaryRow.

(** [StopRow] of [domain.ts]. *)
Module StopRow.
Record t : Type := mk {
  train_id : string;
  ka_name : string;
  route_name : string;
  color : string;
  query_station : string;
  stop_index : nat;
  station_name : string;
  time_est : string;
  time_est_min : option JsNum;
  transit_station : bool;
  transit_colors : string;
  header_station : string;
}.
End StopRow.

(** [LegRow] of [domain.ts]. *)
Module LegRow.
Record t : Type := mk {
  train_id : string;
  from_index : nat;
  from_station : string;
  to_index : nat;
  to_station : string;
  leg_minutes : option JsNum;
  ka_name : string;
  route_name : string;
  color : string;
}.
End LegRow.

(** What [fetchTrain] settled to for one train of the schedule, as the
    callback given to [mapWithConcurrency] returns it. *)
Module TrainResult.
Inductive t : Type :=
| ok (stops : list StopRow.t) (legs : list LegRow.t) (trainId : string)
| failed (trainId ka_name route_name color reason : string).
End TrainResult.

Module AppOrchestrator.
Section AppOrchestrator.
Context `{JsRuntime}.

(** [schedule.map(o => ({ query_station: stationId, ... }))] *)
Definition summaryRow (stationId timeFrom timeTo : string) (o : ScheduleItem.t)
  : TrainSummaryRow.t :=
  {| TrainSummaryRow.query_station := stationId;
     TrainSummaryRow.time_from := timeFrom;
     TrainSummaryRow.time_to := timeTo;
     TrainSummaryRow.train_id := ScheduleItem.train_id o;
     TrainSummaryRow.ka_name := ScheduleItem.ka_name o;
     TrainSummaryRow.route_name := ScheduleItem.route_name o;
     TrainSummaryRow.dest := ScheduleItem.dest o;
     TrainSummaryRow.color := ScheduleItem.color o;
     TrainSummaryRow.time_est := ScheduleItem.time_est o;
     TrainSummaryRow.dest_time := ScheduleItem.dest_time o |}.

(** [!!s.transit_station] *)
Definition transitFlag (v : TransitStation) : bool :=
  match v with
  | TransitBool b => b
  | TransitOne => true
  | TransitZero | TransitNullish => false
  end.

(** [Array.isArray(s.transit) ? s.transit.join("|")
      : (typeof s.transit === "string" ? s.transit : "")] *)
Definition transitColors (v : Transit) : string :=
  match v with
  | TransitArray colors => Csv.join "|" colors
  | TransitString s => s
  | TransitNone => ""
  end.

(** The object pushed onto [localStops] at turn [i]. *)
Definition stopRow (t : TrainSummaryRow.t) (stationId : string) (header : option TrainStop.t)
    (i : nat) (s : TrainStop.t) : StopRow.t :=
  {| StopRow.train_id := TrainSummaryRow.train_id t;
     StopRow.ka_name := TrainSummaryRow.ka_name t;
     StopRow.route_name := TrainSummaryRow.route_name t;
     StopRow.color := TrainSummaryRow.color t;
     StopRow.query_station := stationId;
     StopRow.stop_index := i;
     StopRow.station_name := TrainStop.station_name s;
     StopRow.time_est := TrainStop.time_est s;
     StopRow.time_est_min := DefaultTimeService.hmsToMin (Some (TrainStop.time_est s));
     StopRow.transit_station := transitFlag (TrainStop.transit_station s);
     StopRow.transit_colors := transitColors (TrainStop.transit s);
     StopRow.header_station := default "" (TrainStop.station_name <$> header) |}.

(** The object pushed onto [localLegs] at turn [i > 0], for
    [prev = stops[i - 1]] and [s = stops[i]]. *)
Definition legRow (t : TrainSummaryRow.t) (i : nat) (prev s : TrainStop.t) : LegRow.t :=
  {| LegRow.train_id := TrainSummaryRow.train_id t;
     LegRow.from_index := i - 1;
     LegRow.from_station := TrainStop.station_name prev;
     LegRow.to_index := i;
     LegRow.to_station := TrainStop.station_name s;
     LegRow.leg_minutes :=
       DefaultTimeService.diffMin (Some (TrainStop.time_est prev)) (Some (TrainStop.time_est s));
     LegRow.ka_name := TrainSummaryRow.ka_name t;
     LegRow.route_name := TrainSummaryRow.route_name t;
     LegRow.color := TrainSummaryRow.color t |}.

(** The loop [for (let i = 0; i < stops.length; i++)] from turn [i] on, with
    [prev = stops[i - 1]] (nothing at turn 0) and [rest] the stops from index
    [i]: the rows pushed onto [localStops] and [localLegs]. *)
Fixpoint rowsFrom (t : TrainSummaryRow.t) (stationId : string) (header : option TrainStop.t)
    (i : nat) (prev : option TrainStop.t) (rest : list TrainStop.t)
  : list StopRow.t * list LegRow.t :=
  match rest with
  | [] => ([], [])
  | s :: rest' =>
      let '(localStops, localLegs) := rowsFrom t stationId header (S i) (Some s) rest' in
      (stopRow t stationId header i s :: localStops,
       match prev with
       | Some prev => if (0 <? i)%nat then legRow t i prev s :: localLegs else localLegs
       | None => localLegs
       end)
  end.

(** The callback given to [mapWithConcurrency], on what [fetchTrain] settles
    to: its [try] branch and its [catch] branch. *)
Definition trainResult (stationId : string) (t : TrainSummaryRow.t)
    (fetched : Outcome (list TrainStop.t)) : TrainResult.t :=
  match fetched with
  | Returned stops =>
      let '(localStops, localLegs) := rowsFrom t stationId (head stops) 0 None stops in
      TrainResult.ok localStops localLegs (TrainSummaryRow.train_id t)
  | Thrown reason =>
      TrainResult.failed (TrainSummaryRow.train_id t) (TrainSummaryRow.ka_name t)
        (TrainSummaryRow.route_name t) (TrainSummaryRow.color t) reason
  end.

(** [for (const r of results)]: [stopsAll] and [legsAll] after the loop.  The
    callback never rejects, so every result is fulfilled, and
    [mapWithConcurrency] stores the result of item [i] at index [i] whatever
    the order in which the fetches settle. *)
Definition collect (results : list TrainResult.t) : list StopRow.t * list LegRow.t :=
  foldl (λ acc r,
           match r with
           | TrainResult.ok stops legs _ => (acc.1 ++ stops, acc.2 ++ legs)
           | TrainResult.failed _ _ _ _ _ => acc
           end) ([], []) results.

(** The rows of [stops.csv] and [legs.csv] for a schedule, [fetchTrain]
    giving what the API returns for each train. *)
Definition scrape (stationId timeFrom timeTo : string) (schedule : list ScheduleItem.t)
    (fetchTrain : string → Outcome (list TrainStop.t)) : list StopRow.t * list LegRow.t :=
  let trainsSummary := summaryRow stationId timeFrom timeTo <$> schedule in
  collect ((λ t, trainResult stationId t (fetchTrain (TrainSummaryRow.train_id t)))
             <$> trainsSummary).

End AppOrchestrator.

(** A [number | null] field as a [PrimitiveCsv]. *)
Definition numberOrNull (v : option JsNum) : PrimitiveCsv :=
  match v with
  | Some n => PNumber n
  | None => PNull
  end.

(** A [StopRow] as the [Record<string, PrimitiveCsv>] given to [toCSV]. *)
Definition stopCells (r : StopRow.t) : gmap string PrimitiveCsv :=
  list_to_map
    [("train_id", PString (StopRow.train_id r));
     ("ka_name", PString (StopRow.ka_name r));
     ("route_name", PString (StopRow.route_name r));
     ("color", PString (StopRow.color r));
     ("query_station", PString (StopRow.query_station r));
     ("stop_index", PNumber (Js.of_nat (StopRow.stop_index r)));
     ("station_name", PString (StopRow.station_name r));
     ("time_est", PString (StopRow.time_est r));
     ("time_est_min", numberOrNull (StopRow.time_est_min r));
     ("transit_station", PBoolean (StopRow.transit_station r));
     ("transit_colors", PString (StopRow.transit_colors r));
     ("header_station", PString (StopRow.header_station r))].

(** A [LegRow] as the [Record<string, PrimitiveCsv>] given to [toCSV]. *)
Definition legCells (r : LegRow.t) : gmap string PrimitiveCsv :=
  list_to_map
    [("train_id", PString (LegRow.train_id r));
     ("from_index", PNumber (Js.of_nat (LegRow.from_index r)));
     ("from_station", PString (LegRow.from_station r));
     ("to_index", PNumber (Js.of_nat (LegRow.to_index r)));
     ("to_station", PString (LegRow.to_station r));
     ("leg_minutes", numberOrNull (LegRow.leg_minutes r));
     ("ka_name", PString (LegRow.ka_name r));
     ("route_name", PString (LegRow.route_name r));
     ("color", PString (LegRow.color r))].

(** The header orders of the calls of [toCSV] in [run]. *)
Definition stopsHeader : list string :=
  ["train_id"; "stop_index"; "station_name"; "time_est"; "time_est_min";
   "transit_station"; "transit_colors"; "ka_name"; "route_name"; "color";
   "query_station"; "header_station"].

Definition legsHeader : list string :=
  ["train_id"; "from_index"; "from_station"; "to_index"; "to_station"; "leg_minutes";
   "ka_name"; "route_name"; "color"].

(** [Object.keys] of a [StopRow] and of a [LegRow]: the properties in the
    order of the object literals of [run]. *)
Definition stopKeys (r : gmap string PrimitiveCsv) : list string :=
  ["train_id"; "ka_name"; "route_name"; "color"; "query_station"; "stop_index";
   "station_name"; "time_est"; "time_est_min"; "transit_station"; "transit_colors";
   "header_station"].

Definition legKeys (r : gmap string PrimitiveCsv) : list string :=
  ["train_id"; "from_index"; "from_station"; "to_index"; "to_station"; "leg_minutes";
   "ka_name"; "route_name"; "color"].

Section Files.
Context `{JsFormat}.

(** The content written to [stops.csv] and to [legs.csv]. *)
Definition stopsCsv (stopsAll : list StopRow.t) : string :=
  Csv.toCSV stopKeys (stopCells <$> stopsAll) (Some stopsHeader).

Definition legsCsv (legsAll : list LegRow.t) : string :=
  Csv.toCSV legKeys (legCells <$> legsAll) (Some legsHeader).

End Files.
End AppOrchestrator.

(** ** The audit mode of [main] in [analyze.ts] *)

(** The four counters of the audit loop. *)
Module Counters.
Record t : Type := mk {
  nullCount : nat;
  negCount : nat;
  over60 : nat;
  total : nat;
}.
End Counters.

Module AnalyzeMain.

(** One turn of
<<
  for (const l of legs) {
    total++;
    const v = l.leg_minutes;
    if (v == null) { nullCount++; continue; }
    if (v < 0) negCount++;
    if (v > 60) over60++;
  }
>> *)
Definition count_step (c : Counters.t) (l : LegOut.t) : Counters.t :=
  let total := (Counters.total c + 1)%nat in
  match LegOut.leg_minutes l with
  | None =>
      {| Counters.nullCount := Counters.nullCount c + 1;
         Counters.negCount := Counters.negCount c;
         Counters.over60 := Counters.over60 c;
         Counters.total := total |}
  | Some v =>
      {| Counters.nullCount := Counters.nullCount c;
         Counters.negCount :=
           if Js.lt (Fin v) Js.zero then Counters.negCount c + 1 else Counters.negCount c;
         Counters.over60 :=
           if Js.gt (Fin v) (Js.of_Z 60) then Counters.over60 c + 1 else Counters.over60 c;
         Counters.total := total |}
  end.

Definition counters (legs : list LegOut.t) : Counters.t :=
  foldl count_step
    {| Counters.nullCount := 0; Counters.negCount := 0; Counters.over60 := 0;
       Counters.total := 0 |} legs.

(** The loop [for (let i = 0; i < seq.length - 1; i++)] over the legs of one
    train, on the rest [seq] of the array, with the breaks counted so far. *)
Fixpoint breaksFrom (breaks : nat) (seq : list LegOut.t) : nat :=
  match seq with
  | a :: rest =>
      match rest with
      | b :: _ =>
          breaksFrom (if bool_decide (LegOut.to_station a ≠ LegOut.from_station b)
                      then breaks + 1 else breaks) rest
      | [] => breaks
      end
  | [] => breaks
  end.

(** The rows of [train_continuity.csv]: a train and its number of breaks. *)
Definition continuityRows (legs : list LegOut.t) : list (string * nat) :=
  (λ '(tid, seq), (tid, breaksFrom 0 seq)) <$> Analyze.groupLegsByTrain legs.

End AnalyzeMain.

(** ** The single-directory mode of [AnalyzeCommand.run]

    The command aggregates the segments with the statistics update written
    out in the loop, where [analyze.ts] calls [pushStat]. *)

Module AnalyzeCommand.

Definition agg_step (s : list (string * Stats.t) * list (string * (string * string)))
    (r : LegOut.t) : list (string * Stats.t) * list (string * (string * string)) :=
  let '(agg, keyInfo) := s in
  let key := String.append (LegOut.from_station r) (String.append "__" (LegOut.to_station r)) in
  let st := default {| Stats.count := 0; Stats.min := None; Stats.max := None;
                       Stats.sum := 0%Q |} (JsMap.get key agg) in
  let st :=
    match LegOut.leg_minutes r with
    | Some v =>
        {| Stats.count := Stats.count st + 1;
           Stats.sum := (Stats.sum st + v)%Q;
           Stats.min := Some (match Stats.min st with None => v | Some m => math_min m v end);
           Stats.max := Some (match Stats.max st with None => v | Some m => math_max m v end) |}
    | None => st
    end in
  (JsMap.set key st agg,
   if JsMap.has key keyInfo then keyInfo
   else JsMap.set key (LegOut.from_station r, LegOut.to_station r) keyInfo).

Definition segRowOf (keyInfo : list (string * (string * string)))
    (entry : string * Stats.t) : SegRow.t :=
  let '(key, st) := entry in
  let info := default ("", "") (JsMap.get key keyInfo) in
  let avg := if (0 <? Stats.count st)%nat
             then Some (Stats.sum st / Qnat (Stats.count st))%Q else None in
  {| SegRow.from_station := info.1;
     SegRow.to_station := info.2;
     SegRow.count := Stats.count st;
     SegRow.min := Stats.min st;
     SegRow.max := Stats.max st;
     SegRow.avg := toFixed2 <$> avg |}.

Definition segRows (legs : list LegOut.t) : list SegRow.t :=
  let '(agg, keyInfo) := foldl agg_step ([], []) legs in
  Arr.sort (λ a b, Fin (default 0 (SegRow.avg b) - default 0 (SegRow.avg a))%Q)
    (segRowOf keyInfo <$> agg).

End AnalyzeCommand.

(** ** Notions used to state the properties of the audit *)

(** A leg without a duration. *)
Definition isNullLeg (l : LegOut.t) : bool :=
  match LegOut.leg_minutes l with
  | Some _ => false
  | None => true
  end.

(** A leg whose duration is below zero. *)
Definition isNegativeLeg (l : LegOut.t) : bool :=
  match LegOut.leg_minutes l with
  | Some v => if Qlt_le_dec v 0 then true else false
  | None => false
  end.

(** A leg whose duration is above 60 minutes. *)
Definition isOver60Leg (l : LegOut.t) : bool :=
  match LegOut.leg_minutes l with
  | Some v => if Qlt_le_dec 60 v then true else false
  | None => false
  end.

(** The number of elements of [l] that pass the test [P]. *)
Definition countOf {A : Type} (P : A → bool) (l : list A) : nat :=
  length (filter (λ x, P x = true) l).

(** ** [loadTrains] and [main] of [through.ts]

    [main] is split in three: the options it reads from the arguments, the
    files it loads, and the report it makes of the loaded rows.  What it
    prints is given as the list of results or pairs it prints one line for,
    in that order. *)

(** The options of [main]. *)
Module Options.
Record t : Type := mk {
  aDir : string;
  bDir : string;
  preDir : string;
  postDir : string;
  via : string;
  dest : string;
  orderArg : string;
  isDesc : bool;
  limitNum : Z;
  maxWaitMin : option JsNum;
}.
End Options.

(** What [main] does in the end. *)
Inductive Report : Type :=
| ReportUsage
| ReportFailed
| ReportNothing
| ReportTransfers (pairs : list PairResult.t)
| ReportThrough (results : list ThroughResult.t).

(** [a ?? b] *)
Definition nullish {A : Type} (a b : option A) : option A :=
  match a with
  | Some _ => a
  | None => b
  end.

Module ThroughMain.
Section ThroughMain.
Context `{JsRuntime}.

(** The body of [for (const r of rows)] in [loadTrains]. *)
Definition loadTrains_step (map : gmap string TrainMeta) (r : AnyCsv) : gmap string TrainMeta :=
  if negb (truthyS (r !! "train_id")) then map
  else <[default "" (r !! "train_id") :=
           {| tm_dest := r !! "dest"; tm_ka_name := r !! "ka_name";
              tm_route_name := r !! "route_name" |}]> map.

(** [loadTrains], on the content of [trains.csv], or nothing when the file
    cannot be read. *)
Definition loadTrains (content : option string) : gmap string TrainMeta :=
  match content with
  | Some content => foldl loadTrains_step ∅ (Csv.readCsv content)
  | None => ∅
  end.

(** [loadStops], on the content of [stops.csv]; the call rejects when the
    file cannot be read. *)
Definition loadStops (content : option string) : option (list AnyCsv) :=
  Csv.readCsv <$> content.

(** [String(a ?? b ?? "")] and the like. *)
Definition stringArg (v : option ArgValue) (fallback : string) : string :=
  Cli.stringOf (default (VString fallback) v).

(** The options read at the start of [main], and the bound on the wait read
    in its transfer branch. *)
Definition options (args : gmap string ArgValue) : Options.t :=
  let limitArg := stringArg (nullish (args !! "limit") (args !! "top")) "" in
  let maxWaitArg := nullish (nullish (args !! "maxwait") (args !! "maxWait")) (args !! "wait") in
  let maxWaitMin :=
    match maxWaitArg with
    | Some (VString s) => if (0 <? String.length s)%nat then Some (Number s) else None
    | _ => None
    end in
  {| Options.aDir := stringArg (nullish (args !! "a") (args !! "A")) "";
     Options.bDir := stringArg (nullish (args !! "b") (args !! "B")) "";
     Options.preDir := stringArg (args !! "pre") "";
     Options.postDir := stringArg (args !! "post") "";
     Options.via :=
       stringArg (nullish (nullish (args !! "via") (args !! "from")) (args !! "start")) "";
     Options.dest := stringArg (nullish (args !! "to") (args !! "dest")) "";
     Options.orderArg :=
       toLowerCase (stringArg (nullish (args !! "order") (args !! "sort")) "depart");
     Options.isDesc :=
       Cli.truthyArg (if Cli.truthyArg (args !! "desc") then args !! "desc"
                      else args !! "descending");
     Options.limitNum :=
       match Number limitArg with
       | Fin n => if Js.gt (Fin n) Js.zero then Qfloor n else 0%Z
       | _ => 0%Z
       end;
     Options.maxWaitMin :=
       match maxWaitMin with
       | Some n => if Js.isFinite n then Some n else None
       | None => None
       end |}.

(** [(!aDir || !bDir) && (!preDir || !postDir)] *)
Definition needsUsage (o : Options.t) : bool :=
  (negb (truthyS (Some (Options.aDir o))) || negb (truthyS (Some (Options.bDir o))))
  && (negb (truthyS (Some (Options.preDir o))) || negb (truthyS (Some (Options.postDir o)))).

(** [preDir || aDir] and [postDir || bDir] *)
Definition srcPre (o : Options.t) : string :=
  if truthyS (Some (Options.preDir o)) then Options.preDir o else Options.aDir o.

Definition srcPost (o : Options.t) : string :=
  if truthyS (Some (Options.postDir o)) then Options.postDir o else Options.bDir o.

(** [isDesc ? -1 : 1] *)
Definition direction (o : Options.t) : JsNum :=
  Js.of_Z (if Options.isDesc o then -1 else 1).

(** [limitNum > 0 ? arr.slice(0, limitNum) : arr] *)
Definition limited {A : Type} (o : Options.t) (arr : list A) : list A :=
  if (Options.limitNum o >? 0)%Z then take (Z.to_nat (Options.limitNum o)) arr else arr.

(** The through trains found, in the order asked for. *)
Definition orderedThrough (o : Options.t) (stops : list AnyCsv)
    (trains : gmap string TrainMeta) : list ThroughResult.t :=
  let results := Through.findThrough stops trains (Options.via o) (Options.dest o) in
  if bool_decide (Options.orderArg o = "depart")
  then Arr.sort (λ a b, Js.mul (Through.byDepartVia a b) (direction o)) results
  else results.

(** The transfer pairs found, in the order asked for. *)
Definition orderedPairs (o : Options.t) (stopsPre stopsPost : list AnyCsv)
    (trains : gmap string TrainMeta) : list PairResult.t :=
  let pairs := Through.buildTransferPairs stopsPre stopsPost trains
                 (Options.via o) (Options.dest o) (Options.maxWaitMin o) in
  if bool_decide (Options.orderArg o = "depart")
  then Arr.sort (λ x y,
         Js.mul (Js.of_Z (localeCompare (PairResult.depart_via_time x)
                                        (PairResult.depart_via_time y)))
                (direction o)) pairs
  else if bool_decide (Options.orderArg o = "wait")
  then Arr.sort (λ x y,
         Js.mul (Js.sub (PairResult.wait_min x) (PairResult.wait_min y)) (direction o)) pairs
  else pairs.

(** [main] from [const stops = stopsPre.concat(stopsPost)] on. *)
Definition report (o : Options.t) (stopsPre stopsPost : list AnyCsv)
    (trainsPre trainsPost : gmap string TrainMeta) : Report :=
  let stops := stopsPre ++ stopsPost in
  let trains := trainsPost ∪ trainsPre in
  let results := orderedThrough o stops trains in
  if (length results =? 0)%nat then
    let pairs := orderedPairs o stopsPre stopsPost trains in
    if (length pairs =? 0)%nat then ReportNothing
    else ReportTransfers (limited o pairs)
  else ReportThrough (limited o results).

(** [main(argv)], [readFile dir name] being the content of the file [name]
    of the directory [dir], or nothing when it cannot be read. *)
Definition main (readFile : string → string → option string) (argv : list string) : Report :=
  let o := options (Cli.parseArgs argv) in
  if needsUsage o then ReportUsage else
  match loadStops (readFile (srcPre o) "stops.csv"),
        loadStops (readFile (srcPost o) "stops.csv") with
  | Some stopsPre, Some stopsPost =>
      report o stopsPre stopsPost
        (loadTrains (readFile (srcPre o) "trains.csv"))
        (loadTrains (readFile (srcPost o) "trains.csv"))
  | _, _ => ReportFailed
  end.

End ThroughMain.
End ThroughMain.

(** The metadata that [loadTrains] keeps of a row of [trains.csv]. *)
Definition metaOfRow (r : AnyCsv) : TrainMeta :=
  {| tm_dest := r !! "dest"; tm_ka_name := r !! "ka_name";
     tm_route_name := r !! "route_name" |}.

(** What a report of [main] says of the loaded rows: the through trains
    (the transfer pairs) it lists are results of [findThrough] (of
    [buildTransferPairs]) on these rows. *)
Definition reported `{JsRuntime} (o : Options.t) (stopsPre stopsPost : list AnyCsv)
    (trains : gmap string TrainMeta) (r : Report) : Prop :=
  let through :=
    Through.findThrough (stopsPre ++ stopsPost) trains (Options.via o) (Options.dest o) in
  let pairs :=
    Through.buildTransferPairs stopsPre stopsPost trains
      (Options.via o) (Options.dest o) (Options.maxWaitMin o) in
  match r with
  | ReportThrough rs =>
      rs ≠ [] ∧ (∀ r, r ∈ rs → r ∈ through) ∧
      ((Options.limitNum o <= 0)%Z → rs ≡ₚ through) ∧
      ((0 < Options.limitNum o)%Z →
       length rs = Nat.min (Z.to_nat (Options.limitNum o)) (length through))
  | ReportTransfers ps =>
      through = [] ∧ ps ≠ [] ∧ (∀ p, p ∈ ps → p ∈ pairs) ∧
      ((Options.limitNum o <= 0)%Z → ps ≡ₚ pairs) ∧
      ((0 < Options.limitNum o)%Z →
       length ps = Nat.min (Z.to_nat (Options.limitNum o)) (length pairs))
  | ReportNothing => through = [] ∧ pairs = []
  | ReportUsage | ReportFailed => False
  end.

(** ** Notions used to state the properties of the compare mode *)

(** The mean of the samples [xs], rounded to two decimals; null when there
    is no sample. *)
Definition roundedMean (xs : list Q) : option Q :=
  match xs with
  | [] => None
  | _ :: _ => Some (toFixed2 (foldl Qplus 0 xs / Qnat (length xs))%Q)
  end.

(** [entry] is the average of the samples [xs] as a series holds it: null
    when there is no sample, and a number otherwise, which for whole minutes
    is their mean rounded to two decimals. *)
Definition averageOf (xs : list Q) (entry : option Q) : Prop :=
  (xs = [] → entry = None) ∧
  (xs ≠ [] → ∃ q, entry = Some q ∧ (wholeMinutes xs → roundedTo2 (meanOfSamples xs) q)).

(** The legs that the compare mode keeps of one data set for the
    destination [dest]. *)
Definition segmentLegs (startStation : string) (legs : list LegOut.t)
    (trains : gmap string TrainMeta) (dest : string) : list LegOut.t :=
  default [] (JsMap.get dest
                (Analyze.extractSegments startStation (Analyze.groupLegsByTrain legs) trains)).

(** ** More example data *)

Module Samples.

(** The text [6 "Serpong" line], with its two double quotes. *)
Definition quoted : string :=
  String.append "6 " (String Csv.dquote (String.append "Serpong" (String Csv.dquote " line"))).

(** Two rows whose cells hold a comma, double quotes, a number and a null. *)
Definition csv_rows : list (gmap string PrimitiveCsv) :=
  [list_to_map [("station", PString "Tanah Abang, Jakarta"); ("note", PString quoted);
                ("minute", PNumber (Fin 440))];
   list_to_map [("station", PString "Palmerah"); ("minute", PNull)]].

Definition csv_headers : list string := ["station"; "note"; "minute"].

(** A file of two stops with a blank line and a short line. *)
Definition stops_text : string :=
  String.append "train_id,station_name"
    (String Csv.lf (String Csv.lf (String.append "101,Palmerah" (String Csv.lf "102")))).

(** A file whose first header is [__proto__], and a row whose only cell is
    a note. *)
Definition proto_text : string :=
  String.append "__proto__,a" (String Csv.lf "x,1").

Definition note_row : gmap string PrimitiveCsv := {[ "note" := PString "late" ]}.

Definition argv : list string :=
  ["bun"; "through.ts"; "--via=Palmerah"; "--to=Rangkasbitung"; "--order=wait"; "--desc"].

(** Two failures, then a body. *)
Definition flaky (k : nat) : Outcome nat :=
  if (k <? 2)%nat then Thrown "fetch failed" else Returned 7%nat.

(** Train 1234 as the schedule lists it, and the stops the API gives for it. *)
Definition train : TrainSummaryRow.t :=
  {| TrainSummaryRow.query_station := "THB";
     TrainSummaryRow.time_from := "00:00";
     TrainSummaryRow.time_to := "23:00";
     TrainSummaryRow.train_id := "1234";
     TrainSummaryRow.ka_name := "COMMUTER LINE";
     TrainSummaryRow.route_name := "RANGKASBITUNG-TANAHABANG";
     TrainSummaryRow.dest := "TANAHABANG";
     TrainSummaryRow.color := "#16812B";
     TrainSummaryRow.time_est := "07:20:30";
     TrainSummaryRow.dest_time := "07:40:00" |}.

Definition api_stops : list TrainStop.t :=
  [{| TrainStop.station_name := "Palmerah"; TrainStop.time_est := "07:00:00";
      TrainStop.transit_station := TransitNullish; TrainStop.transit := TransitNone |};
   {| TrainStop.station_name := "Tanah Abang"; TrainStop.time_est := "07:20:30";
      TrainStop.transit_station := TransitOne;
      TrainStop.transit := TransitArray ["#DD0067"; "#0084D8"] |};
   {| TrainStop.station_name := "Sudirman"; TrainStop.time_est := "07:40:00";
      TrainStop.transit_station := TransitBool false; TrainStop.transit := TransitString "" |}].

(** Two trains from A: one to C by way of B, one to B only. *)
Definition compare_legs : list LegOut.t :=
  [Examples.leg "1" 1 "A" "B" (Some 4%Q); Examples.leg "1" 2 "B" "C" (Some 6%Q);
   Examples.leg "2" 1 "A" "B" (Some 5%Q)].

End Samples.

(** ** [di.ts]: the container *)

(** A token is a symbol: only its identity and its description are used.  The
    container holds two maps keyed by tokens, the factories and the
    singletons.  A factory is a closure that receives the container and uses
    it to resolve other tokens; resolving may fill the singletons and may
    throw.  So a factory is given [resolve] of the container it is called
    with, and maps the singletons before the call to its outcome and the
    singletons after it ([Run]); what was stored before a throw stays
    stored.  [resolve] calls a factory that may call [resolve] again: the
    depth of these calls is bounded by [fuel], and a chain of factories
    deeper than that ends as the overflow of the call stack does. *)
Module Container.
Section Container.

Context {Token V : Type} `{EqDecision Token}.
Variable description : Token → string.

Definition Singletons : Type := Token → option V.
Definition Run (A : Type) : Type := Singletons → Outcome A * Singletons.
Definition Factory : Type := (Token → Run V) → Run V.
Definition Factories : Type := Token → option Factory.

Definition ret {A : Type} (a : A) : Run A := λ s, (Returned a, s).
Definition throw {A : Type} (message : string) : Run A := λ s, (Thrown message, s).
Definition bind {A B : Type} (m : Run A) (k : A → Run B) : Run B :=
  λ s, match m s with
       | (Returned a, s') => k a s'
       | (Thrown e, s') => (Thrown e, s')
       end.

(** [Map.set] on a map keyed by tokens. *)
Definition set {X : Type} (m : Token → option X) (token : Token) (x : X)
  : Token → option X :=
  λ t, if decide (t = token) then Some x else m t.

Definition empty {X : Type} : Token → option X := λ _, None.

Definition registerFactory (factories : Factories) (token : Token) (factory : Factory)
  : Factories :=
  set factories token factory.

(** The closure [lazy] of [registerSingleton]. *)
Definition lazy (token : Token) (factory : Factory) : Factory :=
  λ c singletons,
    match singletons token with
    | Some v => (Returned v, singletons)
    | None =>
        match factory c singletons with
        | (Returned v, singletons') => (Returned v, set singletons' token v)
        | (Thrown e, singletons') => (Thrown e, singletons')
        end
    end.

Definition registerSingleton (factories : Factories) (token : Token) (factory : Factory)
  : Factories :=
  set factories token (lazy token factory).

Fixpoint resolve (fuel : nat) (factories : Factories) (token : Token) : Run V :=
  match factories token with
  | None => throw ("No provider for token: " ++ description token)
  | Some f =>
      match fuel with
      | O => throw "Maximum call stack size exceeded"
      | S fuel' => f (resolve fuel' factories)
      end
  end.

End Container.
End Container.

Notation "'let!' x ':=' m 'in' k" := (Container.bind m (λ x, k))
  (at level 10, x name, m at level 100, k at level 200, only parsing).

(** ** [container.ts] and [index.ts]: the wiring and the entry point *)

Module TOKENS.
Inductive t : Type :=
| Config | Logger | Time | Http | Csv | Api | App | Analyze | Through | Main.

#[global] Instance eq_dec : EqDecision t.
Proof. solve_decision. Defined.

Definition description (token : t) : string :=
  match token with
  | Config => "ConfigService"
  | Logger => "Logger"
  | Time => "TimeService"
  | Http => "HttpClient"
  | Csv => "CsvService"
  | Api => "KrlApiService"
  | App => "AppOrchestrator"
  | Analyze => "AnalyzeCommand"
  | Through => "ThroughCommand"
  | Main => "MainRouter"
  end.
End TOKENS.

(** The objects the factories build, each with the arguments of its
    constructor. *)
Inductive Service : Type :=
| NewEnvCliConfigService (argv : list string) (env : gmap string string)
| NewConsoleLogger
| NewDefaultTimeService
| NewSimpleCsvService
| NewFetchHttpClient (token : string)
| NewDefaultKrlApiService (base : string) (http : Service)
| NewAppOrchestrator (api csv time logger : Service)
| NewAnalyzeCommand (csv logger : Service)
| NewThroughCommand (logger : Service)
| NewMainRouter (app analyze through config logger : Service).

(** What the router starts. *)
Inductive Command : Type :=
| RunAnalyze (argv : list string)
| RunThrough (argv : list string)
| RunApp (stationId timeFrom timeTo outDir : string).

(** How [index.ts] goes on: a command is started, or the error is logged and
    the process exits with code 1, or the handler itself throws. *)
Inductive Started : Type :=
| Start (command : Command)
| LogErrorExit1 (message : string)
| Uncaught (message : string).

Module Wiring.

Definition Run : Type → Type := @Container.Run TOKENS.t Service.
Definition Factories : Type := @Container.Factories TOKENS.t Service.

(** [service.getConfig()] on a resolved config service. *)
Definition getConfig (service : Service) : Run AppConfig.t :=
  match service with
  | NewEnvCliConfigService argv env =>
      match EnvCliConfigService.getConfig argv env with
      | Returned cfg => Container.ret cfg
      | Thrown e => Container.throw e
      end
  | _ => Container.throw "getConfig is not a function"
  end.

Definition buildContainer (argv : list string) (env : gmap string string) : Factories :=
  let c := Container.empty in
  let c := Container.registerSingleton c TOKENS.Config
             (λ _, Container.ret (NewEnvCliConfigService argv env)) in
  let c := Container.registerSingleton c TOKENS.Logger
             (λ _, Container.ret NewConsoleLogger) in
  let c := Container.registerSingleton c TOKENS.Time
             (λ _, Container.ret NewDefaultTimeService) in
  let c := Container.registerSingleton c TOKENS.Csv
             (λ _, Container.ret NewSimpleCsvService) in
  let c := Container.registerSingleton c TOKENS.Http
             (λ ctn,
                let! config := ctn TOKENS.Config in
                let! cfg := getConfig config in
                Container.ret (NewFetchHttpClient (AppConfig.token cfg))) in
  let c := Container.registerSingleton c TOKENS.Api
             (λ ctn,
                let! config := ctn TOKENS.Config in
                let! cfg := getConfig config in
                let! http := ctn TOKENS.Http in
                Container.ret (NewDefaultKrlApiService (AppConfig.apiBase cfg) http)) in
  let c := Container.registerSingleton c TOKENS.App
             (λ ctn,
                let! api := ctn TOKENS.Api in
                let! csv := ctn TOKENS.Csv in
                let! time := ctn TOKENS.Time in
                let! logger := ctn TOKENS.Logger in
                Container.ret (NewAppOrchestrator api csv time logger)) in
  let c := Container.registerSingleton c TOKENS.Analyze
             (λ ctn,
                let! csv := ctn TOKENS.Csv in
                let! logger := ctn TOKENS.Logger in
                Container.ret (NewAnalyzeCommand csv logger)) in
  let c := Container.registerSingleton c TOKENS.Through
             (λ ctn,
                let! logger := ctn TOKENS.Logger in
                Container.ret (NewThroughCommand logger)) in
  let c := Container.registerSingleton c TOKENS.Main
             (λ ctn,
                let! app := ctn TOKENS.App in
                let! analyze := ctn TOKENS.Analyze in
                let! through := ctn TOKENS.Through in
                let! config := ctn TOKENS.Config in
                let! logger := ctn TOKENS.Logger in
                Container.ret (NewMainRouter app analyze through config logger)) in
  c.

(** [MainRouter.run], up to the command it starts. *)
Definition run (router : Service) (argv : list string) : Run Command :=
  match router with
  | NewMainRouter app analyze through config logger =>
      let args := Cli.parseArgs argv in
      if Cli.truthyArg (args !! "analyze") then Container.ret (RunAnalyze argv)
      else if Cli.truthyArg (args !! "through") then Container.ret (RunThrough argv)
      else
        let! cfg := getConfig config in
        Container.ret (RunApp (AppConfig.stationId cfg) (AppConfig.timeFrom cfg)
                              (AppConfig.timeTo cfg) (AppConfig.outDir cfg))
  | _ => Container.throw "run is not a function"
  end.

(** [index.ts], with [process.argv] and [process.env] given. *)
Definition index (fuel : nat) (argv : list string) (env : gmap string string) : Started :=
  let container := buildContainer argv env in
  let resolve := Container.resolve TOKENS.description fuel container in
  match (let! router := resolve TOKENS.Main in run router argv) Container.empty with
  | (Returned command, _) => Start command
  | (Thrown message, singletons) =>
      match resolve TOKENS.Logger singletons with
      | (Returned _, _) => LogErrorExit1 message
      | (Thrown e, _) => Uncaught e
      end
  end.

End Wiring.

(** A container with one singleton. *)
Definition logger_only : @Container.Factories TOKENS.t Service :=
  Container.registerSingleton Container.empty TOKENS.Logger
    (λ _, Container.ret NewConsoleLogger).
(** * Properties *)

(** ** Numbers *)

Arguments Js.lt : simpl never.
Arguments Js.gt : simpl never.

Lemma qneg_true (q : Q) : Js.qneg q = true ↔ (q < 0)%Q.
Proof.
  unfold Js.qneg. rewrite negb_true_iff, <- not_true_iff_false, Qle_bool_iff.
  split; [apply Qnot_le_lt | apply Qlt_not_le].
Qed.

Lemma qneg_false (q : Q) : Js.qneg q = false ↔ (0 <= q)%Q.
Proof. unfold Js.qneg. by rewrite negb_false_iff, Qle_bool_iff. Qed.

Lemma lt_Fin (p q : Q) : Js.lt (Fin p) (Fin q) = true ↔ (p < q)%Q.
Proof.
  unfold Js.lt. rewrite negb_true_iff, <- not_true_iff_false, Qle_bool_iff.
  split; [apply Qnot_le_lt | apply Qlt_not_le].
Qed.

Lemma lt_Fin_false (p q : Q) : Js.lt (Fin p) (Fin q) = false ↔ (q <= p)%Q.
Proof. unfold Js.lt. by rewrite negb_false_iff, Qle_bool_iff. Qed.

Lemma in_day_Fin (n : JsNum) :
  Js.in_day n = true ↔ ∃ q, n = Fin q ∧ (0 <= q)%Q ∧ (q < 1440)%Q.
Proof.
  destruct n as [| s | q]; simpl.
  - split; [done | by intros (? & ? & _)].
  - split; [done | by intros (? & ? & _)].
  - rewrite andb_true_iff, Qle_bool_iff, negb_true_iff,
      <- not_true_iff_false, Qle_bool_iff. split.
    + intros [H0 H1]. exists q. split; [done |]. split; [done |].
      by apply Qnot_le_lt.
    + intros (q' & [= <-] & H0 & H1). split; [done |]. by apply Qlt_not_le.
Qed.

(** ** Arrays: [sort] rearranges, and orders under a faithful comparator *)

Section ArrFacts.
Context {A : Type}.
Implicit Types (l : list A) (cmp : A → A → JsNum).

Lemma sort_insert_perm cmp x l : Arr.sort_insert cmp x l ≡ₚ x :: l.
Proof.
  induction l as [| y l IH]; simpl; [reflexivity |].
  destruct (Js.gt (cmp x y) Js.zero); [| reflexivity].
  rewrite IH. apply perm_swap.
Qed.

Lemma sort_perm cmp l : Arr.sort cmp l ≡ₚ l.
Proof.
  induction l as [| x l IH]; simpl; [reflexivity |].
  rewrite sort_insert_perm. by f_equiv.
Qed.

Lemma elem_of_sort cmp l x : x ∈ Arr.sort cmp l ↔ x ∈ l.
Proof. by rewrite sort_perm. Qed.

Lemma length_sort cmp l : length (Arr.sort cmp l) = length l.
Proof. by rewrite sort_perm. Qed.

Lemma sort_insert_sorted (R : A → A → Prop) cmp x l :
  Transitive R →
  (∀ y, y ∈ l → Js.gt (cmp x y) Js.zero = true → R y x) →
  (∀ y, y ∈ l → Js.gt (cmp x y) Js.zero = false → R x y) →
  StronglySorted R l → StronglySorted R (Arr.sort_insert cmp x l).
Proof.
  intros HR. induction l as [| y l IH]; intros Hgt Hle Hs; simpl.
  - repeat constructor.
  - apply StronglySorted_inv in Hs as [Hs Hy].
    destruct (Js.gt (cmp x y) Js.zero) eqn:E.
    + constructor.
      * apply IH; [| | done]; intros; [apply Hgt | apply Hle]; set_solver.
      * apply Forall_forall. intros z Hz.
        rewrite (sort_insert_perm cmp x l) in Hz.
        apply elem_of_cons in Hz as [-> | Hz].
        -- apply Hgt; [set_solver | done].
        -- rewrite Forall_forall in Hy. by apply Hy.
    + assert (R x y) as Hxy by (apply Hle; [set_solver | done]).
      constructor; [by constructor |].
      constructor; [done |].
      rewrite Forall_forall in Hy |- *. intros z Hz.
      transitivity y; [done | by apply Hy].
Qed.

Lemma sort_sorted (R : A → A → Prop) cmp l :
  Transitive R →
  (∀ x y, x ∈ l → y ∈ l → Js.gt (cmp x y) Js.zero = true → R y x) →
  (∀ x y, x ∈ l → y ∈ l → Js.gt (cmp x y) Js.zero = false → R x y) →
  StronglySorted R (Arr.sort cmp l).
Proof.
  intros HR. induction l as [| x l IH]; intros Hgt Hle; simpl.
  - constructor.
  - apply sort_insert_sorted; [done | | |].
    + intros y Hy. apply elem_of_sort in Hy. apply Hgt; set_solver.
    + intros y Hy. apply elem_of_sort in Hy. apply Hle; set_solver.
    + apply IH; intros; [apply Hgt | apply Hle]; set_solver.
Qed.

Lemma StronglySorted_lookup (R : A → A → Prop) l i j x y :
  StronglySorted R l → (i < j)%nat → l !! i = Some x → l !! j = Some y → R x y.
Proof.
  intros Hs. revert i j. induction Hs as [| z l Hs IH Hz]; intros i j Hij Hi Hj.
  - done.
  - destruct j as [| j]; [lia |]. simpl in Hj.
    destruct i as [| i]; simpl in Hi.
    + injection Hi as <-. rewrite Forall_forall in Hz.
      apply Hz, list_elem_of_lookup. eauto.
    + apply (IH i j); [lia | done | done].
Qed.

Lemma firstAt_unique P l i j : firstAt P l i → firstAt P l j → i = j.
Proof.
  intros [(x & Hx & Px) Hi] [(y & Hy & Py) Hj].
  destruct (Nat.lt_trichotomy i j) as [Hlt | [-> | Hlt]]; [| done |].
  - specialize (Hj i x Hlt Hx). congruence.
  - specialize (Hi j y Hlt Hy). congruence.
Qed.

Lemma findIndex_from_spec P l (k : Z) :
  (Arr.findIndex_from P l k = -1 ∧ (∀ x, x ∈ l → P x = false) ∨
   ∃ i, Arr.findIndex_from P l k = k + Z.of_nat i ∧ firstAt P l i)%Z ∨
  (k < 0)%Z.
Proof.
  destruct (decide (k < 0)%Z) as [| Hk]; [by right | left].
  revert k Hk. induction l as [| x l IH]; intros k Hk; simpl.
  - left. split; [done |]. intros x Hx. by apply elem_of_nil in Hx.
  - destruct (P x) eqn:Px.
    + right. exists 0%nat. split; [lia |]. split; [by exists x |].
      intros j y Hj. lia.
    + destruct (IH (k + 1)%Z ltac:(lia)) as [[E Hall] | (i & E & [(y & Hy & Py) Hi])].
      * left. split; [done |]. intros y Hy.
        apply elem_of_cons in Hy as [-> | Hy]; [done | by apply Hall].
      * right. exists (S i). split; [lia |]. split; [by exists y |].
        intros j z Hj Hz. destruct j as [| j]; simpl in Hz.
        -- by injection Hz as <-.
        -- apply (Hi j); [lia | done].
Qed.

Lemma findIndex_spec P l :
  (Arr.findIndex P l = (-1)%Z ∧ ∀ x, x ∈ l → P x = false) ∨
  ∃ i, Arr.findIndex P l = Z.of_nat i ∧ firstAt P l i.
Proof.
  unfold Arr.findIndex.
  destruct (findIndex_from_spec P l 0) as [[? | (i & E & Hi)] | ?]; [by left | | lia].
  right. exists i. split; [lia | done].
Qed.

Lemma firstAt_findIndex P l i : firstAt P l i → Arr.findIndex P l = Z.of_nat i.
Proof.
  intros Hi. destruct (findIndex_spec P l) as [[_ Hall] | (j & E & Hj)].
  - destruct Hi as [(x & Hx & Px) _].
    rewrite Hall in Px; [done |]. apply list_elem_of_lookup. eauto.
  - by rewrite (firstAt_unique _ _ _ _ Hi Hj).
Qed.

Lemma at_of_nat l (i : nat) : Arr.at_ l (Z.of_nat i) = l !! i.
Proof.
  unfold Arr.at_. destruct (Z.ltb_spec (Z.of_nat i) 0); [lia |].
  by rewrite Nat2Z.id.
Qed.

End ArrFacts.

(** ** Insertion-ordered maps *)

Section JsMapFacts.
Context {V : Type}.
Implicit Types (m : list (string * V)) (k : string) (v : V).

Lemma get_set_eq k v m : JsMap.get k (JsMap.set k v m) = Some v.
Proof.
  induction m as [| [k' v'] m IH]; simpl.
  - by rewrite String.eqb_refl.
  - destruct (String.eqb k' k) eqn:E; simpl; rewrite E; done.
Qed.

Lemma get_set_ne k k' v m : k ≠ k' → JsMap.get k' (JsMap.set k v m) = JsMap.get k' m.
Proof.
  intros Hne. induction m as [| [k1 v1] m IH]; simpl.
  - by apply String.eqb_neq in Hne as ->.
  - destruct (String.eqb k1 k) eqn:E; simpl.
    + apply String.eqb_eq in E as ->.
      by apply String.eqb_neq in Hne as ->.
    + by rewrite IH.
Qed.

Lemma set_set k v v' m : JsMap.set k v (JsMap.set k v' m) = JsMap.set k v m.
Proof.
  induction m as [| [k1 v1] m IH]; simpl.
  - by rewrite String.eqb_refl.
  - destruct (String.eqb k1 k) eqn:E; simpl; rewrite E; [done | by rewrite IH].
Qed.

Lemma get_None k m : JsMap.get k m = None ↔ k ∉ m.*1.
Proof.
  induction m as [| [k1 v1] m IH]; simpl.
  - split; [intros _; apply not_elem_of_nil | done].
  - rewrite not_elem_of_cons. destruct (String.eqb_spec k1 k) as [-> | Hne].
    + split; [done | by intros [? _]].
    + rewrite IH. split; [by intros ?; split | by intros [_ ?]].
Qed.

Lemma get_Some_elem_of k v m : JsMap.get k m = Some v → (k, v) ∈ m.
Proof.
  induction m as [| [k1 v1] m IH]; simpl; [done |].
  destruct (String.eqb_spec k1 k) as [-> | Hne].
  - intros [= ->]. apply list_elem_of_here.
  - intros Hg. apply list_elem_of_further. by apply IH.
Qed.

Lemma elem_of_get k v m : NoDup m.*1 → (k, v) ∈ m → JsMap.get k m = Some v.
Proof.
  induction m as [| [k1 v1] m IH]; simpl; intros Hnd Hin.
  - by apply elem_of_nil in Hin.
  - apply NoDup_cons in Hnd as [Hk1 Hnd].
    apply elem_of_cons in Hin as [[= <- <-] | Hin].
    + by rewrite String.eqb_refl.
    + destruct (String.eqb_spec k1 k) as [-> | Hne]; [| by apply IH].
      exfalso. apply Hk1. apply list_elem_of_fmap. by exists (k, v).
Qed.

Lemma set_keys k v m :
  (JsMap.set k v m).*1 = if JsMap.has k m then m.*1 else m.*1 ++ [k].
Proof.
  unfold JsMap.has. induction m as [| [k1 v1] m IH]; [done |].
  cbn [JsMap.set JsMap.get]. destruct (String.eqb k1 k) eqn:E; [done |].
  rewrite !fmap_cons, IH. by destruct (JsMap.get k m).
Qed.

Lemma set_NoDup k v m : NoDup m.*1 → NoDup (JsMap.set k v m).*1.
Proof.
  intros Hnd. rewrite set_keys. unfold JsMap.has.
  destruct (JsMap.get k m) eqn:E; [done |].
  apply NoDup_app. split; [done |]. split; [| apply NoDup_singleton].
  intros x Hx ->%list_elem_of_singleton. by apply get_None in E.
Qed.

End JsMapFacts.

(** A map filled by a loop of the form
    [m.set(key(x), g(m.get(key(x)) ?? init, x))] holds, under each key, the
    fold of [g] over the elements with that key, in their order. *)
Section Grouping.
Context {X V : Type} (key : X → string) (g : V → X → V) (init : V).
Context (step : list (string * V) → X → list (string * V)).
Hypothesis step_eq : ∀ m x,
  step m x = JsMap.set (key x) (g (default init (JsMap.get (key x) m)) x) m.

Lemma grouping_get (xs : list X) (k : string) :
  JsMap.get k (foldl step [] xs) =
  match filter (λ x, key x = k) xs with
  | [] => None
  | ys => Some (foldl g init ys)
  end.
Proof.
  induction xs as [| x xs IH] using rev_ind; [done |].
  rewrite foldl_app, filter_app. cbn [foldl].
  rewrite step_eq, filter_cons, filter_nil.
  destruct (decide (key x = k)) as [Hk | Hk].
  - subst k. rewrite get_set_eq, IH.
    destruct (filter (λ x0, key x0 = key x) xs) as [| y ys]; [done |].
    change ((y :: ys) ++ [x]) with (y :: (ys ++ [x])).
    cbn [default foldl]. by rewrite foldl_app.
  - by rewrite app_nil_r, get_set_ne.
Qed.

Lemma grouping_NoDup (xs : list X) : NoDup (foldl step [] xs).*1.
Proof.
  induction xs as [| x xs IH] using rev_ind; [apply NoDup_nil_2 |].
  rewrite foldl_app. simpl. rewrite step_eq. by apply set_NoDup.
Qed.

Lemma grouping_elem_of (xs : list X) (k : string) (v : V) :
  (k, v) ∈ foldl step [] xs ↔
  filter (λ x, key x = k) xs ≠ [] ∧ v = foldl g init (filter (λ x, key x = k) xs).
Proof.
  split.
  - intros Hin. apply elem_of_get in Hin; [| apply grouping_NoDup].
    rewrite grouping_get in Hin.
    destruct (filter (λ x, key x = k) xs); [done |]. by injection Hin as <-.
  - intros [Hne ->]. apply get_Some_elem_of. rewrite grouping_get.
    by destruct (filter (λ x, key x = k) xs).
Qed.

End Grouping.

Lemma foldl_snoc_id {X : Type} (ys acc : list X) :
  foldl (λ arr r, arr ++ [r]) acc ys = acc ++ ys.
Proof.
  revert acc. induction ys as [| y ys IH]; intros acc; simpl.
  - by rewrite app_nil_r.
  - by rewrite IH, <- app_assoc.
Qed.

Lemma byTrain_step_eq (m : list (string * list AnyCsv)) (r : AnyCsv) :
  byTrain_step m r =
  JsMap.set (trainIdOf r) (default [] (JsMap.get (trainIdOf r) m) ++ [r]) m.
Proof.
  unfold byTrain_step, trainIdOf, JsMap.has.
  generalize (default "" (r !! "train_id")). intros tid.
  destruct (JsMap.get tid m) eqn:E; [by rewrite E |].
  by rewrite get_set_eq, set_set.
Qed.

Lemma groupByTrain_elem_of (stops : list AnyCsv) (tid : string) (arr : list AnyCsv) :
  (tid, arr) ∈ groupByTrain stops ↔
  arr ≠ [] ∧ arr = filter (λ r, trainIdOf r = tid) stops.
Proof.
  unfold groupByTrain.
  rewrite (grouping_elem_of trainIdOf (λ arr r, arr ++ [r]) [] _ byTrain_step_eq).
  rewrite foldl_snoc_id. simpl. split; intros [? ->]; done.
Qed.

Lemma groupByTrain_NoDup (stops : list AnyCsv) : NoDup (groupByTrain stops).*1.
Proof.
  apply (grouping_NoDup trainIdOf (λ arr r, arr ++ [r]) [] _ byTrain_step_eq).
Qed.

(** ** [findThrough] *)

Section ThroughFacts.
Context `{JsRuntime}.

(** The stops of a vehicle are its rows, rearranged ... *)
Lemma stopsOfTrain_perm (tid : string) (stops : list AnyCsv) :
  stopsOfTrain tid stops ≡ₚ filter (λ r, trainIdOf r = tid) stops.
Proof. apply sort_perm. Qed.


(** When the loop body of [findThrough] pushes a result, and what it pushes. *)
Lemma throughOfTrain_Some trains via dest tid arr0 r :
  Through.throughOfTrain trains via dest (tid, arr0) = Some r ↔
  ∃ iVia iHub iDest,
    let arr := Arr.sort Through.byStopIndex arr0 in
    firstAt (Through.isStation via) arr iVia ∧
    firstAt (Through.isStation "tanah abang") arr iHub ∧
    firstAt (Through.isStation dest) arr iDest ∧
    (iVia < iHub)%nat ∧ (iHub < iDest)%nat ∧
    r = {| ThroughResult.train_id := tid;
           ThroughResult.ka_name := tm_ka_name (default no_meta (trains !! tid));
           ThroughResult.route_name := tm_route_name (default no_meta (trains !! tid));
           ThroughResult.depart_via_time := arr !! iVia ≫= (λ s, s !! "time_est");
           ThroughResult.via_index :=
             Js.or (NumberU (arr !! iVia ≫= (λ s, s !! "stop_index"))) (Js.of_nat iVia);
           ThroughResult.continues_to_dest := true |}.
Proof.
  unfold Through.throughOfTrain. cbv zeta.
  set (arr := Arr.sort Through.byStopIndex arr0).
  split.
  - destruct (findIndex_spec (Through.isStation via) arr) as [[-> _] | (iv & -> & Hv)];
      [done |].
    destruct (Z.ltb_spec (Z.of_nat iv) 0); [lia |].
    destruct (findIndex_spec (Through.isStation "tanah abang") arr)
      as [[-> _] | (ih & -> & Hh)]; [done |].
    destruct (Z.ltb_spec (Z.of_nat ih) 0); [lia |].
    destruct (Z.ltb_spec (Z.of_nat iv) (Z.of_nat ih)); [| done]. cbn [negb].
    destruct (findIndex_spec (Through.isStation dest) arr) as [[-> _] | (id & -> & Hd)].
    { destruct (Z.gtb_spec (-1) (Z.of_nat ih)); [lia | done]. }
    destruct (Z.gtb_spec (Z.of_nat id) (Z.of_nat ih)); [| done]. cbn [negb].
    intros [= <-]. exists iv, ih, id. rewrite !at_of_nat.
    split; [exact Hv |]. split; [exact Hh |]. split; [exact Hd |].
    split; [lia |]. split; [lia |]. reflexivity.
  - intros (iv & ih & id & Hv & Hh & Hd & Hvh & Hhd & ->).
    rewrite (firstAt_findIndex _ _ _ Hv), (firstAt_findIndex _ _ _ Hh),
      (firstAt_findIndex _ _ _ Hd).
    destruct (Z.ltb_spec (Z.of_nat iv) 0); [lia |].
    destruct (Z.ltb_spec (Z.of_nat ih) 0); [lia |].
    destruct (Z.ltb_spec (Z.of_nat iv) (Z.of_nat ih)); [| lia]. cbn [negb].
    destruct (Z.gtb_spec (Z.of_nat id) (Z.of_nat ih)); [| lia]. cbn [negb].
    by rewrite !at_of_nat.
Qed.

Lemma throughOfTrain_train_id trains via dest tid arr0 r :
  Through.throughOfTrain trains via dest (tid, arr0) = Some r →
  ThroughResult.train_id r = tid.
Proof. intros (? & ? & ? & _ & _ & _ & _ & _ & ->)%throughOfTrain_Some. done. Qed.

(** The results of [findThrough] are the results of its loop body on the
    groups, one group per train. *)
Lemma findThrough_elem_of stops trains via dest r :
  r ∈ Through.findThrough stops trains via dest ↔
  filter (λ s, trainIdOf s = ThroughResult.train_id r) stops ≠ [] ∧
  Through.throughOfTrain trains via dest
    (ThroughResult.train_id r,
     filter (λ s, trainIdOf s = ThroughResult.train_id r) stops) = Some r.
Proof.
  unfold Through.findThrough. rewrite elem_of_sort, list_elem_of_omap. split.
  - intros ([tid arr0] & Hin & Hr).
    rewrite (throughOfTrain_train_id _ _ _ _ _ _ Hr).
    apply groupByTrain_elem_of in Hin as [Hne ->]. done.
  - intros [Hne Hr]. eexists. split; [| exact Hr].
    by apply groupByTrain_elem_of.
Qed.

Lemma omap_keys_NoDup {X Y : Type} (f : string * X → option Y) (k : Y → string)
    (m : list (string * X)) :
  (∀ e y, f e = Some y → k y = e.1) →
  NoDup m.*1 → NoDup (k <$> omap f m).
Proof.
  intros Hk. induction m as [| e m IH]; [intros _; apply NoDup_nil_2 |].
  rewrite fmap_cons, NoDup_cons. intros [Hnotin Hnd]. cbn [omap list_omap].
  destruct (f e) as [y |] eqn:E; [| by apply IH].
  rewrite fmap_cons, NoDup_cons. split; [| by apply IH].
  rewrite (Hk _ _ E). intros (y' & Hy' & (e' & He' & E')%list_elem_of_omap)%list_elem_of_fmap.
  apply Hnotin. rewrite Hy', (Hk _ _ E'). apply list_elem_of_fmap. by exists e'.
Qed.

Lemma findThrough_NoDup stops trains via dest :
  NoDup (ThroughResult.train_id <$> Through.findThrough stops trains via dest).
Proof.
  unfold Through.findThrough. rewrite sort_perm.
  apply omap_keys_NoDup; [| apply groupByTrain_NoDup].
  intros [tid arr0] r Hr. by apply throughOfTrain_train_id in Hr.
Qed.



(** C5, as the code has it.  Every result of [findThrough] records the
    departure time and the sequence index of the vehicle's stop at the via
    station, the first stop so named among the vehicle's sorted stops; the
    index falls back to the position of that stop when its [stop_index] is
    zero or not a number.  No vehicle has two results. *)
Theorem findThrough_records_via (stops : list AnyCsv) (trains : gmap string TrainMeta)
    (via dest : string) (r : ThroughResult.t) :
  r ∈ Through.findThrough stops trains via dest →
  recordsStopAt via stops r ∧
  NoDup (ThroughResult.train_id <$> Through.findThrough stops trains via dest).
Proof.
  intros [_ Hr]%findThrough_elem_of. split; [| apply findThrough_NoDup].
  apply throughOfTrain_Some in Hr as (iv & ih & id & Hv & _ & _ & _ & _ & Hr).
  destruct Hv as [(s & Hs & Ps) Hfirst].
  exists iv, s. split; [by split; [exists s |] |]. split; [done |].
  rewrite Hr. cbn. unfold stopsOfTrain in Hs. rewrite Hs. done.
Qed.

End ThroughFacts.

(** ** [buildTransferPairs] *)

Lemma Qmod_small (x m : Q) : (0 <= x)%Q → (x < m)%Q → (Qmod x m == x)%Q.
Proof.
  intros H0 Hm. unfold Qmod.
  assert (Qfloor (x / m) = 0%Z) as ->; [| change (inject_Z 0) with 0%Q; ring].
  assert (0 < m)%Q as Hpos by lra.
  assert (0 <= x / m)%Q as Hlo by (apply Qle_shift_div_l; lra).
  assert (x / m < 1)%Q as Hhi by (apply Qlt_shift_div_r; lra).
  pose proof (Qfloor_le (x / m)) as Hf1.
  pose proof (Qlt_floor (x / m)) as Hf2.
  revert Hlo Hhi Hf1 Hf2. generalize (x / m)%Q. intros q Hlo Hhi Hf1 Hf2.
  rewrite inject_Z_plus in Hf2. change (inject_Z 1) with 1%Q in Hf2.
  assert (inject_Z (Qfloor q) < inject_Z 1)%Q as H1 by (change (inject_Z 1) with 1%Q; lra).
  assert (inject_Z (-1) < inject_Z (Qfloor q))%Q as H2
    by (change (inject_Z (-1)) with (-1)%Q; lra).
  rewrite <- Zlt_Qlt in H1, H2. lia.
Qed.

Lemma Qmod_wrap (x m : Q) : (- m <= x)%Q → (x < 0)%Q → (Qmod x m == x + m)%Q.
Proof.
  intros Hlo Hhi. unfold Qmod.
  assert (Qfloor (x / m) = (-1)%Z) as ->; [| change (inject_Z (-1)) with (-1)%Q; ring].
  assert (0 < m)%Q as Hpos by lra.
  assert (-1 <= x / m)%Q as Hlo' by (apply Qle_shift_div_l; lra).
  assert (x / m < 0)%Q as Hhi' by (apply Qlt_shift_div_r; lra).
  pose proof (Qfloor_le (x / m)) as Hf1.
  pose proof (Qlt_floor (x / m)) as Hf2.
  revert Hlo' Hhi' Hf1 Hf2. generalize (x / m)%Q. intros q Hlo' Hhi' Hf1 Hf2.
  rewrite inject_Z_plus in Hf2. change (inject_Z 1) with 1%Q in Hf2.
  assert (inject_Z (Qfloor q) < inject_Z 0)%Q as H1 by (change (inject_Z 0) with 0%Q; lra).
  assert (inject_Z (-2) < inject_Z (Qfloor q))%Q as H2
    by (change (inject_Z (-2)) with (-2)%Q; lra).
  rewrite <- Zlt_Qlt in H1, H2. lia.
Qed.

Section PairFacts.
Context `{JsRuntime}.

(** The wait between two minutes of the day is their difference modulo 1440. *)
Lemma waitDiffMin_in_day (a d : Q) :
  (0 <= a)%Q → (a < 1440)%Q → (0 <= d)%Q → (d < 1440)%Q →
  ∃ w, Through.waitDiffMin (Fin a) (Fin d) = Fin w ∧
       (0 <= w)%Q ∧ (w < 1440)%Q ∧ (w == Qmod (d - a) 1440)%Q ∧
       ((a <= d)%Q → (w == d - a)%Q) ∧ ((d < a)%Q → (w == d - a + 1440)%Q).
Proof.
  intros Ha0 Ha1 Hd0 Hd1. unfold Through.waitDiffMin. cbn [Js.sub Js.neg Js.add].
  change Js.zero with (Fin 0).
  destruct (Js.lt (Fin (d + - a)) (Fin 0)) eqn:E.
  - apply lt_Fin in E. eexists. split; [reflexivity |].
    change (inject_Z (24 * 60)) with 1440%Q.
    split; [lra |]. split; [lra |]. split; [| split; intros; lra].
    rewrite Qmod_wrap; lra.
  - apply lt_Fin_false in E. eexists. split; [reflexivity |].
    split; [lra |]. split; [lra |]. split; [| split; intros; lra].
    rewrite Qmod_small; lra.
Qed.


#[local] Instance Js_le_trans : Transitive Js.le.
Proof.
  intros [| ? | p] [| ? | q] [| ? | r]; simpl; try done. apply Qle_trans.
Qed.

Lemma le_Fin (p q : Q) : Js.le (Fin p) (Fin q) ↔ (p <= q)%Q.
Proof. done. Qed.

(** [legBs.sort((a, b) => a.departTAMin - b.departTAMin)] orders the legs by
    departure when every departure is a minute of the day. *)
Lemma byDepartTA_sorted (bs : list LegB.t) :
  (∀ b, b ∈ bs → Js.in_day (LegB.departTAMin b) = true) →
  StronglySorted (λ b b', Js.le (LegB.departTAMin b) (LegB.departTAMin b'))
    (Arr.sort Through.byDepartTA bs).
Proof.
  intros Hday. apply sort_sorted.
  - intros x y z. apply Js_le_trans.
  - intros x y (p & Hp & _)%Hday%in_day_Fin (q & Hq & _)%Hday%in_day_Fin.
    unfold Through.byDepartTA, Js.gt. rewrite Hp, Hq. cbn [Js.sub Js.neg Js.add].
    intros E%lt_Fin. cbn [Js.le]. lra.
  - intros x y (p & Hp & _)%Hday%in_day_Fin (q & Hq & _)%Hday%in_day_Fin.
    unfold Through.byDepartTA, Js.gt. rewrite Hp, Hq. cbn [Js.sub Js.neg Js.add].
    intros E%lt_Fin_false. cbn [Js.le]. lra.
Qed.

(** The binary search stops at the boundary between the departures before
    [arrive] and the others, whenever the former all come first. *)
Lemma searchLoop_spec (bs : list LegB.t) (arrive : JsNum) (fuel lo hi : nat) :
  (∀ i j b b', (i < j)%nat → bs !! i = Some b → bs !! j = Some b' →
     Js.lt (LegB.departTAMin b') arrive = true →
     Js.lt (LegB.departTAMin b) arrive = true) →
  (lo <= hi)%nat → (hi <= length bs)%nat → (hi - lo <= fuel)%nat →
  (∀ i b, (i < lo)%nat → bs !! i = Some b → Js.lt (LegB.departTAMin b) arrive = true) →
  (∀ i b, (hi <= i)%nat → bs !! i = Some b → Js.lt (LegB.departTAMin b) arrive = false) →
  let r := Through.searchLoop fuel bs arrive lo hi in
  (r <= length bs)%nat ∧
  (∀ i b, (i < r)%nat → bs !! i = Some b → Js.lt (LegB.departTAMin b) arrive = true) ∧
  (∀ i b, (r <= i)%nat → bs !! i = Some b → Js.lt (LegB.departTAMin b) arrive = false).
Proof.
  intros Hpart. revert lo hi.
  induction fuel as [| fuel IH]; intros lo hi Hlh Hhl Hfuel Hlo Hhi; cbn [Through.searchLoop].
  - assert (lo = hi) as -> by lia. cbv zeta. split; [done |]. by split.
  - destruct (Nat.ltb_spec lo hi) as [Hlt | Hge]; cycle 1.
    { assert (lo = hi) as -> by lia. cbv zeta. split; [done |]. by split. }
    cbv zeta. rewrite Nat.shiftr_div_pow2. change (2 ^ 1)%nat with 2%nat.
    set (mid := ((lo + hi) `div` 2)%nat).
    assert (lo <= mid ∧ mid < hi)%nat as [Hm1 Hm2].
    { subst mid. pose proof (Nat.div_mod_eq (lo + hi) 2).
      pose proof (Nat.mod_upper_bound (lo + hi) 2). lia. }
    destruct (lookup_lt_is_Some_2 bs mid ltac:(lia)) as [b Hb]. rewrite Hb.
    destruct (Js.lt (LegB.departTAMin b) arrive) eqn:E.
    + apply IH; [lia | lia | lia | | done].
      intros i b' Hi Hb'. destruct (decide (i = mid)) as [-> | Hne].
      * congruence.
      * apply (Hpart i mid b' b); [lia | done | done | done].
    + apply IH; [lia | lia | lia | done |].
      intros i b' Hi Hb'. destruct (decide (i = mid)) as [-> | Hne].
      * congruence.
      * destruct (Js.lt (LegB.departTAMin b') arrive) eqn:E'; [| done].
        rewrite (Hpart mid i b b') in E; [done | lia | done | done | done].
Qed.

Lemma elem_of_addCand (bs : list LegB.t) (cands : list nat) (i j : nat) :
  j ∈ Through.addCand bs cands i ↔ j ∈ cands ∨ (j = i ∧ is_Some (bs !! i)).
Proof.
  unfold Through.addCand. destruct (bs !! i) as [b |] eqn:E.
  - case_bool_decide as Hin.
    + split; [by left |]. intros [? | [-> _]]; done.
    + rewrite elem_of_app, list_elem_of_singleton. split.
      * intros [? | ->]; [by left | right; eauto].
      * intros [? | [-> _]]; [by left | by right].
  - split; [by left |]. intros [? | [_ [? ?]]]; done.
Qed.

Lemma elem_of_candidatesFor (bs : list LegB.t) (lo j : nat) :
  j ∈ Through.candidatesFor bs lo ↔
  is_Some (bs !! j) ∧ (j = lo ∨ j = (lo + 1)%nat ∨ j = 0%nat).
Proof.
  unfold Through.candidatesFor. rewrite !elem_of_addCand. split.
  - intros [[[Hnil | [-> ?]] | [-> ?]] | [-> ?]]; [by apply elem_of_nil in Hnil | | |];
      (split; [done |]); auto.
  - intros [Hs [-> | [-> | ->]]]; auto.
Qed.

(** What the loop over the candidates leaves in [best]. *)
Lemma foldl_bestStep (bs : list LegB.t) (arrive : JsNum) (maxWaitMin : option JsNum)
    (cands : list nat) :
  (∀ b, b ∈ bs → ∃ w, Through.waitDiffMin arrive (LegB.departTAMin b) = Fin w) →
  match foldl (Through.bestStep bs arrive maxWaitMin) None cands with
  | None =>
      ∀ i b, i ∈ cands → bs !! i = Some b →
        Through.overMaxWait maxWaitMin
          (Through.waitDiffMin arrive (LegB.departTAMin b)) = true
  | Some (b, w) =>
      (∃ i, i ∈ cands ∧ bs !! i = Some b) ∧
      w = Through.waitDiffMin arrive (LegB.departTAMin b) ∧
      Through.overMaxWait maxWaitMin w = false ∧
      ∀ i b', i ∈ cands → bs !! i = Some b' →
        Through.overMaxWait maxWaitMin
          (Through.waitDiffMin arrive (LegB.departTAMin b')) = false →
        Js.le w (Through.waitDiffMin arrive (LegB.departTAMin b'))
  end.
Proof.
  intros Hfin. induction cands as [| c cands IH] using rev_ind.
  - cbn. intros i b Hi. by apply elem_of_nil in Hi.
  - rewrite foldl_app. cbn [foldl].
    destruct (foldl (Through.bestStep bs arrive maxWaitMin) None cands)
      as [[b0 w0] |] eqn:Efold; unfold Through.bestStep; cbv beta iota in IH.
    + destruct IH as ((i0 & Hi0 & Hb0) & -> & Hok0 & Hmin0).
      destruct (Hfin b0) as [q0 Hq0]; [apply list_elem_of_lookup; eauto |].
      destruct (bs !! c) as [b |] eqn:Ec.
      * destruct (Hfin b) as [q Hq]; [apply list_elem_of_lookup; eauto |].
        destruct (Through.overMaxWait maxWaitMin
                    (Through.waitDiffMin arrive (LegB.departTAMin b))) eqn:Eover.
        -- split; [exists i0; split; [set_solver | done] |].
           split; [done |]. split; [done |].
           intros i b' [Hi | ->%list_elem_of_singleton]%elem_of_app Hb' Hok.
           ++ by apply (Hmin0 i).
           ++ congruence.
        -- destruct (Js.lt (Through.waitDiffMin arrive (LegB.departTAMin b))
                     (Through.waitDiffMin arrive (LegB.departTAMin b0))) eqn:Elt.
           ++ split; [exists c; split; [set_solver | done] |].
              split; [done |]. split; [done |].
              intros i b' [Hi | ->%list_elem_of_singleton]%elem_of_app Hb' Hok.
              ** specialize (Hmin0 i b' Hi Hb' Hok).
                 destruct (Hfin b') as [q' Hq']; [apply list_elem_of_lookup; eauto |].
                 rewrite Hq, Hq0 in Elt. apply lt_Fin in Elt.
                 rewrite Hq0, Hq' in Hmin0. rewrite Hq, Hq'.
                 cbn [Js.le] in Hmin0 |- *. lra.
              ** assert (b' = b) as -> by congruence. rewrite Hq. cbn [Js.le]. lra.
           ++ split; [exists i0; split; [set_solver | done] |].
              split; [done |]. split; [done |].
              intros i b' [Hi | ->%list_elem_of_singleton]%elem_of_app Hb' Hok.
              ** by apply (Hmin0 i).
              ** assert (b' = b) as -> by congruence.
                 rewrite Hq, Hq0 in Elt |- *. apply lt_Fin_false in Elt.
                 done.
      * split; [exists i0; split; [set_solver | done] |].
        split; [done |]. split; [done |].
        intros i b' [Hi | ->%list_elem_of_singleton]%elem_of_app Hb' Hok.
        -- by apply (Hmin0 i).
        -- congruence.
    + destruct (bs !! c) as [b |] eqn:Ec.
      * destruct (Hfin b) as [q Hq]; [apply list_elem_of_lookup; eauto |].
        destruct (Through.overMaxWait maxWaitMin
                    (Through.waitDiffMin arrive (LegB.departTAMin b))) eqn:Eover.
        -- intros i b' [Hi | ->%list_elem_of_singleton]%elem_of_app Hb'.
           ++ by apply (IH i).
           ++ congruence.
        -- split; [exists c; split; [set_solver | done] |].
           split; [done |]. split; [done |].
           intros i b' [Hi | ->%list_elem_of_singleton]%elem_of_app Hb' Hok.
           ++ rewrite (IH i b' Hi Hb') in Hok. done.
           ++ assert (b' = b) as -> by congruence. rewrite Hq. cbn [Js.le]. lra.
      * intros i b' [Hi | ->%list_elem_of_singleton]%elem_of_app Hb'.
        -- by apply (IH i).
        -- congruence.
Qed.


Lemma overMaxWait_mono (maxWaitMin : option JsNum) (w1 w2 : JsNum) :
  Js.le w1 w2 →
  Through.overMaxWait maxWaitMin w2 = false → Through.overMaxWait maxWaitMin w1 = false.
Proof.
  destruct w1 as [| ? | q1], w2 as [| ? | q2]; try done. cbn [Js.le]. intros Hle.
  destruct maxWaitMin as [[| s | m] |]; unfold Through.overMaxWait, Js.gt; try done.
  rewrite !lt_Fin_false. lra.
Qed.

(** On legs sorted by departure, the binary search returns the number of
    departures before [arrive]: the index of the first departure that is not
    before it, or the length when there is none. *)
Lemma lowerBound_spec (bs : list LegB.t) (arrive : JsNum) :
  StronglySorted (λ b b', Js.le (LegB.departTAMin b) (LegB.departTAMin b')) bs →
  (∀ b, b ∈ bs → Js.in_day (LegB.departTAMin b) = true) →
  Js.in_day arrive = true →
  (Through.lowerBound bs arrive <= length bs)%nat ∧
  ∀ i b, bs !! i = Some b →
    (Js.lt (LegB.departTAMin b) arrive = true ↔ (i < Through.lowerBound bs arrive)%nat).
Proof.
  intros Hsorted Hday (a & -> & Ha0 & Ha1)%in_day_Fin.
  assert (∀ i j b b', (i < j)%nat → bs !! i = Some b → bs !! j = Some b' →
            Js.lt (LegB.departTAMin b') (Fin a) = true →
            Js.lt (LegB.departTAMin b) (Fin a) = true) as Hpart.
  { intros i j b b' Hij Hb Hb'.
    pose proof (StronglySorted_lookup _ _ _ _ _ _ Hsorted Hij Hb Hb') as Hle. cbv beta in Hle.
    assert (b ∈ bs) as (d & Hd & _)%Hday%in_day_Fin by (apply list_elem_of_lookup; eauto).
    assert (b' ∈ bs) as (d' & Hd' & _)%Hday%in_day_Fin by (apply list_elem_of_lookup; eauto).
    rewrite Hd, Hd' in Hle |- *. cbn [Js.le] in Hle. rewrite !lt_Fin. lra. }
  destruct (searchLoop_spec bs (Fin a) (length bs) 0 (length bs) Hpart)
    as (Hr & Hbelow & Habove); [lia | lia | lia | intros; lia | |].
  { intros i b Hi Hb. apply lookup_lt_Some in Hb. lia. }
  fold (Through.lowerBound bs (Fin a)) in Hr, Hbelow, Habove.
  split; [done |]. intros i b Hb. split.
  - intros Hlt. destruct (decide (i < Through.lowerBound bs (Fin a))%nat) as [| Hge]; [done |].
    rewrite (Habove i b) in Hlt; [done | lia | done].
  - intros Hi. by apply (Hbelow i).
Qed.

(** The candidate set always holds an outbound leg of least wait. *)
Lemma nearest_candidate (bs : list LegB.t) (arrive : JsNum) :
  StronglySorted (λ b b', Js.le (LegB.departTAMin b) (LegB.departTAMin b')) bs →
  (∀ b, b ∈ bs → Js.in_day (LegB.departTAMin b) = true) →
  Js.in_day arrive = true →
  bs ≠ [] →
  ∃ i b, i ∈ Through.candidatesFor bs (Through.lowerBound bs arrive) ∧
         bs !! i = Some b ∧
         ∀ b', b' ∈ bs →
           Js.le (Through.waitDiffMin arrive (LegB.departTAMin b))
                 (Through.waitDiffMin arrive (LegB.departTAMin b')).
Proof.
  intros Hsorted Hday Harr Hne.
  destruct (lowerBound_spec bs arrive Hsorted Hday Harr) as [Hr Hlow].
  apply in_day_Fin in Harr as (a & -> & Ha0 & Ha1).
  assert (∀ i b, bs !! i = Some b →
            ∃ d, LegB.departTAMin b = Fin d ∧ (0 <= d)%Q ∧ (d < 1440)%Q) as Hdep.
  { intros i b Hb. apply in_day_Fin, Hday, list_elem_of_lookup. eauto. }
  set (r := Through.lowerBound bs (Fin a)) in *.
  assert (∀ i b, (i < r)%nat → bs !! i = Some b →
            Js.lt (LegB.departTAMin b) (Fin a) = true) as Hbelow.
  { intros i b Hi Hb. by apply (Hlow i b Hb). }
  assert (∀ i b, (r <= i)%nat → bs !! i = Some b →
            Js.lt (LegB.departTAMin b) (Fin a) = false) as Habove.
  { intros i b Hi Hb. destruct (Js.lt (LegB.departTAMin b) (Fin a)) eqn:E; [| done].
    apply (Hlow i b Hb) in E. lia. }
  destruct (decide (r < length bs)%nat) as [Hlt | Hge].
  - destruct (lookup_lt_is_Some_2 bs r Hlt) as [b0 Hb0].
    exists r, b0. split; [apply elem_of_candidatesFor; eauto |]. split; [done |].
    intros b' [j Hb']%list_elem_of_lookup.
    destruct (Hdep _ _ Hb0) as (d0 & Hd0 & Hd00 & Hd01).
    destruct (Hdep _ _ Hb') as (d' & Hd' & Hd'0 & Hd'1).
    pose proof (Habove r b0 ltac:(lia) Hb0) as Hab0.
    rewrite Hd0 in Hab0 |- *. rewrite Hd'. apply lt_Fin_false in Hab0.
    destruct (waitDiffMin_in_day a d0) as (w0 & -> & _ & _ & _ & Hw0 & _); [done.. |].
    destruct (waitDiffMin_in_day a d') as (w' & -> & _ & _ & _ & Hw'1 & Hw'2); [done.. |].
    cbn [Js.le]. specialize (Hw0 Hab0).
    destruct (Nat.lt_trichotomy j r) as [Hjr | [-> | Hjr]].
    + pose proof (Hbelow j b' Hjr Hb') as Hbel. rewrite Hd' in Hbel.
      apply lt_Fin in Hbel. specialize (Hw'2 Hbel). lra.
    + assert (d' = d0) as -> by congruence. specialize (Hw'1 Hab0). lra.
    + pose proof (StronglySorted_lookup _ _ _ _ _ _ Hsorted Hjr Hb0 Hb') as Hle. cbv beta in Hle.
      rewrite Hd0, Hd' in Hle. cbn [Js.le] in Hle.
      assert (a <= d')%Q as Had' by lra. specialize (Hw'1 Had'). lra.
  - assert (r = length bs) as Hreq by lia.
    destruct bs as [| b0 bs0] eqn:Ebs; [done |]. rewrite <- Ebs in *.
    assert (bs !! 0%nat = Some b0) as Hb0 by (by rewrite Ebs).
    exists 0%nat, b0. split; [apply elem_of_candidatesFor; eauto |]. split; [done |].
    intros b' [j Hb']%list_elem_of_lookup.
    destruct (Hdep _ _ Hb0) as (d0 & Hd0 & Hd00 & Hd01).
    destruct (Hdep _ _ Hb') as (d' & Hd' & Hd'0 & Hd'1).
    pose proof (lookup_lt_Some _ _ _ Hb0) as Hl0.
    pose proof (lookup_lt_Some _ _ _ Hb') as Hl'.
    pose proof (Hbelow 0%nat b0 ltac:(lia) Hb0) as Hbel0.
    pose proof (Hbelow j b' ltac:(lia) Hb') as Hbel'.
    rewrite Hd0 in Hbel0 |- *. rewrite Hd' in Hbel' |- *.
    apply lt_Fin in Hbel0, Hbel'.
    destruct (waitDiffMin_in_day a d0) as (w0 & -> & _ & _ & _ & _ & Hw0); [done.. |].
    destruct (waitDiffMin_in_day a d') as (w' & -> & _ & _ & _ & _ & Hw'); [done.. |].
    cbn [Js.le]. specialize (Hw0 Hbel0). specialize (Hw' Hbel').
    destruct j as [| j].
    + assert (d' = d0) as -> by congruence. lra.
    + pose proof (StronglySorted_lookup _ _ 0%nat (S j) _ _ Hsorted ltac:(lia) Hb0 Hb') as Hle. cbv beta in Hle.
      rewrite Hd0, Hd' in Hle. cbn [Js.le] in Hle. lra.
Qed.

(** The outbound leg chosen for an inbound leg: none when every outbound leg
    is over the bound, and otherwise one of least wait among all of them. *)
Lemma bestFor_spec (bs : list LegB.t) (maxWaitMin : option JsNum) (a : LegA.t) :
  StronglySorted (λ b b', Js.le (LegB.departTAMin b) (LegB.departTAMin b')) bs →
  (∀ b, b ∈ bs → Js.in_day (LegB.departTAMin b) = true) →
  Js.in_day (LegA.arriveTAMin a) = true →
  match Through.bestFor bs maxWaitMin a with
  | None => ∀ b, b ∈ bs → Through.overMaxWait maxWaitMin (waitAt a b) = true
  | Some (b, w) =>
      b ∈ bs ∧ w = waitAt a b ∧ Through.overMaxWait maxWaitMin w = false ∧
      ∀ b', b' ∈ bs → Js.le w (waitAt a b')
  end.
Proof.
  intros Hsorted Hday Ha. unfold Through.bestFor, waitAt.
  assert (∀ b, b ∈ bs →
            ∃ w, Through.waitDiffMin (LegA.arriveTAMin a) (LegB.departTAMin b) = Fin w) as Hfin.
  { intros b (d & -> & ? & ?)%Hday%in_day_Fin.
    apply in_day_Fin in Ha as (q & -> & ? & ?).
    destruct (waitDiffMin_in_day q d) as (w & -> & _); [done.. |]. eauto. }
  pose proof (foldl_bestStep bs (LegA.arriveTAMin a) maxWaitMin
                (Through.candidatesFor bs (Through.lowerBound bs (LegA.arriveTAMin a))) Hfin)
    as Hfold.
  pose proof (nearest_candidate bs (LegA.arriveTAMin a) Hsorted Hday Ha) as Hnear.
  destruct (foldl _ None _) as [[b w] |].
  - destruct Hfold as ((i & Hi & Hb) & -> & Hok & Hmin).
    assert (b ∈ bs) as Hbin by (apply list_elem_of_lookup; eauto).
    split; [done |]. split; [done |]. split; [done |].
    intros b' Hb'.
    destruct Hnear as (ig & g & Hig & Hg & Hgmin); [by intros -> ; apply elem_of_nil in Hbin |].
    transitivity (Through.waitDiffMin (LegA.arriveTAMin a) (LegB.departTAMin g)).
    + apply (Hmin ig); [done | done |].
      eapply overMaxWait_mono; [apply (Hgmin b Hbin) | done].
    + by apply Hgmin.
  - intros b' Hb'.
    destruct Hnear as (ig & g & Hig & Hg & Hgmin); [by intros -> ; apply elem_of_nil in Hb' |].
    specialize (Hfold ig g Hig Hg).
    destruct (Through.overMaxWait maxWaitMin
                (Through.waitDiffMin (LegA.arriveTAMin a) (LegB.departTAMin b'))) eqn:E;
      [done |].
    rewrite (overMaxWait_mono _ _ _ (Hgmin b' Hb') E) in Hfold. done.
Qed.

(** Whatever the inputs, the leg left in [best] is within the bound. *)
Lemma foldl_bestStep_within (bs : list LegB.t) (arrive : JsNum)
    (maxWaitMin : option JsNum) (cands : list nat) (best : option (LegB.t * JsNum)) :
  (∀ b w, best = Some (b, w) → Through.overMaxWait maxWaitMin w = false) →
  ∀ b w, foldl (Through.bestStep bs arrive maxWaitMin) best cands = Some (b, w) →
         Through.overMaxWait maxWaitMin w = false.
Proof.
  revert best. induction cands as [| c cands IH]; intros best Hbest b w; cbn [foldl].
  - apply Hbest.
  - apply IH. intros b1 w1. unfold Through.bestStep.
    destruct (bs !! c) as [bc |]; [| apply Hbest].
    destruct (Through.overMaxWait maxWaitMin
                (Through.waitDiffMin arrive (LegB.departTAMin bc))) eqn:E; [apply Hbest |].
    destruct best as [[b0 w0] |].
    + destruct (Js.lt _ w0); [by intros [= <- <-] | apply Hbest].
    + by intros [= <- <-].
Qed.

Lemma pairFor_Some (bs : list LegB.t) (maxWaitMin : option JsNum) (a : LegA.t)
    (p : PairResult.t) :
  Through.pairFor bs maxWaitMin a = Some p →
  ∃ b, Through.bestFor bs maxWaitMin a = Some (b, PairResult.wait_min p) ∧
       PairResult.from_train_id p = LegA.trainId a ∧
       PairResult.to_train_id p = LegB.trainId b.
Proof.
  unfold Through.pairFor. destruct (Through.bestFor bs maxWaitMin a) as [[b w] |]; [| done].
  intros [= <-]. by exists b.
Qed.





Lemma buildTransferPairs_elem_of stopsPre stopsPost trains via dest maxWaitMin p :
  p ∈ Through.buildTransferPairs stopsPre stopsPost trains via dest maxWaitMin ↔
  ∃ a, a ∈ Through.legAs stopsPre trains via ∧
       Through.pairFor (Through.legBs stopsPost trains dest) maxWaitMin a = Some p.
Proof.
  unfold Through.buildTransferPairs. cbv zeta.
  by rewrite elem_of_sort, list_elem_of_omap.
Qed.

Lemma legBs_sorted stopsPost trains dest :
  Forall (λ b, Js.in_day (LegB.departTAMin b) = true) (Through.legBs stopsPost trains dest) →
  StronglySorted (λ b b', Js.le (LegB.departTAMin b) (LegB.departTAMin b'))
    (Through.legBs stopsPost trains dest).
Proof.
  intros Hday. apply byDepartTA_sorted. intros b Hb.
  rewrite Forall_forall in Hday. apply Hday. unfold Through.legBs. by apply elem_of_sort.
Qed.






(** C3.  No pair emitted by [buildTransferPairs] has a wait greater than the
    bound, when a bound is given; and when every arrival of an inbound leg
    and every departure of an outbound leg is a minute of the day, in
    [0, 1440), the wait of every emitted pair is a number that is at least 0
    (and less than 1440). *)
Theorem buildTransferPairs_wait (stopsPre stopsPost : list AnyCsv)
    (trains : gmap string TrainMeta) (via dest : string)
    (maxWaitMin : option JsNum) (p : PairResult.t) :
  p ∈ Through.buildTransferPairs stopsPre stopsPost trains via dest maxWaitMin →
  (∀ m, maxWaitMin = Some m → Js.gt (PairResult.wait_min p) m = false) ∧
  (Forall (λ a, Js.in_day (LegA.arriveTAMin a) = true)
     (Through.legAs stopsPre trains via) →
   Forall (λ b, Js.in_day (LegB.departTAMin b) = true)
     (Through.legBs stopsPost trains dest) →
   ∃ w, PairResult.wait_min p = Fin w ∧ (0 <= w)%Q ∧ (w < 1440)%Q).
Proof.
  intros (a & Ha & Hp)%buildTransferPairs_elem_of.
  destruct (pairFor_Some _ _ _ _ Hp) as (b & Eb & _). split.
  - intros m ->. unfold Through.bestFor in Eb.
    by apply (foldl_bestStep_within _ _ (Some m) _ None) in Eb.
  - intros HA HB. pose proof (legBs_sorted _ _ _ HB) as Hsorted.
    rewrite Forall_forall in HA. rewrite Forall_forall in HB.
    pose proof (bestFor_spec _ maxWaitMin a Hsorted HB (HA a Ha)) as Hbest.
    rewrite Eb in Hbest. destruct Hbest as (Hb & -> & _).
    apply HA, in_day_Fin in Ha as (q & Hq & ? & ?).
    apply HB, in_day_Fin in Hb as (d & Hd & ? & ?).
    unfold waitAt. rewrite Hq, Hd.
    destruct (waitDiffMin_in_day q d) as (w & -> & ? & ? & _); [done.. |]. eauto.
Qed.

End PairFacts.

(** ** [deriveLegsFromStops] *)

Lemma filter_all {X : Type} (P : X → Prop) `{∀ x, Decision (P x)} (l : list X) :
  (∀ x, x ∈ l → P x) → filter P l = l.
Proof.
  induction l as [| x l IH]; intros Hall; [done |].
  rewrite filter_cons_True; [| apply Hall; set_solver].
  rewrite IH; [done |]. intros y Hy. apply Hall. set_solver.
Qed.

Lemma filter_none {X : Type} (P : X → Prop) `{∀ x, Decision (P x)} (l : list X) :
  (∀ x, x ∈ l → ¬ P x) → filter P l = [].
Proof.
  induction l as [| x l IH]; intros Hall; [done |].
  rewrite filter_cons_False; [| apply Hall; set_solver].
  apply IH. intros y Hy. apply Hall. set_solver.
Qed.

(** Filtering by key the concatenation of what each entry of a map yields,
    when every entry yields elements of its own key only. *)
Lemma filter_flat_map_key {X Y : Type} (f : string * X → list Y) (k : Y → string)
    (m : list (string * X)) (tid : string) :
  NoDup m.*1 →
  (∀ e y, y ∈ f e → k y = e.1) →
  filter (λ y, k y = tid) (flat_map f m) =
  match JsMap.get tid m with
  | Some v => f (tid, v)
  | None => []
  end.
Proof.
  intros Hnd Hk. induction m as [| [k1 v1] m IH]; [done |].
  rewrite fmap_cons in Hnd. apply NoDup_cons in Hnd as [Hk1 Hnd].
  cbn [flat_map JsMap.get]. rewrite filter_app.
  destruct (String.eqb_spec k1 tid) as [-> | Hne].
  - rewrite filter_all; [| intros y Hy; by rewrite (Hk _ _ Hy)].
    rewrite filter_none; [by rewrite app_nil_r |].
    intros y Hy%list_elem_of_In Hky. apply in_flat_map in Hy as (e & He & Hy).
    apply list_elem_of_In in He. apply list_elem_of_In in Hy. apply Hk1.
    rewrite <- Hky, (Hk _ _ Hy). apply list_elem_of_fmap. by exists e.
  - rewrite filter_none; [by apply IH |].
    intros y Hy Hky. apply Hne. by rewrite <- Hky, (Hk _ _ Hy).
Qed.

Section DeriveFacts.
Context `{JsRuntime}.

Lemma legsFrom_imap (trainId : string) (i : nat) (stops : list AnyCsv) :
  Analyze.legsFrom trainId i stops =
  imap (λ j ab, Analyze.legBetween trainId (i + j) ab.1 ab.2) (zip stops (drop 1 stops)).
Proof.
  revert i. induction stops as [| a rest IH]; intros i; [done |].
  cbn [Analyze.legsFrom]. destruct rest as [| b rest']; [done |].
  rewrite IH. cbn [drop zip zip_with]. rewrite imap_cons. cbn [fst snd].
  rewrite Nat.add_0_r. f_equal.
  apply imap_ext. intros j [a' b'] _. cbn. f_equal. lia.
Qed.

Lemma legsFrom_train_id (trainId : string) (i : nat) (stops : list AnyCsv) (leg : LegOut.t) :
  leg ∈ Analyze.legsFrom trainId i stops → LegOut.train_id leg = trainId.
Proof.
  rewrite legsFrom_imap. intros [j Hj]%list_elem_of_lookup.
  apply list_lookup_imap_Some in Hj as ([a b] & _ & ->). done.
Qed.

(** The legs of one vehicle: one per pair of adjacent stops, in order. *)
Lemma deriveLegsFromStops_train (rows : list AnyCsv) (tid : string) :
  legsOfTrain tid (Analyze.deriveLegsFromStops rows) =
  imap (λ i ab, Analyze.legBetween tid i ab.1 ab.2)
       (zip (stopsOfTrain tid rows) (drop 1 (stopsOfTrain tid rows))).
Proof.
  unfold legsOfTrain, Analyze.deriveLegsFromStops. cbv zeta.
  rewrite (filter_flat_map_key _ LegOut.train_id _ tid (groupByTrain_NoDup rows)).
  - unfold groupByTrain.
    rewrite (grouping_get trainIdOf (λ arr r, arr ++ [r]) [] _ byTrain_step_eq).
    unfold stopsOfTrain.
    destruct (filter (λ x, trainIdOf x = tid) rows) as [| r rs] eqn:E; [done |].
    rewrite foldl_snoc_id. cbn [app]. by rewrite legsFrom_imap.
  - intros [k l0] leg Hleg. by apply legsFrom_train_id in Hleg.
Qed.






End DeriveFacts.

(** ** Audit mode: outliers *)

Lemma samplesOf_snoc (k : string) (legs : list LegOut.t) (l : LegOut.t) :
  samplesOf k (legs ++ [l]) =
  samplesOf k legs ++
  (if decide (Analyze.label l = k) then option_list (LegOut.leg_minutes l) else []).
Proof.
  unfold samplesOf. rewrite filter_app, omap_app, filter_cons, filter_nil.
  destruct (decide (Analyze.label l = k)); [| done].
  cbn [omap list_omap]. by destruct (LegOut.leg_minutes l).
Qed.

(** [segStats] holds, under each label, the non-null samples of that label. *)
Lemma segStats_get (legs : list LegOut.t) (k : string) :
  JsMap.get k (Analyze.segStats legs) =
  match samplesOf k legs with
  | [] => None
  | arr => Some arr
  end.
Proof.
  unfold Analyze.segStats. induction legs as [| l legs IH] using rev_ind; [done |].
  rewrite foldl_app, samplesOf_snoc. cbn [foldl]. unfold Analyze.segStats_step at 1.
  destruct (LegOut.leg_minutes l) as [v |] eqn:Ev; cbn [option_list].
  - destruct (decide (Analyze.label l = k)) as [-> | Hne].
    + rewrite get_set_eq, IH. cbn [option_list].
      destruct (samplesOf _ legs) as [| x xs]; done.
    + by rewrite get_set_ne, IH, app_nil_r.
  - rewrite IH. destruct (decide (Analyze.label l = k)); by rewrite app_nil_r.
Qed.

Lemma segStats_NoDup (legs : list LegOut.t) : NoDup (Analyze.segStats legs).*1.
Proof.
  unfold Analyze.segStats.
  induction legs as [| l legs IH] using rev_ind; [apply NoDup_nil_2 |].
  rewrite foldl_app. cbn [foldl]. unfold Analyze.segStats_step at 1.
  destruct (LegOut.leg_minutes l); [by apply set_NoDup | done].
Qed.

Lemma segStats_elem_of (legs : list LegOut.t) (k : string) (arr : list Q) :
  (k, arr) ∈ Analyze.segStats legs ↔ arr ≠ [] ∧ arr = samplesOf k legs.
Proof.
  split.
  - intros Hin%elem_of_get; [| apply segStats_NoDup]. rewrite segStats_get in Hin.
    destruct (samplesOf k legs); [done |]. by injection Hin as <-.
  - intros [Hne ->]. apply get_Some_elem_of. rewrite segStats_get.
    by destruct (samplesOf k legs).
Qed.

Lemma zScore_eq (arr : list Q) (v : Q) :
  Analyze.zScore arr v =
  (Rabs (Q2R v - Q2R (Analyze.meanOf arr)) / Analyze.stdOf arr)%R.
Proof.
  unfold Analyze.zScore. rewrite Q2R_minus. unfold Rdiv.
  rewrite Rabs_mult, Rabs_inv. f_equal. f_equal.
  apply Rabs_pos_eq, sqrt_pos.
Qed.

Lemma elem_of_outliersOfSegment (k : string) (arr : list Q) (o : Outlier.t) :
  o ∈ Analyze.outliersOfSegment (k, arr) ↔
  (5 <= length arr)%nat ∧ Analyze.stdOf arr ≠ 0%R ∧
  ∃ v, v ∈ arr ∧ (Analyze.zScore arr v >= 3)%R ∧
       o = {| Outlier.segment := k; Outlier.value := toFixed2 v |}.
Proof.
  unfold Analyze.outliersOfSegment.
  destruct (Nat.ltb_spec (length arr) 5) as [Hlt | Hge].
  { split; [by intros ?%elem_of_nil | intros [? _]; lia]. }
  destruct (Req_dec_T (Analyze.stdOf arr) 0) as [Hz | Hnz].
  { split; [by intros ?%elem_of_nil | by intros (_ & ? & _)]. }
  rewrite list_elem_of_omap. split.
  - intros (v & Hv & Ho). destruct (Rge_dec (Analyze.zScore arr v) 3); [| done].
    injection Ho as <-. split; [done |]. split; [done |]. by exists v.
  - intros (_ & _ & v & Hv & Hz & ->). exists v. split; [done |].
    by destruct (Rge_dec (Analyze.zScore arr v) 3).
Qed.

Lemma Q2R_abs (x : Q) : Q2R (Qabs x) = Rabs (Q2R x).
Proof.
  destruct (Qlt_le_dec x 0) as [Hneg | Hpos].
  - rewrite (Qeq_eqR _ _ (Qabs_neg x (Qlt_le_weak _ _ Hneg))), Q2R_opp.
    apply Qlt_Rlt in Hneg. rewrite RMicromega.Q2R_0 in Hneg.
    by rewrite Rabs_left.
  - rewrite (Qeq_eqR _ _ (Qabs_pos x Hpos)).
    apply Qle_Rle in Hpos. rewrite RMicromega.Q2R_0 in Hpos.
    by rewrite Rabs_pos_eq.
Qed.

Lemma omap_ext_all {X Y : Type} (f g : X → option Y) (l : list X) :
  (∀ x, f x = g x) → omap f l = omap g l.
Proof.
  intros Hfg. induction l as [| x l IH]; [done |].
  cbn [omap list_omap]. by rewrite Hfg, IH.
Qed.

(** When the variance is the square of a rational, the outlier test can be
    run on rationals. *)
Lemma outliersOfSegment_exact (k : string) (arr : list Q) (m s : Q) :
  (5 <= length arr)%nat →
  (Analyze.meanOf arr == m)%Q → (Analyze.varianceOf arr == s * s)%Q → (0 < s)%Q →
  Analyze.outliersOfSegment (k, arr) =
  omap (λ v, if Qle_bool (3 * s) (Qabs (v - m))
             then Some {| Outlier.segment := k; Outlier.value := toFixed2 v |}
             else None) arr.
Proof.
  intros Hlen Hm Hvar Hs. unfold Analyze.outliersOfSegment.
  destruct (Nat.ltb_spec (length arr) 5) as [| _]; [lia |].
  assert (Analyze.stdOf arr = Q2R s) as Hstd.
  { unfold Analyze.stdOf. rewrite (Qeq_eqR _ _ Hvar), Q2R_mult.
    apply sqrt_square. apply Qlt_Rlt in Hs. rewrite RMicromega.Q2R_0 in Hs. lra. }
  assert (0 < Q2R s)%R as HsR.
  { apply Qlt_Rlt in Hs. by rewrite RMicromega.Q2R_0 in Hs. }
  destruct (Req_dec_T (Analyze.stdOf arr) 0) as [Hz | _]; [rewrite Hstd in Hz; lra |].
  apply omap_ext_all. intros v.
  assert (Analyze.zScore arr v = (Q2R (Qabs (v - m)) / Q2R s)%R) as ->.
  { unfold Analyze.zScore. rewrite Hstd, (Qeq_eqR (v - Analyze.meanOf arr) (v - m)).
    - unfold Rdiv. rewrite Rabs_mult, Rabs_inv, Q2R_abs.
      by rewrite (Rabs_pos_eq (Q2R s)) by lra.
    - by rewrite Hm. }
  destruct (Qle_bool (3 * s) (Qabs (v - m))) eqn:E.
  - apply Qle_bool_iff, Qle_Rle in E. rewrite Q2R_mult in E.
    replace (Q2R 3) with 3%R in E by (unfold Q2R; simpl; lra).
    destruct (Rge_dec _ 3) as [| Hn]; [done |]. exfalso. apply Hn.
    apply Rle_ge. apply Rmult_le_reg_r with (Q2R s); [done |].
    unfold Rdiv. rewrite Rmult_assoc, Rinv_l by lra. lra.
  - destruct (Rge_dec _ 3) as [Hge |]; [| done]. exfalso.
    assert (Qle_bool (3 * s) (Qabs (v - m)) = true) as E'; [| congruence].
    apply Qle_bool_iff, Rle_Qle. rewrite Q2R_mult.
    replace (Q2R 3) with 3%R by (unfold Q2R; simpl; lra).
    apply Rge_le in Hge. apply (Rmult_le_compat_r (Q2R s)) in Hge; [| lra].
    unfold Rdiv in Hge. rewrite Rmult_assoc, Rinv_l in Hge by lra. lra.
Qed.

Lemma toFixed2_rounded (x : Q) : roundedTo2 x (toFixed2 x).
Proof.
  unfold roundedTo2, toFixed2. cbv zeta.
  pose proof (Qfloor_le (Qabs x * 100 + (1 # 2))) as Hlo.
  pose proof (Qlt_floor (Qabs x * 100 + (1 # 2))) as Hhi.
  rewrite inject_Z_plus in Hhi. change (inject_Z 1) with 1%Q in Hhi.
  set (n := Qfloor (Qabs x * 100 + (1 # 2))) in *.
  destruct (Qle_bool 0 x) eqn:E.
  - apply Qle_bool_iff in E. rewrite (Qabs_pos x E) in Hlo, Hhi.
    exists n. split; [reflexivity |]. apply Qabs_Qle_condition. split; lra.
  - assert (x < 0)%Q as Hneg.
    { apply Qnot_le_lt. intros Hle%Qle_bool_iff. congruence. }
    rewrite (Qabs_neg x) in Hlo, Hhi by lra.
    exists (- n)%Z. rewrite inject_Z_opp. split; [field |].
    apply Qabs_Qle_condition. split; lra.
Qed.

Lemma Qnat_S (n : nat) : (Qnat (S n) == Qnat n + 1)%Q.
Proof.
  unfold Qnat. rewrite Nat2Z.inj_succ, <- Z.add_1_r, inject_Z_plus. reflexivity.
Qed.

Lemma Qnat_pos (n : nat) : (0 < n)%nat → (0 < Qnat n)%Q.
Proof.
  intros Hn. unfold Qnat. change 0%Q with (inject_Z 0). rewrite <- Zlt_Qlt. lia.
Qed.

Lemma foldl_Qplus_const (v : Q) (arr : list Q) (acc : Q) :
  (∀ x, x ∈ arr → (x == v)%Q) →
  (foldl Qplus acc arr == acc + Qnat (length arr) * v)%Q.
Proof.
  revert acc. induction arr as [| x arr IH]; intros acc Hall.
  - cbn [foldl length]. change (Qnat 0) with 0%Q. lra.
  - cbn [foldl length]. rewrite IH by (intros y Hy; apply Hall; by right).
    rewrite Qnat_S. rewrite (Hall x) by left. lra.
Qed.

Lemma foldl_squares_const (m : Q) (arr : list Q) (acc : Q) :
  (∀ x, x ∈ arr → (x == m)%Q) →
  (foldl (λ a b, a + (b - m) * (b - m)) acc arr == acc)%Q.
Proof.
  revert acc. induction arr as [| x arr IH]; intros acc Hall; [reflexivity |].
  cbn [foldl]. rewrite IH by (intros y Hy; apply Hall; by right).
  rewrite (Hall x) by left. lra.
Qed.

(** Samples that are all equal have the standard deviation zero. *)
Lemma stdOf_const (v : Q) (arr : list Q) :
  arr ≠ [] → (∀ x, x ∈ arr → (x == v)%Q) → Analyze.stdOf arr = 0%R.
Proof.
  intros Hne Hall.
  assert (0 < Qnat (length arr))%Q as Hn
    by (apply Qnat_pos; destruct arr; [done | cbn; lia]).
  assert (Analyze.meanOf arr == v)%Q as Hmean.
  { unfold Analyze.meanOf. rewrite (foldl_Qplus_const v) by done. field. lra. }
  assert (Analyze.varianceOf arr == 0)%Q as Hvar.
  { unfold Analyze.varianceOf. cbv zeta.
    rewrite (foldl_squares_const (Analyze.meanOf arr)).
    - field. lra.
    - intros x Hx. rewrite Hmean. by apply Hall. }
  unfold Analyze.stdOf. rewrite (Qeq_eqR _ _ Hvar).
  rewrite RMicromega.Q2R_0. apply sqrt_0.
Qed.

Lemma rounded_whole (z : Z) (x q : Q) :
  (x == inject_Z z)%Q → roundedTo2 x q → (q == x)%Q.
Proof.
  intros Hx (k & Hq & Hk). apply Qabs_Qle_condition in Hk as [Hlo Hhi].
  assert (inject_Z (k - 100 * z) < inject_Z 1)%Q as H1.
  { replace (k - 100 * z)%Z with (k + - (100 * z))%Z by lia.
    rewrite inject_Z_plus, inject_Z_opp, inject_Z_mult.
    change (inject_Z 100) with 100%Q. change (inject_Z 1) with 1%Q. lra. }
  assert (inject_Z (-1) < inject_Z (k - 100 * z))%Q as H2.
  { replace (k - 100 * z)%Z with (k + - (100 * z))%Z by lia.
    rewrite inject_Z_plus, inject_Z_opp, inject_Z_mult.
    change (inject_Z 100) with 100%Q. change (inject_Z (-1)) with (-1)%Q. lra. }
  rewrite <- Zlt_Qlt in H1, H2.
  assert (k = 100 * z)%Z as -> by lia.
  rewrite Hq, Hx, inject_Z_mult. change (inject_Z 100) with 100%Q. field.
Qed.

(** What the outlier detection never does.  Every outlier reported comes
    from a segment with at least 5 non-null samples and carries one of them
    (the sample itself when it is a whole number; the value is rounded to
    two decimals); so nothing is reported for a segment with fewer than 5
    non-null samples, whatever its values.  And nothing is reported for a
    segment whose non-null samples are all equal. *)
Theorem outliers_need_five (legs : list LegOut.t) :
  (∀ o, o ∈ Analyze.outliers legs →
     (5 <= length (samplesOf (Outlier.segment o) legs))%nat ∧
     ∃ v, v ∈ samplesOf (Outlier.segment o) legs ∧
          (isInteger v → (Outlier.value o == v)%Q)) ∧
  (∀ k o, (length (samplesOf k legs) < 5)%nat →
          o ∈ Analyze.outliers legs → Outlier.segment o ≠ k) ∧
  (∀ k v o, (∀ x, x ∈ samplesOf k legs → (x == v)%Q) →
            o ∈ Analyze.outliers legs → Outlier.segment o ≠ k).
Proof.
  assert (∀ o, o ∈ Analyze.outliers legs →
            (5 <= length (samplesOf (Outlier.segment o) legs))%nat ∧
            Analyze.stdOf (samplesOf (Outlier.segment o) legs) ≠ 0%R ∧
            ∃ v, v ∈ samplesOf (Outlier.segment o) legs ∧
                 Outlier.value o = toFixed2 v) as Hin.
  { intros o. unfold Analyze.outliers. rewrite list_elem_of_In, in_flat_map.
    intros ([k arr] & Hin%list_elem_of_In & Ho%list_elem_of_In).
    apply segStats_elem_of in Hin as [_ ->].
    apply elem_of_outliersOfSegment in Ho as (Hlen & Hstd & v & Hv & _ & ->).
    cbn [Outlier.segment Outlier.value]. split; [done |]. split; [done |]. by exists v. }
  split; [| split].
  - intros o (Hlen & _ & v & Hv & Hval)%Hin. split; [done |].
    exists v. split; [done |]. intros [z Hz]. rewrite Hval.
    apply (rounded_whole z); [done |]. apply toFixed2_rounded.
  - intros k o Hlen (Hge & _)%Hin Heq. rewrite Heq in Hge. lia.
  - intros k v o Hall (Hge & Hstd & _)%Hin Heq. rewrite Heq in Hge, Hstd.
    apply Hstd. apply (stdOf_const v); [| done].
    intros Hnil. rewrite Hnil in Hge. cbn in Hge. lia.
Qed.

(** ** Single-directory mode: segment statistics *)

Lemma foldl_pushStat (st : Stats.t) (ls : list LegOut.t) :
  let st' := foldl (λ st r, Analyze.pushStat st (LegOut.leg_minutes r)) st ls in
  let xs := omap LegOut.leg_minutes ls in
  Stats.count st' = (Stats.count st + length xs)%nat ∧
  Stats.sum st' = foldl Qplus (Stats.sum st) xs ∧
  (xs = [] → Stats.min st' = Stats.min st ∧ Stats.max st' = Stats.max st).
Proof.
  revert st. induction ls as [| l ls IH]; intros st; cbn [foldl omap list_omap].
  - split; [cbn; lia |]. by split.
  - destruct (LegOut.leg_minutes l) as [v |]; cbn [Analyze.pushStat].
    + destruct (IH (Analyze.pushStat st (Some v))) as (Hc & Hs & _).
      cbn [Analyze.pushStat Stats.count Stats.sum] in Hc, Hs.
      cbn [foldl length]. split; [lia |]. split; [done | done].
    + apply IH.
Qed.

Lemma aggregate_snoc (legs : list LegOut.t) (r : LegOut.t) :
  Analyze.aggregate (legs ++ [r]) = Analyze.agg_step (Analyze.aggregate legs) r.
Proof. unfold Analyze.aggregate. by rewrite foldl_app. Qed.

(** [agg] holds, under each key, the fold of [pushStat] over the legs of
    that key. *)
Lemma aggregate_get (legs : list LegOut.t) (key : string) :
  JsMap.get key (Analyze.aggregate legs).1 =
  match filter (λ l, Analyze.segmentKey l = key) legs with
  | [] => None
  | ls => Some (foldl (λ st r, Analyze.pushStat st (LegOut.leg_minutes r))
                  Analyze.emptyStats ls)
  end.
Proof.
  induction legs as [| r legs IH] using rev_ind; [done |].
  rewrite aggregate_snoc, filter_app, filter_cons, filter_nil.
  destruct (Analyze.aggregate legs) as [agg keyInfo]. cbn [fst] in IH.
  unfold Analyze.agg_step. cbv zeta. cbn [fst].
  destruct (decide (Analyze.segmentKey r = key)) as [<- | Hne].
  - rewrite get_set_eq, IH.
    destruct (filter _ legs) as [| l ls]; [done |].
    change ((l :: ls) ++ [r]) with (l :: (ls ++ [r])). cbn [default foldl].
    by rewrite foldl_app.
  - by rewrite get_set_ne, app_nil_r.
Qed.

Lemma aggregate_get_Some (legs : list LegOut.t) (key : string) (st : Stats.t) :
  JsMap.get key (Analyze.aggregate legs).1 = Some st →
  st = foldl (λ st r, Analyze.pushStat st (LegOut.leg_minutes r)) Analyze.emptyStats
         (filter (λ l, Analyze.segmentKey l = key) legs).
Proof.
  rewrite aggregate_get.
  destruct (filter (λ l, Analyze.segmentKey l = key) legs) as [| l ls]; [done |].
  by intros [= <-].
Qed.

Lemma aggregate_NoDup (legs : list LegOut.t) : NoDup (Analyze.aggregate legs).1.*1.
Proof.
  induction legs as [| r legs IH] using rev_ind; [apply NoDup_nil_2 |].
  rewrite aggregate_snoc. destruct (Analyze.aggregate legs) as [agg keyInfo].
  unfold Analyze.agg_step. cbv zeta. cbn [fst] in *. by apply set_NoDup.
Qed.

(** [keyInfo] has the keys of [agg], and names the stations a key is made of. *)
Lemma aggregate_keyInfo (legs : list LegOut.t) (key : string) :
  match JsMap.get key (Analyze.aggregate legs).2 with
  | Some (from, to) =>
      key = String.append from (String.append "__" to) ∧
      is_Some (JsMap.get key (Analyze.aggregate legs).1)
  | None => JsMap.get key (Analyze.aggregate legs).1 = None
  end.
Proof.
  induction legs as [| r legs IH] using rev_ind; [done |].
  rewrite aggregate_snoc. destruct (Analyze.aggregate legs) as [agg keyInfo].
  unfold Analyze.agg_step. cbv zeta. cbn [fst snd] in *. unfold JsMap.has.
  destruct (decide (Analyze.segmentKey r = key)) as [<- | Hne].
  - rewrite get_set_eq.
    destruct (JsMap.get (Analyze.segmentKey r) keyInfo) as [[from to] |] eqn:E.
    + rewrite E. destruct IH as [-> _]. split; [done | eauto].
    + rewrite get_set_eq. split; [done | eauto].
  - rewrite get_set_ne by done.
    destruct (JsMap.get (Analyze.segmentKey r) keyInfo) as [[from0 to0] |] eqn:E;
      [done |].
    by rewrite get_set_ne.
Qed.

Lemma segRows_elem_of (legs : list LegOut.t) (row : SegRow.t) :
  row ∈ Analyze.segRows legs →
  ∃ st, JsMap.get (rowKey row) (Analyze.aggregate legs).1 = Some st ∧
        SegRow.count row = Stats.count st ∧
        SegRow.min row = Stats.min st ∧
        SegRow.max row = Stats.max st ∧
        SegRow.avg row =
          toFixed2 <$> (if (0 <? Stats.count st)%nat
                        then Some (Stats.sum st / Qnat (Stats.count st))%Q else None).
Proof.
  unfold Analyze.segRows.
  pose proof (aggregate_NoDup legs) as Hnd.
  pose proof (aggregate_keyInfo legs) as Hki.
  destruct (Analyze.aggregate legs) as [agg keyInfo]. cbn [fst snd] in *.
  rewrite elem_of_sort. intros ([key st] & -> & Hin)%list_elem_of_fmap.
  apply elem_of_get in Hin; [| done].
  specialize (Hki key). unfold Analyze.segRowOf, rowKey.
  cbn [SegRow.from_station SegRow.to_station SegRow.count SegRow.min SegRow.max
       SegRow.avg].
  destruct (JsMap.get key keyInfo) as [[from to] |].
  - destruct Hki as [Hkey _].
    change (default ("", "") (Some (from, to))) with (from, to). cbn [fst snd].
    rewrite <- Hkey.
    exists st. done.
  - congruence.
Qed.

#[local] Instance avgDescending_trans : Transitive avgDescending.
Proof. intros x y z. unfold avgDescending. intros ? ?. lra. Qed.

Lemma segRows_sorted (legs : list LegOut.t) :
  StronglySorted avgDescending (Analyze.segRows legs).
Proof.
  unfold Analyze.segRows. destruct (Analyze.aggregate legs) as [agg keyInfo].
  apply sort_sorted; [apply avgDescending_trans | |];
    intros x y _ _; unfold Analyze.byAvgDesc, Js.gt, avgDescending, Js.zero.
  - intros E%lt_Fin. lra.
  - intros E%lt_Fin_false. lra.
Qed.

(** C7, as the code has it.  Folding a leg with a null duration changes no
    segment's count, min, max or sum (a segment first met with such a leg
    starts with count 0, sum 0 and null min and max).  The count of an output
    row is the number of non-null samples of its segment.  Mean, min and max
    are null when the segment has no non-null sample; otherwise the mean is a
    number, and for durations in whole minutes it is their sum over their
    number, rounded to two decimals.  The output rows are sorted descending
    by that mean, a null mean counting as 0. *)
Theorem segRows_spec (legs : list LegOut.t) :
  (∀ st, Analyze.pushStat st None = st) ∧
  (∀ agg keyInfo r key st,
     LegOut.leg_minutes r = None → JsMap.get key agg = Some st →
     JsMap.get key (Analyze.agg_step (agg, keyInfo) r).1 = Some st) ∧
  (∀ agg keyInfo r,
     LegOut.leg_minutes r = None → JsMap.get (Analyze.segmentKey r) agg = None →
     JsMap.get (Analyze.segmentKey r) (Analyze.agg_step (agg, keyInfo) r).1
       = Some Analyze.emptyStats) ∧
  (∀ row, row ∈ Analyze.segRows legs →
     SegRow.count row = length (samplesOfKey (rowKey row) legs) ∧
     (samplesOfKey (rowKey row) legs = [] →
      SegRow.min row = None ∧ SegRow.max row = None ∧ SegRow.avg row = None) ∧
     (samplesOfKey (rowKey row) legs ≠ [] →
      ∃ q, SegRow.avg row = Some q ∧
           (wholeMinutes (samplesOfKey (rowKey row) legs) →
            roundedTo2 (meanOfSamples (samplesOfKey (rowKey row) legs)) q))) ∧
  StronglySorted avgDescending (Analyze.segRows legs).
Proof.
  split; [done |]. split; [| split; [| split; [| apply segRows_sorted]]].
  - intros agg keyInfo r key st Hnull Hget. unfold Analyze.agg_step. cbv zeta. cbn [fst].
    rewrite Hnull. cbn [Analyze.pushStat].
    destruct (decide (Analyze.segmentKey r = key)) as [-> | Hne].
    + by rewrite get_set_eq, Hget.
    + by rewrite get_set_ne.
  - intros agg keyInfo r Hnull Hget. unfold Analyze.agg_step. cbv zeta. cbn [fst].
    by rewrite Hnull, Hget, get_set_eq.
  - intros row (st & Hst & Hc & Hmin & Hmax & Havg)%segRows_elem_of.
    apply aggregate_get_Some in Hst. unfold samplesOfKey, meanOfSamples.
    destruct (foldl_pushStat Analyze.emptyStats
                (filter (λ l, Analyze.segmentKey l = rowKey row) legs))
      as (Hcount & Hsum & Hnone).
    cbv zeta in Hcount, Hsum, Hnone. rewrite <- Hst in Hcount, Hsum, Hnone.
    cbn [Analyze.emptyStats Stats.count Stats.sum Stats.min Stats.max] in Hcount, Hsum, Hnone.
    rewrite Nat.add_0_l in Hcount.
    rewrite Hc, Hmin, Hmax, Havg, Hcount, Hsum.
    split; [done |].
    destruct (omap LegOut.leg_minutes _) as [| x xs] eqn:E.
    + split; [| done]. intros _. destruct (Hnone eq_refl) as [-> ->]. done.
    + split; [done |]. intros _. eexists. split; [reflexivity |].
      intros _. apply toFixed2_rounded.
Qed.

(** ** [loadLegs] *)

Section LoadFacts.
Context `{JsRuntime}.



End LoadFacts.

(** ** The standalone entry point and the command module *)

Section Agreement.
Context `{JsRuntime}.

(** C9.  [findThrough] and [buildTransferPairs] of [through.ts] return the
    same sequences as the methods of the same names of [ThroughCommand], on
    every input, in a runtime where lower-casing leaves the hub name
    ["tanah abang"] as it is (the standalone code lower-cases the literal, the
    command module writes it in lower case). *)
Theorem through_command_agree (stops stopsPre stopsPost : list AnyCsv)
    (trains : gmap string TrainMeta) (via dest : string) (maxWaitMin : option JsNum) :
  toLowerCase "tanah abang" = "tanah abang" →
  Through.findThrough stops trains via dest
    = ThroughCommand.findThrough stops trains via dest ∧
  Through.buildTransferPairs stopsPre stopsPost trains via dest maxWaitMin
    = ThroughCommand.buildTransferPairs stopsPre stopsPost trains via dest maxWaitMin.
Proof.
  intros Hhub. split.
  - unfold Through.findThrough, ThroughCommand.findThrough,
      Through.throughOfTrain, ThroughCommand.throughOfTrain, Through.isStation.
    rewrite Hhub. reflexivity.
  - unfold Through.buildTransferPairs, ThroughCommand.buildTransferPairs,
      Through.legAs, ThroughCommand.legAs, Through.legBs, ThroughCommand.legBs,
      Through.legBsUnsorted, ThroughCommand.legBsUnsorted,
      Through.legAOfTrain, ThroughCommand.legAOfTrain,
      Through.legBOfTrain, ThroughCommand.legBOfTrain, Through.isStation.
    rewrite Hhub. reflexivity.
Qed.

End Agreement.

(** ** The functions on example data, in the concrete runtime *)

Section Instances.
Import Examples.
#[local] Existing Instance ascii_runtime.

(** Train 101 runs through: one result, keyed by its departure from Palmerah. *)
Example through_scenario :
  Through.findThrough through_stops ∅ "Palmerah" "Sudirman" = [through_result].
Proof. vm_compute. reflexivity. Qed.

(** Arrival at 07:20, departures at 07:10 and 07:45: the wait is 25 minutes. *)
Example transfer_scenario :
  Through.buildTransferPairs pre_stops post_stops ∅ "Palmerah" "Rangkasbitung" None
  = [transfer_pair].
Proof. vm_compute. reflexivity. Qed.

(** Arrival at 23:50, one departure at 00:10: the wait wraps to 20 minutes. *)
Example wraparound_scenario :
  PairResult.wait_min <$>
    Through.buildTransferPairs late_pre_stops early_post_stops ∅
      "Palmerah" "Rangkasbitung" None
  = [Fin 20].
Proof. vm_compute. reflexivity. Qed.

(** With a bound of 10 minutes the 25-minute transfer is dropped. *)
Example transfer_over_bound :
  Through.buildTransferPairs pre_stops post_stops ∅ "Palmerah" "Rangkasbitung"
    (Some (Fin 10)) = [].
Proof. vm_compute. reflexivity. Qed.


Lemma buildTransferPairs_wait_witness :
  transfer_pair ∈ Through.buildTransferPairs pre_stops post_stops ∅
                    "Palmerah" "Rangkasbitung" (Some (Fin 30)) ∧
  (∀ m, Some (Fin 30) = Some m → Js.gt (PairResult.wait_min transfer_pair) m = false) ∧
  (Forall (λ a, Js.in_day (LegA.arriveTAMin a) = true)
     (Through.legAs pre_stops ∅ "Palmerah") →
   Forall (λ b, Js.in_day (LegB.departTAMin b) = true)
     (Through.legBs post_stops ∅ "Rangkasbitung") →
   ∃ w, PairResult.wait_min transfer_pair = Fin w ∧ (0 <= w)%Q ∧ (w < 1440)%Q).
Proof.
  assert (transfer_pair ∈ Through.buildTransferPairs pre_stops post_stops ∅
                            "Palmerah" "Rangkasbitung" (Some (Fin 30))) as Hp
    by (vm_compute; constructor).
  split; [exact Hp |].
  exact (buildTransferPairs_wait pre_stops post_stops ∅ "Palmerah" "Rangkasbitung"
           (Some (Fin 30)) transfer_pair Hp).
Defined.


Lemma findThrough_records_via_witness :
  through_result ∈ Through.findThrough through_stops ∅ "Palmerah" "Sudirman" ∧
  recordsStopAt "Palmerah" through_stops through_result ∧
  NoDup (ThroughResult.train_id
           <$> Through.findThrough through_stops ∅ "Palmerah" "Sudirman").
Proof.
  assert (through_result ∈ Through.findThrough through_stops ∅ "Palmerah" "Sudirman")
    as Hr by (vm_compute; constructor).
  split; [exact Hr |].
  exact (findThrough_records_via through_stops ∅ "Palmerah" "Sudirman" through_result Hr).
Defined.

(** C5 as stated fails: the result for train 101 carries 07:00, the time at
    the via station Palmerah, and not 07:20, the time at the hub. *)
Lemma findThrough_not_hub_stop :
  ¬ (∀ r, r ∈ Through.findThrough through_stops ∅ "Palmerah" "Sudirman" →
          recordsStopAt "tanah abang" through_stops r).
Proof.
  intros Hall.
  destruct (Hall through_result ltac:(vm_compute; constructor))
    as (i & s & Hfirst & Hs & Htime & _).
  assert (firstAt (Through.isStation "tanah abang")
            (stopsOfTrain (ThroughResult.train_id through_result) through_stops) 1)
    as Hone.
  { split.
    - eexists. split; [vm_compute; reflexivity | vm_compute; reflexivity].
    - intros j x Hj Hx. assert (j = 0)%nat as -> by lia.
      vm_compute in Hx. injection Hx as <-. vm_compute. reflexivity. }
  rewrite (firstAt_unique _ _ _ _ Hfirst Hone) in Hs.
  vm_compute in Hs. injection Hs as <-. vm_compute in Htime. discriminate Htime.
Qed.



(** Samples 10, 10, 10, 10, 50: mean 18, standard deviation 16; the z-score
    of 50 is 2, and nothing is flagged. *)
Example outliers_below_threshold : Analyze.outliers spread_legs = [].
Proof.
  unfold Analyze.outliers.
  assert (Analyze.segStats spread_legs = [("A→B", [10; 10; 10; 10; 50]%Q)]) as ->
    by (vm_compute; reflexivity).
  cbn [flat_map]. rewrite (outliersOfSegment_exact _ _ 18 16).
  - vm_compute. reflexivity.
  - vm_compute. lia.
  - vm_compute. reflexivity.
  - vm_compute. reflexivity.
  - lra.
Qed.

(** Nine samples of 0 and one of 10: mean 1, standard deviation 3; the
    z-score of 10 is exactly 3, and it is flagged. *)
Example outliers_at_threshold :
  Analyze.outliers boundary_legs
  = [{| Outlier.segment := "A→B"; Outlier.value := toFixed2 10 |}].
Proof.
  unfold Analyze.outliers.
  assert (Analyze.segStats boundary_legs
          = [("A→B", [10; 0; 0; 0; 0; 0; 0; 0; 0; 0]%Q)]) as ->
    by (vm_compute; reflexivity).
  cbn [flat_map]. rewrite (outliersOfSegment_exact _ _ 1 3).
  - vm_compute. reflexivity.
  - vm_compute. lia.
  - vm_compute. reflexivity.
  - vm_compute. reflexivity.
  - lra.
Qed.

Lemma segRows_spec_witness :
  thirds_row ∈ Analyze.segRows thirds_legs ∧
  samplesOfKey (rowKey thirds_row) thirds_legs ≠ [] ∧
  wholeMinutes (samplesOfKey (rowKey thirds_row) thirds_legs) ∧
  SegRow.count thirds_row = length (samplesOfKey (rowKey thirds_row) thirds_legs) ∧
  ∃ q, SegRow.avg thirds_row = Some q ∧
       roundedTo2 (meanOfSamples (samplesOfKey (rowKey thirds_row) thirds_legs)) q.
Proof.
  assert (thirds_row ∈ Analyze.segRows thirds_legs) as Hrow
    by (vm_compute; constructor).
  assert (samplesOfKey (rowKey thirds_row) thirds_legs ≠ []) as Hne
    by (vm_compute; discriminate).
  assert (wholeMinutes (samplesOfKey (rowKey thirds_row) thirds_legs)) as Hwhole.
  { split; [vm_compute; discriminate |].
    intros x Hx%list_elem_of_In. vm_compute in Hx.
    destruct Hx as [<- | [<- | [<- | []]]];
      [exists 1%Z | exists 1%Z | exists 2%Z]; (split; [reflexivity | lia]). }
  split; [exact Hrow |]. split; [exact Hne |]. split; [exact Hwhole |].
  destruct (proj1 (proj2 (proj2 (proj2 (segRows_spec thirds_legs)))) thirds_row Hrow)
    as (Hcount & _ & Havg).
  split; [exact Hcount |].
  destruct (Havg Hne) as (q & Hq & Hround).
  exists q. split; [exact Hq | exact (Hround Hwhole)].
Defined.

(** C7 as stated fails: the three samples 1, 1 and 2 have the mean 4/3, and
    the row carries 1.33. *)
Lemma segRows_mean_is_rounded :
  Analyze.segRows thirds_legs = [thirds_row] ∧
  samplesOfKey (rowKey thirds_row) thirds_legs = [1; 1; 2]%Q ∧
  SegRow.avg thirds_row = Some (133 # 100)%Q ∧
  ¬ (133 # 100 == (1 + 1 + 2) / 3)%Q.
Proof.
  split; [vm_compute; reflexivity |]. split; [vm_compute; reflexivity |].
  split; [reflexivity |]. intros Heq. vm_compute in Heq. discriminate Heq.
Qed.



Lemma through_command_agree_witness :
  toLowerCase "tanah abang" = "tanah abang" ∧
  Through.findThrough through_stops ∅ "Palmerah" "Rangkasbitung"
    = ThroughCommand.findThrough through_stops ∅ "Palmerah" "Rangkasbitung" ∧
  Through.buildTransferPairs pre_stops post_stops ∅ "Palmerah" "Rangkasbitung" None
    = ThroughCommand.buildTransferPairs pre_stops post_stops ∅
        "Palmerah" "Rangkasbitung" None.
Proof.
  assert (toLowerCase "tanah abang" = "tanah abang") as Hhub by reflexivity.
  split; [exact Hhub |].
  exact (through_command_agree through_stops pre_stops post_stops ∅
           "Palmerah" "Rangkasbitung" None Hhub).
Defined.

End Instances.


(** ** Strings *)

Lemma append_cons (c : ascii) (s t : string) :
  String.append (String c s) t = String c (String.append s t).
Proof. reflexivity. Qed.

Lemma append_nil_l (s : string) : String.append EmptyString s = s.
Proof. reflexivity. Qed.

Lemma append_nil_r (s : string) : String.append s EmptyString = s.
Proof. induction s as [| c s IH]; [done |]. by rewrite append_cons, IH. Qed.

Lemma append_assoc (s t u : string) :
  String.append (String.append s t) u = String.append s (String.append t u).
Proof. induction s as [| c s IH]; [done |]. by rewrite !append_cons, IH. Qed.

Lemma length_append (s t : string) :
  String.length (String.append s t) = (String.length s + String.length t)%nat.
Proof. induction s as [| c s IH]; [done |]. rewrite append_cons. cbn. by rewrite IH. Qed.

Lemma hasChar_append (c : ascii) (s t : string) :
  hasChar c (String.append s t) = hasChar c s || hasChar c t.
Proof.
  induction s as [| c' s IH]; [done |].
  rewrite append_cons. cbn [hasChar]. rewrite IH. by rewrite orb_assoc.
Qed.

(** ** CSV text *)

Section CsvFacts.
Context `{JsFormat}.

Lemma columns_plain (cur f rest : string) :
  hasChar Csv.dquote f = false → hasChar Csv.comma f = false →
  Csv.columns false cur (String.append f rest)
  = Csv.columns false (String.append cur f) rest.
Proof.
  revert cur. induction f as [| c f IH]; intros cur Hq Hc.
  - by rewrite append_nil_l, append_nil_r.
  - cbn [hasChar] in Hq, Hc.
    apply orb_false_iff in Hq as [Hq1 Hq]. apply orb_false_iff in Hc as [Hc1 Hc].
    rewrite append_cons. cbn [Csv.columns]. rewrite Hq1, Hc1.
    rewrite IH by done. unfold Csv.push. by rewrite append_assoc.
Qed.

Lemma columns_quoted (cur f rest : string) :
  (∀ c rest', rest = String c rest' → Ascii.eqb c Csv.dquote = false) →
  Csv.columns true cur
    (String.append (Csv.doubleQuotes f) (String Csv.dquote rest))
  = Csv.columns false (String.append cur f) rest.
Proof.
  intros Hrest. revert cur. induction f as [| c f IH]; intros cur.
  - rewrite append_nil_l, append_nil_r. cbn [Csv.doubleQuotes Csv.columns].
    rewrite Ascii.eqb_refl. destruct rest as [| c' rest']; [done |].
    by rewrite (Hrest c' rest' eq_refl).
  - cbn [Csv.doubleQuotes]. destruct (Ascii.eqb c Csv.dquote) eqn:E.
    + apply Ascii.eqb_eq in E as ->.
      rewrite !append_cons. cbn [Csv.columns]. rewrite Ascii.eqb_refl.
      rewrite IH. unfold Csv.push. by rewrite append_assoc.
    + rewrite append_cons. cbn [Csv.columns]. rewrite E.
      rewrite IH. unfold Csv.push. by rewrite append_assoc.
Qed.

Lemma needsQuote_false (s : string) :
  Csv.needsQuote s = false →
  hasChar Csv.dquote s = false ∧ hasChar Csv.comma s = false.
Proof.
  induction s as [| c s IH]; [done |]. cbn [Csv.needsQuote hasChar].
  intros E. apply orb_false_iff in E as [E1 E2].
  apply orb_false_iff in E1 as [E1 E3]. apply orb_false_iff in E1 as [E1 E4].
  destruct (IH E2) as [-> ->]. by rewrite E1, E4.
Qed.

Lemma columns_esc (cur : string) (v : option PrimitiveCsv) (rest : string) :
  (∀ c rest', rest = String c rest' → Ascii.eqb c Csv.dquote = false) →
  Csv.columns false cur (String.append (Csv.esc v) rest)
  = Csv.columns false (String.append cur (Csv.cellText v)) rest.
Proof.
  intros Hrest. unfold Csv.esc. cbv zeta.
  destruct (Csv.needsQuote (Csv.cellText v)) eqn:E.
  - rewrite append_cons. cbn [Csv.columns]. rewrite Ascii.eqb_refl.
    rewrite append_assoc, append_cons, append_nil_l.
    by apply columns_quoted.
  - apply needsQuote_false in E as [Hq Hc]. by apply columns_plain.
Qed.

Lemma columns_join (cur : string) (v : option PrimitiveCsv) (vs : list (option PrimitiveCsv)) :
  Csv.columns false cur (Csv.join "," (Csv.esc <$> (v :: vs)))
  = String.append cur (Csv.cellText v) :: (Csv.cellText <$> vs).
Proof.
  revert cur v. induction vs as [| v' vs IH]; intros cur v.
  - cbn [fmap list_fmap Csv.join].
    rewrite <- (append_nil_r (Csv.esc v)). rewrite columns_esc by done. done.
  - change (Csv.esc <$> v :: v' :: vs) with (Csv.esc v :: (Csv.esc <$> v' :: vs)).
    cbn [Csv.join]. change (Csv.esc <$> v' :: vs) with (Csv.esc v' :: (Csv.esc <$> vs)).
    cbv iota. change (Csv.esc v' :: (Csv.esc <$> vs)) with (Csv.esc <$> v' :: vs).
    rewrite columns_esc.
    + change (String.append "," ?x) with (String Csv.comma x).
      cbn [Csv.columns]. change (Ascii.eqb Csv.comma Csv.dquote) with false. cbv iota.
      rewrite Ascii.eqb_refl. rewrite IH. by rewrite append_nil_l.
    + intros c rest' Heq. change (String.append "," ?x) with (String Csv.comma x) in Heq.
      by injection Heq as <- _.
Qed.


(** A line written by [toCSV] is read back by the column loop of [readCsv]
    as the texts of its cells, whatever characters they hold: quotes, commas
    and line feeds inside a cell are restored. *)
Theorem columns_of_escaped_line (v : option PrimitiveCsv) (vs : list (option PrimitiveCsv)) :
  Csv.columns false "" (Csv.join "," (Csv.esc <$> (v :: vs)))
  = Csv.cellText <$> (v :: vs).
Proof. by rewrite columns_join, append_nil_l. Qed.

Lemma splitLines_cons_lf (rest : string) :
  Csv.splitLines (String Csv.lf rest) = "" :: Csv.splitLines rest.
Proof. done. Qed.

Lemma consHead_ne_nil (c : ascii) (pieces : list string) : Csv.consHead c pieces ≠ [].
Proof. by destruct pieces. Qed.

Lemma splitLines_ne_nil (s : string) : Csv.splitLines s ≠ [].
Proof.
  destruct s as [| c s]; [done |]. cbn [Csv.splitLines].
  repeat case_match; try done; apply consHead_ne_nil.
Qed.

Lemma split_on_ne_nil (sep : ascii) (s : string) : split_on sep s ≠ [].
Proof. destruct s as [| c s]; [done |]. cbn [split_on]. by repeat case_match. Qed.

Lemma splitLines_app (l rest : string) :
  hasChar Csv.lf l = false → hasChar Csv.cr l = false →
  Csv.splitLines (String.append l rest) =
  match Csv.splitLines rest with
  | [] => [l]
  | w :: ws => String.append l w :: ws
  end.
Proof.
  induction l as [| c l IH]; intros Hlf Hcr.
  - rewrite append_nil_l. pose proof (splitLines_ne_nil rest).
    by destruct (Csv.splitLines rest).
  - cbn [hasChar] in Hlf, Hcr.
    apply orb_false_iff in Hlf as [Hlf1 Hlf]. apply orb_false_iff in Hcr as [Hcr1 Hcr].
    rewrite append_cons. cbn [Csv.splitLines]. rewrite Hlf1, Hcr1.
    rewrite IH by done. by destruct (Csv.splitLines rest).
Qed.

Lemma splitLines_join (l : string) (ls : list string) :
  (∀ x, x ∈ l :: ls → hasChar Csv.lf x = false ∧ hasChar Csv.cr x = false) →
  Csv.splitLines (Csv.join (String Csv.lf "") (l :: ls)) = l :: ls.
Proof.
  revert l. induction ls as [| l' ls IH]; intros l Hclean.
  - cbn [Csv.join]. assert (Hl : l ∈ [l]) by left.
    destruct (Hclean l Hl) as [Hlf Hcr].
    rewrite <- (append_nil_r l) at 1. rewrite splitLines_app by done. cbn.
    by rewrite append_nil_r.
  - assert (Hl : l ∈ l :: l' :: ls) by left.
    destruct (Hclean l Hl) as [Hlf Hcr].
    cbn [Csv.join]. rewrite splitLines_app by done.
    rewrite append_cons, append_nil_l, splitLines_cons_lf.
    change (match ls with [] => l' | _ :: _ => ?a end) with (Csv.join (String Csv.lf "") (l' :: ls)).
    rewrite IH; [by rewrite append_nil_r |].
    intros x Hx. apply Hclean. by right.
Qed.

Lemma split_on_app (sep : ascii) (a rest : string) :
  hasChar sep a = false →
  split_on sep (String.append a rest) =
  match split_on sep rest with
  | [] => [a]
  | w :: ws => String.append a w :: ws
  end.
Proof.
  induction a as [| c a IH]; intros Hsep.
  - rewrite append_nil_l. pose proof (split_on_ne_nil sep rest).
    by destruct (split_on sep rest).
  - cbn [hasChar] in Hsep. apply orb_false_iff in Hsep as [Hc Hsep].
    rewrite append_cons. cbn [split_on]. rewrite Hc, IH by done.
    by destruct (split_on sep rest).
Qed.

Lemma split_on_join (sep : ascii) (h : string) (hs : list string) :
  (∀ x, x ∈ h :: hs → hasChar sep x = false) →
  split_on sep (Csv.join (String sep "") (h :: hs)) = h :: hs.
Proof.
  revert h. induction hs as [| h' hs IH]; intros h Hclean.
  - cbn [Csv.join]. rewrite <- (append_nil_r h) at 1.
    rewrite split_on_app by (apply Hclean; left). cbn. by rewrite append_nil_r.
  - cbn [Csv.join]. rewrite split_on_app by (apply Hclean; left).
    rewrite append_cons, append_nil_l. cbn [split_on]. rewrite Ascii.eqb_refl.
    change (match hs with [] => h' | _ :: _ => ?a end) with (Csv.join (String sep "") (h' :: hs)).
    rewrite IH; [by rewrite append_nil_r |].
    intros x Hx. apply Hclean. by right.
Qed.

Lemma hasChar_doubleQuotes (c : ascii) (s : string) :
  Ascii.eqb Csv.dquote c = false →
  hasChar c (Csv.doubleQuotes s) = hasChar c s.
Proof.
  intros Hc. induction s as [| c' s IH]; [done |].
  cbn [Csv.doubleQuotes]. destruct (Ascii.eqb c' Csv.dquote) eqn:E.
  - apply Ascii.eqb_eq in E as ->. cbn [hasChar]. by rewrite Hc, IH.
  - cbn [hasChar]. by rewrite IH.
Qed.

Lemma hasChar_esc (c : ascii) (v : option PrimitiveCsv) :
  Ascii.eqb Csv.dquote c = false →
  hasChar c (Csv.esc v) = hasChar c (Csv.cellText v).
Proof.
  intros Hc. unfold Csv.esc. cbv zeta. destruct (Csv.needsQuote _); [| done].
  cbn [hasChar]. rewrite Hc, hasChar_append, hasChar_doubleQuotes by done.
  cbn [hasChar]. rewrite Hc. by rewrite !orb_false_r.
Qed.

Lemma hasChar_join (c : ascii) (sep : string) (xs : list string) :
  hasChar c sep = false → (∀ x, x ∈ xs → hasChar c x = false) →
  hasChar c (Csv.join sep xs) = false.
Proof.
  intros Hsep. induction xs as [| x xs IH]; intros Hxs; [done |].
  cbn [Csv.join]. destruct xs as [| x' xs]; [apply Hxs; left |].
  rewrite !hasChar_append, Hsep, (Hxs x) by left.
  rewrite IH; [done |]. intros y Hy. apply Hxs. by right.
Qed.

Lemma join_length (sep : string) (x x' : string) (xs : list string) :
  (String.length sep <= String.length (Csv.join sep (x :: x' :: xs)))%nat.
Proof. cbn [Csv.join]. rewrite !length_append. lia. Qed.

Lemma rowFrom_lookup (f : string → string) (pre hs : list string) (obj : AnyCsv) (k : string) :
  "__proto__" ∉ hs →
  Csv.rowFrom (length pre) hs (pre ++ (f <$> hs)) obj !! k =
  if decide (k ∈ hs) then Some (f k) else obj !! k.
Proof.
  revert pre obj. induction hs as [| h hs IH]; intros pre obj Hproto.
  - cbn [Csv.rowFrom]. by rewrite decide_False by apply not_elem_of_nil.
  - apply not_elem_of_cons in Hproto as [Hh Hproto].
    cbn [Csv.rowFrom]. rewrite (decide_False (P := h = "__proto__")) by done.
    rewrite fmap_cons.
    rewrite (lookup_app_r pre) by lia. rewrite Nat.sub_diag. cbn [lookup list_lookup].
    change (default "" (Some (f h))) with (f h).
    replace (S (length pre)) with (length (pre ++ [f h])) by (rewrite length_app; cbn; lia).
    replace (pre ++ f h :: (f <$> hs)) with ((pre ++ [f h]) ++ (f <$> hs))
      by (by rewrite <- app_assoc).
    rewrite IH by done.
    destruct (decide (k ∈ hs)) as [Hin | Hnin].
    + by rewrite decide_True by (by right).
    + destruct (decide (k = h)) as [-> | Hne].
      * rewrite lookup_insert_eq. by rewrite decide_True by left.
      * rewrite lookup_insert_ne by done.
        by rewrite decide_False by (by apply not_elem_of_cons).
Qed.

Lemma readBack_lookup (headers : list string) (r : gmap string PrimitiveCsv) (k : string) :
  readBack headers r !! k =
  if decide (k ∈ headers) then Some (Csv.cellText (r !! k)) else None.
Proof.
  unfold readBack. induction headers as [| h hs IH].
  - cbn. by rewrite decide_False by apply not_elem_of_nil.
  - rewrite fmap_cons. cbn [list_to_map foldr]. destruct (decide (k = h)) as [-> | Hne].
    + rewrite lookup_insert_eq. by rewrite decide_True by left.
    + rewrite lookup_insert_ne by done. rewrite IH.
      destruct (decide (k ∈ hs)).
      * by rewrite decide_True by (by right).
      * by rewrite decide_False by (by apply not_elem_of_cons).
Qed.

Lemma member_own (r : gmap string PrimitiveCsv) (h : string) :
  h ∉ Csv.inheritedNames → Csv.member r h = r !! h.
Proof.
  intros Hh. unfold Csv.member. destruct (r !! h); [done |].
  by rewrite bool_decide_eq_false_2.
Qed.

Lemma proto_inherited : "__proto__" ∈ Csv.inheritedNames.
Proof. unfold Csv.inheritedNames. set_solver. Qed.

Lemma rowOfLine_toCSV (headers : list string) (r : gmap string PrimitiveCsv) :
  headers ≠ [] →
  (∀ h, h ∈ headers → h ∉ Csv.inheritedNames) →
  Csv.rowOfLine headers (Csv.join "," ((λ h, Csv.esc (Csv.member r h)) <$> headers))
  = readBack headers r.
Proof.
  intros Hne Hown. unfold Csv.rowOfLine.
  replace ((λ h, Csv.esc (Csv.member r h)) <$> headers)
    with ((λ h, Csv.esc (r !! h)) <$> headers).
  2:{ apply list_fmap_ext. intros i h Hi. rewrite member_own; [done |].
      apply Hown. by eapply list_elem_of_lookup_2. }
  assert (Hproto : "__proto__" ∉ headers).
  { intros Hin. by apply (Hown _ Hin), proto_inherited. }
  destruct headers as [| h hs]; [done |].
  replace ((λ h0, Csv.esc (r !! h0)) <$> h :: hs)
    with (Csv.esc <$> ((λ h0, r !! h0) <$> (h :: hs)))
    by (by rewrite <- list_fmap_compose).
  rewrite fmap_cons, columns_join, append_nil_l.
  replace (Csv.cellText (r !! h) :: (Csv.cellText <$> ((λ h0, r !! h0) <$> hs)))
    with ([] ++ ((λ h0, Csv.cellText (r !! h0)) <$> h :: hs))
    by (by rewrite fmap_cons, <- list_fmap_compose).
  apply map_eq. intros k.
  rewrite readBack_lookup.
  rewrite (rowFrom_lookup (λ h, Csv.cellText (r !! h)) [] (h :: hs) ∅ k) by done.
  by rewrite lookup_empty.
Qed.

Lemma readCsv_toCSV_rows (ownKeys : gmap string PrimitiveCsv → list string)
    (rows : list (gmap string PrimitiveCsv)) (headers : list string) :
  (2 <= length headers)%nat →
  (∀ h, h ∈ headers →
     hasChar Csv.comma h = false ∧ hasChar Csv.lf h = false ∧ hasChar Csv.cr h = false) →
  (∀ r h, r ∈ rows → h ∈ headers →
     hasChar Csv.lf (Csv.cellText (r !! h)) = false ∧
     hasChar Csv.cr (Csv.cellText (r !! h)) = false) →
  (∀ h, h ∈ headers → h ∉ Csv.inheritedNames) →
  Csv.readCsv (Csv.toCSV ownKeys rows (Some headers)) = readBack headers <$> rows.
Proof.
  intros Hlen Hhead Hcells Hown.
  destruct rows as [| r0 rows0]; [done |].
  set (rows := r0 :: rows0) in *.
  unfold Csv.toCSV. change rows with (r0 :: rows0) at 1. cbv iota. unfold Csv.lines.
  destruct headers as [| h1 [| h2 hs]]; [cbn in Hlen; lia | cbn in Hlen; lia |].
  set (headers := h1 :: h2 :: hs) in *.
  set (line := λ r : gmap string PrimitiveCsv,
         Csv.join "," ((λ h, Csv.esc (Csv.member r h)) <$> headers)).
  assert (Hclean : ∀ x, x ∈ Csv.join "," headers :: (line <$> rows) →
            hasChar Csv.lf x = false ∧ hasChar Csv.cr x = false).
  { intros x [-> | Hx]%elem_of_cons.
    - split; apply hasChar_join; try done; intros h Hh; by apply Hhead.
    - apply list_elem_of_fmap in Hx as (r & -> & Hr).
      split; apply hasChar_join; try done;
        intros s (h & -> & Hh)%list_elem_of_fmap;
        rewrite member_own by (by apply Hown);
        rewrite hasChar_esc by done; by apply Hcells. }
  unfold Csv.readCsv. rewrite splitLines_join by done.
  rewrite filter_all.
  2:{ intros x [-> | Hx]%elem_of_cons.
      - pose proof (join_length "," h1 h2 hs) as Hl.
        change (String.length ",") with 1%nat in Hl. unfold headers. lia.
      - apply list_elem_of_fmap in Hx as (r & -> & Hr).
        pose proof (join_length "," (Csv.esc (Csv.member r h1)) (Csv.esc (Csv.member r h2))
                      ((λ h, Csv.esc (Csv.member r h)) <$> hs)) as Hl.
        change (String.length ",") with 1%nat in Hl.
        unfold line, headers. rewrite !fmap_cons. lia. }
  cbv zeta.
  pose proof (split_on_join Csv.comma h1 (h2 :: hs)) as Hsplit.
  change (String Csv.comma "") with "," in Hsplit. fold headers in Hsplit.
  rewrite Hsplit by (intros x Hx; by apply Hhead).
  rewrite <- list_fmap_compose. apply list_fmap_ext. intros i r _.
  unfold compose, line. by apply rowOfLine_toCSV.
Qed.

(** Reading back what [toCSV] wrote under a given header order.  With at
    least two headers, none of which holds a comma, a line feed or a carriage
    return or is the name of a member that objects inherit, and with no line
    feed or carriage return in the text of any cell, [readCsv] returns one
    row for each row written, in the same order, and each row maps every
    header to the text of its cell (the empty text for a null, undefined or
    missing cell). *)
Theorem readCsv_toCSV (ownKeys : gmap string PrimitiveCsv → list string)
    (rows : list (gmap string PrimitiveCsv)) (headers : list string) :
  (2 <= length headers)%nat →
  (∀ h, h ∈ headers →
     hasChar Csv.comma h = false ∧ hasChar Csv.lf h = false ∧ hasChar Csv.cr h = false) →
  (∀ r h, r ∈ rows → h ∈ headers →
     hasChar Csv.lf (Csv.cellText (r !! h)) = false ∧
     hasChar Csv.cr (Csv.cellText (r !! h)) = false) →
  (∀ h, h ∈ headers → h ∉ Csv.inheritedNames) →
  Csv.readCsv (Csv.toCSV ownKeys rows (Some headers)) = readBack headers <$> rows.
Proof. apply readCsv_toCSV_rows. Qed.


Lemma rowFrom_is_Some (idx : nat) (hs cols : list string) (obj : AnyCsv) (k : string) :
  is_Some (Csv.rowFrom idx hs cols obj !! k)
  ↔ (k ∈ hs ∧ k ≠ "__proto__") ∨ is_Some (obj !! k).
Proof.
  revert idx obj. induction hs as [| h hs IH]; intros idx obj.
  - cbn [Csv.rowFrom]. split; [by right | intros [[[]%elem_of_nil _] | ?]; done].
  - cbn [Csv.rowFrom]. rewrite IH, elem_of_cons.
    destruct (decide (h = "__proto__")) as [-> | Hh].
    + split; [intros [[? ?] | ?]; [left | right]; tauto |].
      intros [[[-> | ?] ?] | ?]; [done | left; tauto | by right].
    + destruct (decide (k = h)) as [-> | Hne].
      * rewrite lookup_insert_eq. split; [intros _; left; tauto | intros _; by right].
      * rewrite lookup_insert_ne by done. tauto.
Qed.

(** The shape of what [readCsv] returns.  A content without a non-empty line
    gives no row.  Otherwise the first non-empty line is split at its commas
    into the headers (quotes are not interpreted there), every further
    non-empty line gives one row, and the columns of a row are exactly the
    headers other than [__proto__]: such a header is never missing from a
    row, whatever the line holds, and a row has no other column. *)
Theorem readCsv_shape (content : string) :
  (filter (λ l, (0 < String.length l)%nat) (Csv.splitLines content) = [] →
   Csv.readCsv content = []) ∧
  (∀ headerLine lines,
     filter (λ l, (0 < String.length l)%nat) (Csv.splitLines content)
       = headerLine :: lines →
     length (Csv.readCsv content) = length lines ∧
     ∀ r k, r ∈ Csv.readCsv content →
       (is_Some (r !! k) ↔ k ∈ split_on Csv.comma headerLine ∧ k ≠ "__proto__")).
Proof.
  unfold Csv.readCsv. split.
  - by intros ->.
  - intros headerLine lines ->. cbv zeta. split; [by rewrite length_fmap |].
    intros r k (line & -> & _)%list_elem_of_fmap. unfold Csv.rowOfLine.
    rewrite rowFrom_is_Some, lookup_empty. split; [| by left].
    intros [? | []%is_Some_None]. done.
Qed.

End CsvFacts.

(** ** Command-line arguments *)

Lemma split_on_no_sep (sep : ascii) (s w : string) :
  w ∈ split_on sep s → hasChar sep w = false.
Proof.
  revert w. induction s as [| c s IH]; intros w.
  - cbn [split_on]. by intros ->%list_elem_of_singleton.
  - cbn [split_on]. destruct (Ascii.eqb c sep) eqn:E.
    + intros [-> | Hw]%elem_of_cons; [done | by apply IH].
    + destruct (split_on sep s) as [| w0 ws].
      * intros ->%list_elem_of_singleton. cbn [hasChar]. by rewrite E.
      * intros [-> | Hw]%elem_of_cons.
        -- cbn [hasChar]. rewrite E. apply IH. left.
        -- apply IH. by right.
Qed.

Lemma split_on_head (sep : ascii) (s : string) :
  split_on sep s !! 0%nat = Some (upTo sep s).
Proof.
  induction s as [| c s IH]; [done |].
  cbn [split_on upTo]. destruct (Ascii.eqb c sep); [done |].
  destruct (split_on sep s) as [| w ws]; [done |].
  cbn in IH. injection IH as ->. done.
Qed.

Lemma upTo_id (sep : ascii) (s : string) : hasChar sep s = false → upTo sep s = s.
Proof.
  induction s as [| c s IH]; [done |]. cbn [hasChar upTo].
  intros [E Hs]%orb_false_iff. rewrite E. by rewrite IH.
Qed.

Lemma fromEntries_snoc (pairs : list (string * ArgValue)) (e : string * ArgValue) :
  Cli.fromEntries (pairs ++ [e]) = <[e.1 := e.2]> (Cli.fromEntries pairs).
Proof. unfold Cli.fromEntries. by rewrite foldl_app. Qed.

Lemma fromEntries_lookup (pairs : list (string * ArgValue)) (k : string) :
  Cli.fromEntries pairs !! k = snd <$> last (filter (λ e, e.1 = k) pairs).
Proof.
  induction pairs as [| e pairs IH] using rev_ind; [done |].
  rewrite fromEntries_snoc, filter_app, filter_cons, filter_nil.
  destruct (decide (e.1 = k)) as [<- | Hne].
  - by rewrite lookup_insert_eq, last_snoc.
  - by rewrite lookup_insert_ne, app_nil_r.
Qed.

Lemma argEntry_no_equals (p : string) :
  hasChar "=" (Cli.argEntry p).1 = false ∧
  ∀ s, (Cli.argEntry p).2 = VString s → hasChar "=" s = false.
Proof.
  unfold Cli.argEntry. cbv zeta. cbn [fst snd]. split.
  - rewrite split_on_head. cbn. apply (split_on_no_sep _ (Cli.stripDashes p)).
    apply list_elem_of_lookup. exists 0%nat. apply split_on_head.
  - intros s. destruct (split_on "=" (Cli.stripDashes p) !! 1%nat) as [v |] eqn:E; [| done].
    intros [= <-]. apply (split_on_no_sep _ (Cli.stripDashes p)).
    apply list_elem_of_lookup. by exists 1%nat.
Qed.

(** No key of the record that [parseArgs] returns holds an equals sign, and
    no string value does: an argument is cut at its equals signs, and only
    the first two pieces are kept. *)
Theorem parseArgs_no_equals (argv : list string) (k : string) (v : ArgValue) :
  Cli.parseArgs argv !! k = Some v →
  hasChar "=" k = false ∧ ∀ s, v = VString s → hasChar "=" s = false.
Proof.
  unfold Cli.parseArgs. rewrite fromEntries_lookup.
  destruct (last _) as [e |] eqn:E; [| done]. intros [= <-].
  apply last_Some_elem_of in E.
  apply list_elem_of_filter in E as [<- (p & -> & _)%list_elem_of_fmap].
  apply argEntry_no_equals.
Qed.

Lemma argEntry_pair (k v : string) :
  hasChar "=" k = false →
  Cli.argEntry (String.append "--" (String.append k (String.append "=" v)))
  = (k, VString (upTo "=" v)).
Proof.
  intros Hk. unfold Cli.argEntry. cbv zeta.
  change (Cli.stripDashes (String.append "--" ?x)) with x.
  rewrite split_on_app by done.
  change (String.append "=" v) with (String "=" v). cbn [split_on].
  rewrite Ascii.eqb_refl, append_nil_r. cbn [lookup list_lookup].
  rewrite split_on_head. done.
Qed.

Lemma argEntry_flag (k : string) :
  hasChar "=" k = false →
  Cli.argEntry (String.append "--" k) = (k, VTrue).
Proof.
  intros Hk. unfold Cli.argEntry. cbv zeta.
  change (Cli.stripDashes (String.append "--" k)) with k.
  rewrite <- (append_nil_r k) at 1 2. rewrite split_on_app by done. cbn.
  by rewrite append_nil_r.
Qed.

(** The last argument wins.  Whatever comes before it, a last argument
    [--k=v] sets [k] to the text of [v] up to its first equals sign (the
    rest of [v] is lost), and a last argument [--k] sets [k] to [true].  The
    first two elements of [argv] are never read. *)
Theorem parseArgs_last (argv0 argv1 : string) (rest : list string) (k v : string) :
  hasChar "=" k = false →
  Cli.parseArgs
    (argv0 :: argv1 :: rest
       ++ [String.append "--" (String.append k (String.append "=" v))]) !! k
    = Some (VString (upTo "=" v)) ∧
  Cli.parseArgs (argv0 :: argv1 :: rest ++ [String.append "--" k]) !! k = Some VTrue.
Proof.
  intros Hk. unfold Cli.parseArgs. cbn [drop]. rewrite !drop_0, !fmap_app.
  change (Cli.argEntry <$> [?x]) with [Cli.argEntry x]. rewrite !fromEntries_snoc.
  rewrite argEntry_pair, argEntry_flag by done. cbn [fst snd].
  by rewrite !lookup_insert_eq.
Qed.

(** ** [EnvCliConfigService] *)

Lemma getStringArg_ne (map : gmap string ArgValue) (key fallback : string) :
  fallback ≠ "" → EnvCliConfigService.getStringArg map key fallback ≠ "".
Proof.
  intros Hfb. unfold EnvCliConfigService.getStringArg.
  destruct (map !! key) as [[v |] |]; try done.
  destruct v as [| c v]; done.
Qed.

Lemma truthyS_ne (v : option string) : truthyS v = true → default "" v ≠ "".
Proof. by destruct v as [[| c s] |]. Qed.

(** [getConfig] throws exactly when the environment has no non-empty
    [KRL_TOKEN].  When it returns, the token is the one of the environment,
    and no field of the configuration is the empty string: an argument given
    with an empty value falls back to the default. *)
Theorem getConfig_spec (argv : list string) (env : gmap string string) :
  ((∃ msg, EnvCliConfigService.getConfig argv env = Thrown msg) ↔
   truthyS (env !! "KRL_TOKEN") = false) ∧
  (∀ cfg, EnvCliConfigService.getConfig argv env = Returned cfg →
     env !! "KRL_TOKEN" = Some (AppConfig.token cfg) ∧
     AppConfig.token cfg ≠ "" ∧ AppConfig.apiBase cfg ≠ "" ∧
     AppConfig.outDir cfg ≠ "" ∧ AppConfig.stationId cfg ≠ "" ∧
     AppConfig.timeFrom cfg ≠ "" ∧ AppConfig.timeTo cfg ≠ "").
Proof.
  unfold EnvCliConfigService.getConfig. cbv zeta.
  destruct (truthyS (env !! "KRL_TOKEN")) eqn:Etok; cbn [negb].
  - split; [split; [by intros [msg ?] | done] |].
    intros cfg [= <-]. cbn.
    split; [by destruct (env !! "KRL_TOKEN") as [[| c s] |] |].
    split; [by apply truthyS_ne |].
    split; [by destruct (truthyS (EnvCliConfigService.stripSlash <$> env !! "KRL_API_BASE")) eqn:E;
              [apply truthyS_ne |] |].
    repeat split; repeat apply getStringArg_ne; done.
  - split; [split; [done | by eexists] | done].
Qed.

(** ** Times of day *)

Section TimeFacts.
Context `{JsRuntime}.

Lemma split_on_plain (sep : ascii) (s : string) :
  hasChar sep s = false → split_on sep s = [s].
Proof.
  intros Hs. rewrite <- (append_nil_r s) at 1. rewrite split_on_app by done.
  cbn. by rewrite append_nil_r.
Qed.

(** A time that is undefined, empty or written without a colon has no
    minute value: each of the three [hmsToMin] returns null for it, whatever
    [Number] makes of the text. *)
Theorem hmsToMin_rejects (hms : option string) :
  hasChar ":" (default "" hms) = false →
  Through.hmsToMin hms = None ∧ ThroughCommand.hmsToMin hms = None ∧
  DefaultTimeService.hmsToMin hms = None.
Proof.
  intros Hc.
  unfold Through.hmsToMin, ThroughCommand.hmsToMin, DefaultTimeService.hmsToMin.
  destruct (truthyS hms); cbn [negb]; [| done]. cbv zeta.
  rewrite split_on_plain by done. cbn [lookup list_lookup NumberU Js.isNaN].
  by rewrite orb_true_r.
Qed.

(** The two conversions differ in the seconds.  They return null on the same
    texts; where the one of [through.ts] returns a finite number [x], the one
    of the scraper returns a finite [y] that is not below it: the analysis
    drops the seconds short of a minute, which the scraper keeps. *)
Theorem hmsToMin_floor (hms : option string) :
  (Through.hmsToMin hms = None ↔ DefaultTimeService.hmsToMin hms = None) ∧
  (∀ x, Through.hmsToMin hms = Some (Fin x) →
     ∃ y, DefaultTimeService.hmsToMin hms = Some (Fin y) ∧ (x <= y)%Q).
Proof.
  unfold Through.hmsToMin, DefaultTimeService.hmsToMin.
  destruct (negb (truthyS hms)); [split; [done | discriminate] |]. cbv zeta.
  generalize (NumberU (split_on ":" (default "" hms) !! 0%nat)).
  generalize (NumberU (split_on ":" (default "" hms) !! 1%nat)).
  generalize (NumberU (Some (default "0" (split_on ":" (default "" hms) !! 2%nat)))).
  intros s m h.
  assert (E60 : Qeq_bool (inject_Z 60) 0 = false) by done.
  destruct h as [| sh | h], m as [| sm | m]; cbn [Js.isNaN orb];
    try (split; [done | discriminate]);
    (split; [done |]); intros x [= Hx]; revert Hx;
    destruct s as [| ss | s]; unfold Js.mul, Js.div, Js.add, Js.floor, Js.of_Z, Js.zero;
    cbn [Js.isNaN]; rewrite ?E60; repeat case_match; try discriminate.
  - intros Hx. assert (Hx' := f_equal (λ n, match n with Fin q => q | _ => 0%Q end) Hx).
    cbv beta iota in Hx'. subst x. eexists. split; [reflexivity |]. lra.
  - intros Hx. assert (Hx' := f_equal (λ n, match n with Fin q => q | _ => 0%Q end) Hx).
    cbv beta iota in Hx'. subst x. eexists. split; [reflexivity |].
    pose proof (Qfloor_le (s / inject_Z 60)) as Hlo. lra.
Qed.

(** The duration between two times that the scraper writes.  It is null
    exactly when one of the two times has no minute value.  Between two
    minute values [x] and [y] in [0, 1440] it lies in [0, 1440].  Between two
    whole minutes of the day it is [(y - x) mod 1440], at most 1439: [y - x]
    when [x <= y], and [y - x + 1440] otherwise, the arrival being taken to
    be on the next day. *)
Theorem diffMin_spec (aHms bHms : option string) :
  (DefaultTimeService.diffMin aHms bHms = None ↔
   DefaultTimeService.hmsToMin aHms = None ∨ DefaultTimeService.hmsToMin bHms = None) ∧
  (∀ x y,
     DefaultTimeService.hmsToMin aHms = Some (Fin x) →
     DefaultTimeService.hmsToMin bHms = Some (Fin y) →
     (0 <= x)%Q → (x <= 1440)%Q → (0 <= y)%Q → (y <= 1440)%Q →
     ∃ d, DefaultTimeService.diffMin aHms bHms = Some (Fin d) ∧
          (0 <= d)%Q ∧ (d <= 1440)%Q ∧
          (isInteger x → isInteger y → (x < 1440)%Q → (y < 1440)%Q →
             (d == Qmod (y - x) 1440)%Q ∧ (d <= 1439)%Q ∧
             ((x <= y)%Q → (d == y - x)%Q) ∧ ((y < x)%Q → (d == y - x + 1440)%Q))).
Proof.
  unfold DefaultTimeService.diffMin. cbv zeta. split.
  - destruct (DefaultTimeService.hmsToMin aHms), (DefaultTimeService.hmsToMin bHms);
      split; try done; try (by left); try (by right); by intros [? | ?].
  - intros x y -> -> Hx0 Hx1 Hy0 Hy1.
    unfold DefaultTimeService.MIN_IN_DAY. cbn [Js.sub Js.neg Js.add].
    change Js.zero with (Fin 0).
    destruct (Js.lt (Fin (y + - x)) (Fin 0)) eqn:E.
    + apply lt_Fin in E. eexists. split; [reflexivity |].
      cbn [Js.of_Z Js.add]. change (inject_Z (24 * 60)) with 1440%Q.
      split; [lra |]. split; [lra |].
      intros [zx Hzx] [zy Hzy] Hx2 Hy2.
      split; [rewrite Qmod_wrap; lra |]. split; [| split; intros; lra].
      assert (inject_Z zy < inject_Z zx)%Q as Hlt by lra.
      rewrite <- Zlt_Qlt in Hlt.
      assert (inject_Z (zy + 1) <= inject_Z zx)%Q as Hle
        by (rewrite <- Zle_Qle; lia).
      rewrite inject_Z_plus in Hle. change (inject_Z 1) with 1%Q in Hle. lra.
    + apply lt_Fin_false in E. eexists. split; [reflexivity |].
      split; [lra |]. split; [lra |].
      intros [zx Hzx] [zy Hzy] Hx2 Hy2.
      split; [rewrite Qmod_small; lra |]. split; [| split; intros; lra].
      assert (inject_Z zy < inject_Z 1440)%Q as Hlt by (change (inject_Z 1440) with 1440%Q; lra).
      rewrite <- Zlt_Qlt in Hlt.
      assert (inject_Z zy <= inject_Z 1439)%Q as Hle by (rewrite <- Zle_Qle; lia).
      change (inject_Z 1439) with 1439%Q in Hle. lra.
Qed.

End TimeFacts.

(** ** The HTTP client *)

Section HttpFacts.
Context {T : Type}.

Lemma sleepsBefore_S (k : nat) :
  sleepsBefore (S k) = sleepsBefore k ++ [(750 * (Z.of_nat k + 1))%Z].
Proof. unfold sleepsBefore. by rewrite seq_S, fmap_app. Qed.

Lemma attemptsFrom_fails (attempt : nat → Outcome T) (retries : Z) (n k fuel : nat) :
  (Z.of_nat (k + n) <= retries)%Z → (n < fuel)%nat →
  (∀ j, (k <= j < k + n)%nat → ∃ e, attempt j = Thrown e) →
  FetchHttpClient.attemptsFrom fuel attempt retries k =
  let '(r, sleeps) :=
    FetchHttpClient.attemptsFrom (fuel - n) attempt retries (k + n) in
  (r, ((λ i, (750 * (Z.of_nat i + 1))%Z) <$> seq k n) ++ sleeps).
Proof.
  revert k fuel. induction n as [| n IH]; intros k fuel Hle Hfuel Hfail.
  - rewrite Nat.sub_0_r, Nat.add_0_r. by destruct (FetchHttpClient.attemptsFrom _ _ _ _).
  - destruct fuel as [| fuel]; [lia |]. cbn [FetchHttpClient.attemptsFrom].
    rewrite (proj2 (Z.leb_le _ _)) by lia.
    destruct (Hfail k) as [e ->]; [lia |].
    rewrite (proj2 (Z.eqb_neq _ _)) by lia.
    rewrite (IH (S k) fuel) by (try lia; intros j Hj; apply Hfail; lia).
    replace (S k + n)%nat with (k + S n)%nat by lia.
    replace (S fuel - S n)%nat with (fuel - n)%nat by lia.
    by destruct (FetchHttpClient.attemptsFrom _ _ _ _).
Qed.

(** The retry loop of [getJSON], for a whole number of retries that is not
    negative.  The call returns the body of the first attempt that succeeds,
    if it is among the first [retries + 1]; before it, the call slept 750 ms
    times the number of the failed attempt after each failure.  If all
    [retries + 1] attempts fail, the call throws what the last one threw, and
    does not sleep after it.  No attempt is made beyond these. *)
Theorem getJSON_spec (attempt : nat → Outcome T) (retries : Z) (k : nat) :
  (Z.of_nat k <= retries)%Z →
  (∀ j, (j < k)%nat → ∃ e, attempt j = Thrown e) →
  (∀ v, attempt k = Returned v →
     FetchHttpClient.getJSON attempt retries = (Returned v, sleepsBefore k)) ∧
  (∀ e, attempt k = Thrown e → Z.of_nat k = retries →
     FetchHttpClient.getJSON attempt retries = (Thrown e, sleepsBefore k)).
Proof.
  intros Hk Hfail. unfold FetchHttpClient.getJSON.
  rewrite (attemptsFrom_fails attempt retries k 0) by (try lia; intros j Hj; apply Hfail; lia).
  cbn [Nat.add]. replace (Z.to_nat (retries + 1) + 1 - k)%nat
    with (S (Z.to_nat (retries + 1) - k)) by lia.
  cbn [FetchHttpClient.attemptsFrom]. rewrite (proj2 (Z.leb_le _ _)) by lia.
  fold (sleepsBefore k). split.
  - intros v ->. by rewrite app_nil_r.
  - intros e -> Heq. rewrite (proj2 (Z.eqb_eq _ _)) by lia. by rewrite app_nil_r.
Qed.

End HttpFacts.

(** ** Legs grouped by train *)

Lemma map_fmap {X Y : Type} (f : X → Y) (l : list X) : map f l = f <$> l.
Proof. induction l as [| x l IH]; [done |]. cbn. by rewrite IH. Qed.

Lemma byTrainLeg_step_eq (m : list (string * list LegOut.t)) (l : LegOut.t) :
  Analyze.byTrainLeg_step m l =
  JsMap.set (LegOut.train_id l) (default [] (JsMap.get (LegOut.train_id l) m) ++ [l]) m.
Proof.
  unfold Analyze.byTrainLeg_step, JsMap.has.
  generalize (LegOut.train_id l). intros tid.
  destruct (JsMap.get tid m) eqn:E; [by rewrite E |].
  by rewrite get_set_eq, set_set.
Qed.

Lemma groupLegsByTrain_elem_of (legs : list LegOut.t) (tid : string) (arr : list LegOut.t) :
  (tid, arr) ∈ Analyze.groupLegsByTrain legs ↔
  legsOfTrain tid legs ≠ [] ∧ arr = Arr.sort Analyze.bySeq (legsOfTrain tid legs).
Proof.
  unfold Analyze.groupLegsByTrain. cbv zeta. rewrite map_fmap, list_elem_of_fmap.
  split.
  - intros ([k arr0] & [= -> ->] & Hin).
    apply (grouping_elem_of LegOut.train_id (λ arr r, arr ++ [r]) [] _ byTrainLeg_step_eq)
      in Hin as [Hne ->].
    rewrite foldl_snoc_id. by cbn.
  - intros [Hne ->]. exists (tid, legsOfTrain tid legs). split; [done |].
    apply (grouping_elem_of LegOut.train_id (λ arr r, arr ++ [r]) [] _ byTrainLeg_step_eq).
    split; [done |]. by rewrite foldl_snoc_id.
Qed.

Lemma groupLegsByTrain_keys (legs : list LegOut.t) :
  (Analyze.groupLegsByTrain legs).*1 = (foldl Analyze.byTrainLeg_step [] legs).*1.
Proof.
  unfold Analyze.groupLegsByTrain. cbv zeta.
  induction (foldl Analyze.byTrainLeg_step [] legs) as [| [k arr] m IH]; [done |].
  cbn. by f_equal.
Qed.

Lemma groupLegsByTrain_NoDup (legs : list LegOut.t) :
  NoDup (Analyze.groupLegsByTrain legs).*1.
Proof.
  rewrite groupLegsByTrain_keys.
  apply (grouping_NoDup LegOut.train_id (λ arr r, arr ++ [r]) [] _ byTrainLeg_step_eq).
Qed.

Lemma bySeq_sorted (legs : list LegOut.t) :
  (∀ l, l ∈ legs → Js.isFinite (LegOut.seq l) = true) →
  StronglySorted (λ a b, Js.le (LegOut.seq a) (LegOut.seq b))
    (Arr.sort Analyze.bySeq legs).
Proof.
  intros Hfin. apply sort_sorted.
  - intros x y z. apply Js_le_trans.
  - intros x y Hx%Hfin Hy%Hfin. unfold Analyze.bySeq, Js.gt.
    destruct (LegOut.seq x) as [| | p], (LegOut.seq y) as [| | q]; try done.
    cbn [Js.sub Js.neg Js.add]. intros E%lt_Fin. cbn [Js.le]. lra.
  - intros x y Hx%Hfin Hy%Hfin. unfold Analyze.bySeq, Js.gt.
    destruct (LegOut.seq x) as [| | p], (LegOut.seq y) as [| | q]; try done.
    cbn [Js.sub Js.neg Js.add]. intros E%lt_Fin_false. cbn [Js.le]. lra.
Qed.

(** [groupLegsByTrain] files every leg under its train.  The trains listed
    are distinct; the group of a train is never empty and holds exactly the
    legs of that train, each as often as it is given; and when every sequence
    number is finite the group is in ascending order of sequence number. *)
Theorem groupLegsByTrain_spec (legs : list LegOut.t) :
  NoDup (Analyze.groupLegsByTrain legs).*1 ∧
  (∀ tid arr, (tid, arr) ∈ Analyze.groupLegsByTrain legs →
     arr ≠ [] ∧ arr ≡ₚ legsOfTrain tid legs ∧
     ((∀ l, l ∈ legs → Js.isFinite (LegOut.seq l) = true) →
      StronglySorted (λ a b, Js.le (LegOut.seq a) (LegOut.seq b)) arr)) ∧
  (∀ l, l ∈ legs →
     ∃ arr, (LegOut.train_id l, arr) ∈ Analyze.groupLegsByTrain legs ∧ l ∈ arr).
Proof.
  split; [apply groupLegsByTrain_NoDup |]. split.
  - intros tid arr [Hne ->]%groupLegsByTrain_elem_of. split; [| split].
    + intros E. apply Hne. apply Permutation_nil_r. rewrite <- E. symmetry. apply sort_perm.
    + apply sort_perm.
    + intros Hfin. apply bySeq_sorted. intros l [_ Hl]%list_elem_of_filter. by apply Hfin.
  - intros l Hl. exists (Arr.sort Analyze.bySeq (legsOfTrain (LegOut.train_id l) legs)).
    assert (l ∈ legsOfTrain (LegOut.train_id l) legs) as Hin
      by (by apply list_elem_of_filter).
    split.
    + apply groupLegsByTrain_elem_of. split; [| done]. intros E. rewrite E in Hin.
      by apply elem_of_nil in Hin.
    + by apply elem_of_sort.
Qed.

(** ** The audit counters *)

Lemma countOf_cons {A : Type} (P : A → bool) (x : A) (l : list A) :
  countOf P (x :: l) = ((if P x then 1 else 0) + countOf P l)%nat.
Proof.
  unfold countOf. rewrite filter_cons. destruct (P x) eqn:E.
  - by rewrite decide_True.
  - by rewrite decide_False.
Qed.

Lemma lt_zero_negative (l : LegOut.t) (v : Q) :
  LegOut.leg_minutes l = Some v → Js.lt (Fin v) Js.zero = isNegativeLeg l.
Proof.
  intros E. unfold isNegativeLeg. rewrite E. destruct (Qlt_le_dec v 0) as [Hlt | Hle].
  - by apply lt_Fin.
  - by apply lt_Fin_false.
Qed.

Lemma gt_60_over (l : LegOut.t) (v : Q) :
  LegOut.leg_minutes l = Some v → Js.gt (Fin v) (Js.of_Z 60) = isOver60Leg l.
Proof.
  intros E. unfold isOver60Leg, Js.gt, Js.of_Z. rewrite E.
  change (inject_Z 60) with 60%Q. destruct (Qlt_le_dec 60 v) as [Hlt | Hle].
  - by apply lt_Fin.
  - by apply lt_Fin_false.
Qed.

Lemma foldl_count_step (c : Counters.t) (legs : list LegOut.t) :
  let c' := foldl AnalyzeMain.count_step c legs in
  Counters.total c' = (Counters.total c + length legs)%nat ∧
  Counters.nullCount c' = (Counters.nullCount c + countOf isNullLeg legs)%nat ∧
  Counters.negCount c' = (Counters.negCount c + countOf isNegativeLeg legs)%nat ∧
  Counters.over60 c' = (Counters.over60 c + countOf isOver60Leg legs)%nat.
Proof.
  revert c. induction legs as [| l legs IH]; intros c.
  - cbn. unfold countOf. cbn. lia.
  - cbn [foldl]. cbv zeta. destruct (IH (AnalyzeMain.count_step c l)) as (-> & -> & -> & ->).
    rewrite !countOf_cons. cbn [length]. unfold AnalyzeMain.count_step.
    destruct (LegOut.leg_minutes l) as [v |] eqn:E.
    + cbn [Counters.total Counters.nullCount Counters.negCount Counters.over60].
      rewrite (lt_zero_negative l v E), (gt_60_over l v E).
      unfold isNullLeg. rewrite E.
      destruct (isNegativeLeg l), (isOver60Leg l); lia.
    + cbn [Counters.total Counters.nullCount Counters.negCount Counters.over60].
      unfold isNullLeg, isNegativeLeg, isOver60Leg. rewrite E. lia.
Qed.

Lemma counts_disjoint (legs : list LegOut.t) :
  (countOf isNullLeg legs + countOf isNegativeLeg legs + countOf isOver60Leg legs
   <= length legs)%nat.
Proof.
  induction legs as [| l legs IH]; [done |].
  rewrite !countOf_cons. cbn [length].
  unfold isNullLeg at 1, isNegativeLeg at 1, isOver60Leg at 1.
  destruct (LegOut.leg_minutes l) as [v |]; [| lia].
  destruct (Qlt_le_dec v 0), (Qlt_le_dec 60 v); try lia. lra.
Qed.

(** The counters of the audit summary.  [total_legs] is the number of legs,
    [null_legs] the number of legs without a duration, [negative_legs] the
    number of durations below zero and [over60min_legs] the number of
    durations above 60.  No leg is counted in two of the last three, so their
    sum never exceeds the total. *)
Theorem audit_counters (legs : list LegOut.t) :
  Counters.total (AnalyzeMain.counters legs) = length legs ∧
  Counters.nullCount (AnalyzeMain.counters legs) = countOf isNullLeg legs ∧
  Counters.negCount (AnalyzeMain.counters legs) = countOf isNegativeLeg legs ∧
  Counters.over60 (AnalyzeMain.counters legs) = countOf isOver60Leg legs ∧
  (Counters.nullCount (AnalyzeMain.counters legs)
   + Counters.negCount (AnalyzeMain.counters legs)
   + Counters.over60 (AnalyzeMain.counters legs)
   <= Counters.total (AnalyzeMain.counters legs))%nat.
Proof.
  unfold AnalyzeMain.counters.
  destruct (foldl_count_step
              {| Counters.nullCount := 0; Counters.negCount := 0; Counters.over60 := 0;
                 Counters.total := 0 |} legs) as (Ht & Hn & Hg & Ho).
  cbv zeta in Ht, Hn, Hg, Ho. cbn in Ht, Hn, Hg, Ho.
  rewrite Ht, Hn, Hg, Ho. repeat split; try done. apply counts_disjoint.
Qed.

(** ** Continuity of the legs of a train *)

Lemma breaksFrom_le (breaks : nat) (seq : list LegOut.t) :
  (breaks <= AnalyzeMain.breaksFrom breaks seq
   ∧ AnalyzeMain.breaksFrom breaks seq <= breaks + (length seq - 1))%nat.
Proof.
  revert breaks. induction seq as [| a rest IH]; intros breaks; [cbn; lia |].
  cbn [AnalyzeMain.breaksFrom]. destruct rest as [| b rest']; [cbn; lia |].
  specialize (IH (if bool_decide (LegOut.to_station a ≠ LegOut.from_station b)
                  then (breaks + 1)%nat else breaks)).
  cbn [length] in *. destruct (bool_decide _); lia.
Qed.

Lemma continuityRows_elem_of (legs : list LegOut.t) (tid : string) (n : nat) :
  (tid, n) ∈ AnalyzeMain.continuityRows legs ↔
  legsOfTrain tid legs ≠ [] ∧
  n = AnalyzeMain.breaksFrom 0 (Arr.sort Analyze.bySeq (legsOfTrain tid legs)).
Proof.
  unfold AnalyzeMain.continuityRows. rewrite list_elem_of_fmap. split.
  - intros ([k arr] & [= -> ->] & [Hne ->]%groupLegsByTrain_elem_of). done.
  - intros [Hne ->]. exists (tid, Arr.sort Analyze.bySeq (legsOfTrain tid legs)).
    split; [done |]. by apply groupLegsByTrain_elem_of.
Qed.

(** The rows of the continuity report.  There is one row for each train that
    has a leg, and no other row; the number of breaks of a train is below the
    number of its legs, so a train with a single leg has none. *)
Theorem continuityRows_spec (legs : list LegOut.t) :
  NoDup (AnalyzeMain.continuityRows legs).*1 ∧
  (∀ tid, tid ∈ (AnalyzeMain.continuityRows legs).*1 ↔
          ∃ l, l ∈ legs ∧ LegOut.train_id l = tid) ∧
  (∀ tid n, (tid, n) ∈ AnalyzeMain.continuityRows legs →
            (n < length (legsOfTrain tid legs))%nat).
Proof.
  split; [| split].
  - assert ((AnalyzeMain.continuityRows legs).*1 = (Analyze.groupLegsByTrain legs).*1) as ->;
      [| apply groupLegsByTrain_NoDup].
    unfold AnalyzeMain.continuityRows.
    induction (Analyze.groupLegsByTrain legs) as [| [k arr] m IH]; [done |].
    cbn. by f_equal.
  - intros tid. rewrite list_elem_of_fmap. split.
    + intros ([k n] & -> & [Hne _]%continuityRows_elem_of). cbn [fst].
      destruct (legsOfTrain k legs) as [| l ls] eqn:E; [done |].
      exists l. assert (l ∈ legsOfTrain k legs) as Hin by (rewrite E; left).
      apply list_elem_of_filter in Hin as [? ?]. done.
    + intros (l & Hl & <-).
      exists (LegOut.train_id l,
              AnalyzeMain.breaksFrom 0
                (Arr.sort Analyze.bySeq (legsOfTrain (LegOut.train_id l) legs))).
      split; [done |]. apply continuityRows_elem_of. split; [| done].
      intros E. assert (l ∈ legsOfTrain (LegOut.train_id l) legs) as Hin
        by (by apply list_elem_of_filter).
      rewrite E in Hin. by apply elem_of_nil in Hin.
  - intros tid n [Hne ->]%continuityRows_elem_of.
    pose proof (breaksFrom_le 0 (Arr.sort Analyze.bySeq (legsOfTrain tid legs))) as [_ Hle].
    rewrite length_sort in Hle.
    destruct (legsOfTrain tid legs); [done |]. cbn [length] in *. lia.
Qed.

Lemma sort_id {A : Type} (cmp : A → A → JsNum) (l : list A) :
  (∀ i j x y, (i < j)%nat → l !! i = Some x → l !! j = Some y →
              Js.gt (cmp x y) Js.zero = false) →
  Arr.sort cmp l = l.
Proof.
  induction l as [| x l IH]; intros Hord; [done |].
  unfold Arr.sort. cbn [foldr]. fold (Arr.sort cmp l). rewrite IH.
  - destruct l as [| y l']; [done |]. cbn [Arr.sort_insert].
    by rewrite (Hord 0%nat 1%nat x y) by (lia || done).
  - intros i j a b Hij Ha Hb. apply (Hord (S i) (S j)); [lia | done | done].
Qed.

Section ContinuityFacts.
Context `{JsRuntime}.

Lemma breaksFrom_legsFrom (breaks : nat) (tid : string) (i : nat) (stops : list AnyCsv) :
  AnalyzeMain.breaksFrom breaks (Analyze.legsFrom tid i stops) = breaks.
Proof.
  revert i. induction stops as [| a rest IH]; intros i; [done |].
  cbn [Analyze.legsFrom]. destruct rest as [| b rest']; [done |].
  specialize (IH (i + 1)%nat). cbn [Analyze.legsFrom] in IH |- *.
  destruct rest' as [| c rest'']; [done |].
  cbn [AnalyzeMain.breaksFrom] in IH |- *.
  cbn [Analyze.legBetween LegOut.to_station LegOut.from_station] in IH |- *.
  rewrite bool_decide_eq_false_2 by (by intros []). exact IH.
Qed.

Lemma legsFrom_sorted (tid : string) (stops : list AnyCsv) :
  Arr.sort Analyze.bySeq (Analyze.legsFrom tid 0 stops) = Analyze.legsFrom tid 0 stops.
Proof.
  apply sort_id. intros i j x y Hij. rewrite legsFrom_imap.
  intros ([a b] & _ & ->)%list_lookup_imap_Some ([a' b'] & _ & ->)%list_lookup_imap_Some.
  unfold Analyze.bySeq, Js.gt. cbn [Analyze.legBetween LegOut.seq Js.sub Js.neg Js.add Js.of_nat].
  apply lt_Fin_false. rewrite <- Qplus_opp_r with (q := inject_Z (Z.of_nat (0 + j + 1))).
  apply Qplus_le_l. rewrite <- Zle_Qle. lia.
Qed.

(** Legs derived from a stops file are continuous: the continuity report of
    [deriveLegsFromStops] counts no break for any train, whatever the rows
    hold, since every derived leg starts at the stop where the previous one
    of its train ends. *)
Theorem derived_legs_continuous (rows : list AnyCsv) (tid : string) (n : nat) :
  (tid, n) ∈ AnalyzeMain.continuityRows (Analyze.deriveLegsFromStops rows) → n = 0%nat.
Proof.
  intros [_ ->]%continuityRows_elem_of.
  rewrite deriveLegsFromStops_train.
  rewrite <- (legsFrom_imap tid 0 (stopsOfTrain tid rows)).
  rewrite legsFrom_sorted. apply breaksFrom_legsFrom.
Qed.

End ContinuityFacts.

(** ** The series of the compare mode *)

Lemma dedupe_from_NoDup (acc l : list string) :
  NoDup acc →
  NoDup (foldl (λ acc x, if bool_decide (x ∈ acc) then acc else acc ++ [x]) acc l).
Proof.
  revert acc. induction l as [| x l IH]; intros acc Hacc; [done |].
  cbn [foldl]. apply IH. case_bool_decide; [done |].
  apply NoDup_app. split; [done |]. split; [| apply NoDup_singleton].
  intros y Hy ->%list_elem_of_singleton. done.
Qed.

Lemma elem_of_dedupe_from (acc l : list string) (y : string) :
  y ∈ foldl (λ acc x, if bool_decide (x ∈ acc) then acc else acc ++ [x]) acc l
  ↔ y ∈ acc ∨ y ∈ l.
Proof.
  revert acc. induction l as [| x l IH]; intros acc.
  - cbn. split; [by left | intros [? | []%elem_of_nil]; done].
  - cbn [foldl]. rewrite IH, elem_of_cons. case_bool_decide as Hx.
    + split; [tauto |]. intros [? | [-> | ?]]; tauto.
    + rewrite elem_of_app, list_elem_of_singleton. tauto.
Qed.

Lemma dedupe_NoDup (l : list string) : NoDup (Analyze.dedupe l).
Proof. apply dedupe_from_NoDup, NoDup_nil_2. Qed.

Lemma elem_of_dedupe (l : list string) (y : string) : y ∈ Analyze.dedupe l ↔ y ∈ l.
Proof.
  unfold Analyze.dedupe. rewrite elem_of_dedupe_from.
  split; [intros [[]%elem_of_nil | ?]; done | by right].
Qed.

Lemma elem_of_set {V : Type} (k k' : string) (v v' : V) (m : list (string * V)) :
  (k', v') ∈ JsMap.set k v m → (k' = k ∧ v' = v) ∨ (k', v') ∈ m.
Proof.
  induction m as [| [k0 v0] m IH]; cbn [JsMap.set].
  - intros [= -> ->]%list_elem_of_singleton. by left.
  - destruct (String.eqb k0 k) eqn:E.
    + apply String.eqb_eq in E as ->.
      intros [[= -> ->] | Hin]%elem_of_cons; [by left | right; by right].
    + intros [[= -> ->] | Hin]%elem_of_cons; [right; left |].
      destruct (IH Hin) as [? | ?]; [by left | right; by right].
Qed.

Lemma elem_of_takeUntilDest (dest : string) (seq : list LegOut.t) (x : LegOut.t) :
  x ∈ Analyze.takeUntilDest dest seq → x ∈ seq.
Proof.
  induction seq as [| leg seq IH]; [done |]. cbn [Analyze.takeUntilDest].
  intros [-> | Hx]%elem_of_cons; [left |]. right.
  destruct (bool_decide _); [by apply elem_of_nil in Hx | by apply IH].
Qed.

Lemma extractSegments_inv (P : LegOut.t → Prop) (startStation : string)
    (byTrain : list (string * list LegOut.t)) (trains : gmap string TrainMeta) :
  (∀ tid seq x, (tid, seq) ∈ byTrain → x ∈ seq → P x) →
  NoDup (Analyze.extractSegments startStation byTrain trains).*1 ∧
  ∀ dest legs, (dest, legs) ∈ Analyze.extractSegments startStation byTrain trains →
    dest ≠ "" ∧ legs ≠ [] ∧ ∀ x, x ∈ legs → P x.
Proof.
  unfold Analyze.extractSegments.
  induction byTrain as [| [tid seq] byTrain IH] using rev_ind; intros HP.
  - cbn. split; [apply NoDup_nil_2 | intros ? ? []%elem_of_nil].
  - rewrite foldl_app. cbn [foldl].
    destruct IH as [IHnd IH].
    { intros tid' seq' x Hin Hx. apply (HP tid' seq'); [apply elem_of_app; by left | done]. }
    set (res := foldl _ [] byTrain) in *.
    unfold Analyze.extractSegments_step.
    destruct (Arr.findIndex _ seq <? 0)%Z; [done |]. cbv zeta.
    set (dest := if truthyS (trains !! tid ≫= tm_dest) then _ else _).
    destruct (truthyS (Some dest)) eqn:Edest; cbn [negb]; [| done].
    set (taken := Analyze.takeUntilDest dest _).
    destruct (length taken =? 0)%nat eqn:Elen; [done |].
    split; [by apply set_NoDup |].
    intros dest' legs [[-> ->] | Hin]%elem_of_set; [| by apply IH].
    split; [by destruct dest |]. split.
    + intros [_ E]%app_eq_nil. rewrite E in Elen. done.
    + intros x [Hx | Hx]%elem_of_app.
      * destruct (JsMap.get dest res) as [cur |] eqn:Ecur; [| by apply elem_of_nil in Hx].
        apply get_Some_elem_of in Ecur. by apply (IH dest cur).
      * apply (HP tid seq); [apply elem_of_app; right; left |].
        apply elem_of_takeUntilDest in Hx. by apply subseteq_drop in Hx.
Qed.

Lemma labelsFrom_spec (legs : list LegOut.t) :
  (legs ≠ [] → Analyze.labelsFrom (Some legs) ≠ []) ∧
  ∀ lab, lab ∈ Analyze.labelsFrom (Some legs) → ∃ l, l ∈ legs ∧ lab = Analyze.label l.
Proof.
  destruct legs as [| l0 legs0]; [split; [done | intros ? []%elem_of_nil] |].
  unfold Analyze.labelsFrom. set (legs := l0 :: legs0).
  set (step := λ (labels : list string) (l : LegOut.t), _).
  assert (Hinv : ∀ ls acc,
            (acc ≠ [] ∨ ls ≠ []) →
            (∀ lab, lab ∈ acc → ∃ l, l ∈ legs ∧ lab = Analyze.label l) →
            (∀ l, l ∈ ls → l ∈ legs) →
            foldl step acc ls ≠ [] ∧
            ∀ lab, lab ∈ foldl step acc ls → ∃ l, l ∈ legs ∧ lab = Analyze.label l).
  { induction ls as [| l ls IH]; intros acc Hne Hacc Hls.
    - cbn. split; [by destruct Hne | done].
    - cbn [foldl]. apply IH.
      + left. unfold step. destruct acc as [| a acc']; [by cbn |].
        by destruct (_ || _).
      + intros lab. unfold step. destruct (_ || _); [| apply Hacc].
        intros [Hl | ->%list_elem_of_singleton]%elem_of_app; [by apply Hacc |].
        exists l. split; [apply Hls; left | done].
      + intros l' Hl'. apply Hls. by right. }
  destruct (Hinv legs []) as [Hne Hin]; [by right | intros ? []%elem_of_nil | done |].
  split; [done | exact Hin].
Qed.

Lemma avgByLabel_length (labelOrder : list string) (legs : option (list LegOut.t)) :
  length (Analyze.avgByLabel labelOrder legs) = length labelOrder.
Proof. unfold Analyze.avgByLabel. by rewrite length_fmap. Qed.

(** The series of the compare mode.  There is one series for each
    destination, and no destination is the empty string.  The labels of a
    series are not empty and hold no label twice; each is the label of a leg
    given to the function; and the two lists of averages have one entry for
    each label, so the three columns of the table line up. *)
Theorem buildCompareSeries_shape (startStation : string) (legsA legsB : list LegOut.t)
    (trainsA trainsB : gmap string TrainMeta) :
  NoDup (SeriesPerDest.dest
           <$> Analyze.buildCompareSeries startStation legsA legsB trainsA trainsB) ∧
  ∀ s, s ∈ Analyze.buildCompareSeries startStation legsA legsB trainsA trainsB →
    SeriesPerDest.dest s ≠ "" ∧
    SeriesPerDest.labels s ≠ [] ∧
    NoDup (SeriesPerDest.labels s) ∧
    length (SeriesPerDest.avgA s) = length (SeriesPerDest.labels s) ∧
    length (SeriesPerDest.avgB s) = length (SeriesPerDest.labels s) ∧
    ∀ lab, lab ∈ SeriesPerDest.labels s →
           ∃ l, l ∈ legsA ++ legsB ∧ lab = Analyze.label l.
Proof.
  unfold Analyze.buildCompareSeries. cbv zeta.
  set (segsA := Analyze.extractSegments startStation (Analyze.groupLegsByTrain legsA) trainsA).
  set (segsB := Analyze.extractSegments startStation (Analyze.groupLegsByTrain legsB) trainsB).
  destruct (extractSegments_inv (λ x, x ∈ legsA ++ legsB) startStation
              (Analyze.groupLegsByTrain legsA) trainsA) as [HndA HA].
  { intros tid seq x [_ ->]%groupLegsByTrain_elem_of Hx%elem_of_sort.
    apply list_elem_of_filter in Hx as [_ Hx]. apply elem_of_app. by left. }
  destruct (extractSegments_inv (λ x, x ∈ legsA ++ legsB) startStation
              (Analyze.groupLegsByTrain legsB) trainsB) as [HndB HB].
  { intros tid seq x [_ ->]%groupLegsByTrain_elem_of Hx%elem_of_sort.
    apply list_elem_of_filter in Hx as [_ Hx]. apply elem_of_app. by right. }
  fold segsA in HndA, HA. fold segsB in HndB, HB.
  split.
  - rewrite <- list_fmap_compose. unfold compose. cbn [SeriesPerDest.dest].
    rewrite list_fmap_id. apply dedupe_NoDup.
  - intros s (dest & -> & Hdest)%list_elem_of_fmap.
    cbn [SeriesPerDest.dest SeriesPerDest.labels SeriesPerDest.avgA SeriesPerDest.avgB].
    rewrite !avgByLabel_length.
    rewrite filter_all by done.
    apply elem_of_dedupe, elem_of_app in Hdest.
    assert (HgetA : ∀ legs, JsMap.get dest segsA = Some legs →
              dest ≠ "" ∧ legs ≠ [] ∧ ∀ x, x ∈ legs → x ∈ legsA ++ legsB).
    { intros legs Hget%get_Some_elem_of. by apply HA. }
    assert (HgetB : ∀ legs, JsMap.get dest segsB = Some legs →
              dest ≠ "" ∧ legs ≠ [] ∧ ∀ x, x ∈ legs → x ∈ legsA ++ legsB).
    { intros legs Hget%get_Some_elem_of. by apply HB. }
    assert (Hlab : ∀ segs lab,
              (∀ legs, JsMap.get dest segs = Some legs →
                 dest ≠ "" ∧ legs ≠ [] ∧ ∀ x, x ∈ legs → x ∈ legsA ++ legsB) →
              lab ∈ Analyze.labelsFrom (JsMap.get dest segs) →
              ∃ l, l ∈ legsA ++ legsB ∧ lab = Analyze.label l).
    { intros segs lab Hget Hin. destruct (JsMap.get dest segs) as [legs |] eqn:E;
        [| by apply elem_of_nil in Hin].
      apply labelsFrom_spec in Hin as (l & Hl & ->). exists l. split; [| done].
      by apply (Hget legs eq_refl). }
    assert (Hsome : ∀ segs,
              (∀ legs, JsMap.get dest segs = Some legs →
                 dest ≠ "" ∧ legs ≠ [] ∧ ∀ x, x ∈ legs → x ∈ legsA ++ legsB) →
              dest ∈ segs.*1 →
              dest ≠ "" ∧ Analyze.labelsFrom (JsMap.get dest segs) ≠ []).
    { intros segs Hget Hin. destruct (JsMap.get dest segs) as [legs |] eqn:E.
      - destruct (Hget legs eq_refl) as (? & ? & _). split; [done |].
        by apply labelsFrom_spec.
      - by apply get_None in E. }
    split; [| split; [| split; [apply dedupe_NoDup | split; [done | split; [done |]]]]].
    + destruct Hdest as [Hd | Hd]; [by apply (Hsome segsA) | by apply (Hsome segsB)].
    + intros E.
      assert (∀ lab, lab ∉ Analyze.labelsFrom (JsMap.get dest segsA)
                             ++ Analyze.labelsFrom (JsMap.get dest segsB)) as Hnone.
      { intros lab Hlab'%elem_of_dedupe. rewrite E in Hlab'. by apply elem_of_nil in Hlab'. }
      destruct Hdest as [Hd | Hd].
      * destruct (Hsome segsA HgetA Hd) as [_ Hne].
        destruct (Analyze.labelsFrom (JsMap.get dest segsA)) as [| lab labs]; [done |].
        apply (Hnone lab). left.
      * destruct (Hsome segsB HgetB Hd) as [_ Hne].
        destruct (Analyze.labelsFrom (JsMap.get dest segsB)) as [| lab labs]; [done |].
        apply (Hnone lab). apply elem_of_app. right. left.
    + intros lab [Hin | Hin]%elem_of_dedupe%elem_of_app.
      * by apply (Hlab segsA).
      * by apply (Hlab segsB).
Qed.

(** ** The segment statistics of the command *)

Lemma command_agg_step_eq (s : list (string * Stats.t) * list (string * (string * string)))
    (r : LegOut.t) :
  AnalyzeCommand.agg_step s r = Analyze.agg_step s r.
Proof.
  destruct s as [agg keyInfo]. unfold AnalyzeCommand.agg_step, Analyze.agg_step.
  cbv zeta. unfold Analyze.pushStat, Analyze.segmentKey, Analyze.emptyStats.
  by destruct (LegOut.leg_minutes r).
Qed.

Lemma foldl_ext_eq {X Y : Type} (f g : Y → X → Y) (a : Y) (l : list X) :
  (∀ a x, f a x = g a x) → foldl f a l = foldl g a l.
Proof.
  intros Hfg. revert a. induction l as [| x l IH]; intros a; [done |].
  cbn. by rewrite Hfg, IH.
Qed.

(** The segment statistics of [AnalyzeCommand.run], which updates the
    statistics in the loop itself, are those of [analyze.ts], which calls
    [pushStat]: the same rows in the same order, for every list of legs. *)
Theorem command_segRows_agree (legs : list LegOut.t) :
  AnalyzeCommand.segRows legs = Analyze.segRows legs.
Proof.
  unfold AnalyzeCommand.segRows, Analyze.segRows, Analyze.aggregate.
  rewrite (foldl_ext_eq AnalyzeCommand.agg_step Analyze.agg_step)
    by apply command_agg_step_eq.
  by destruct (foldl Analyze.agg_step ([], []) legs).
Qed.

(** ** The rows of the scraper *)

Section ScraperFacts.
Context `{JsRuntime}.

Lemma rowsFrom_stops (t : TrainSummaryRow.t) (stationId : string)
    (header : option TrainStop.t) (i : nat) (prev : option TrainStop.t)
    (rest : list TrainStop.t) :
  (AppOrchestrator.rowsFrom t stationId header i prev rest).1
  = imap (λ j s, AppOrchestrator.stopRow t stationId header (i + j) s) rest.
Proof.
  revert i prev. induction rest as [| s rest IH]; intros i prev; [done |].
  cbn [AppOrchestrator.rowsFrom]. specialize (IH (S i) (Some s)).
  destruct (AppOrchestrator.rowsFrom t stationId header (S i) (Some s) rest) as [ss ls].
  cbn [fst] in *. rewrite imap_cons, Nat.add_0_r, IH. f_equal.
  apply imap_ext. intros j s' _. cbn. f_equal. lia.
Qed.

Lemma rowsFrom_legs (t : TrainSummaryRow.t) (stationId : string)
    (header : option TrainStop.t) (i : nat) (prev : TrainStop.t)
    (rest : list TrainStop.t) :
  (AppOrchestrator.rowsFrom t stationId header (S i) (Some prev) rest).2
  = imap (λ j ps, AppOrchestrator.legRow t (S i + j) ps.1 ps.2) (zip (prev :: rest) rest).
Proof.
  revert i prev. induction rest as [| s rest IH]; intros i prev; [done |].
  cbn [AppOrchestrator.rowsFrom]. specialize (IH (S i) s).
  destruct (AppOrchestrator.rowsFrom t stationId header (S (S i)) (Some s) rest) as [ss ls].
  cbn [snd] in *. change (0 <? S i)%nat with true. cbv iota.
  cbn [zip zip_with]. rewrite imap_cons. cbn [fst snd]. rewrite Nat.add_0_r, IH. f_equal.
  apply imap_ext. intros j s' _. cbn. f_equal. lia.
Qed.

Lemma rowsFrom_top (t : TrainSummaryRow.t) (stationId : string)
    (header : option TrainStop.t) (stops : list TrainStop.t) :
  AppOrchestrator.rowsFrom t stationId header 0 None stops
  = (imap (AppOrchestrator.stopRow t stationId header) stops,
     imap (λ j ps, AppOrchestrator.legRow t (j + 1) ps.1 ps.2) (zip stops (drop 1 stops))).
Proof.
  rewrite (surjective_pairing (AppOrchestrator.rowsFrom _ _ _ _ _ _)).
  rewrite rowsFrom_stops. f_equal.
  destruct stops as [| s rest]; [done |].
  cbn [AppOrchestrator.rowsFrom].
  pose proof (rowsFrom_legs t stationId header 0 s rest) as Hlegs.
  destruct (AppOrchestrator.rowsFrom t stationId header 1 (Some s) rest) as [ss ls].
  cbn [snd] in *. rewrite Hlegs. cbn [drop]. rewrite drop_0.
  apply imap_ext. intros j ps _. cbn. f_equal. lia.
Qed.

(** The rows written for one train whose stops were fetched.  There is one
    stop row for each stop, numbered from 0 in the order of the API, and one
    leg row for each pair of adjacent stops.  The leg of index [i] joins the
    stop rows of indices [i] and [i + 1]: it carries their indices and their
    station names, and its duration is null when one of the two stop rows
    has no minute value, and otherwise the difference of their minute
    values, 1440 being added when the difference is negative. *)
Theorem scraped_legs_join_stops (stationId : string) (t : TrainSummaryRow.t)
    (stops : list TrainStop.t) :
  ∃ localStops localLegs,
    AppOrchestrator.trainResult stationId t (Returned stops)
      = TrainResult.ok localStops localLegs (TrainSummaryRow.train_id t) ∧
    length localStops = length stops ∧
    length localLegs = (length stops - 1)%nat ∧
    (∀ i a, localStops !! i = Some a → StopRow.stop_index a = i) ∧
    ∀ i leg, localLegs !! i = Some leg →
      ∃ a b, localStops !! i = Some a ∧ localStops !! (i + 1)%nat = Some b ∧
        LegRow.from_index leg = StopRow.stop_index a ∧
        LegRow.to_index leg = StopRow.stop_index b ∧
        LegRow.from_station leg = StopRow.station_name a ∧
        LegRow.to_station leg = StopRow.station_name b ∧
        LegRow.leg_minutes leg =
          match StopRow.time_est_min a, StopRow.time_est_min b with
          | Some x, Some y =>
              Some (if Js.lt (Js.sub y x) Js.zero
                    then Js.add (Js.sub y x) (Js.of_Z 1440) else Js.sub y x)
          | _, _ => None
          end.
Proof.
  unfold AppOrchestrator.trainResult. rewrite rowsFrom_top.
  eexists _, _. split; [reflexivity |].
  split; [by rewrite length_imap |].
  split; [rewrite length_imap, length_zip, length_drop; lia |].
  split.
  - intros i a (s & _ & ->)%list_lookup_imap_Some. done.
  - intros i leg ([a b] & Hab & ->)%list_lookup_imap_Some.
    apply lookup_zip_with_Some in Hab as (a' & b' & [= <- <-] & Ha & Hb).
    rewrite lookup_drop in Hb. cbn [fst snd].
    exists (AppOrchestrator.stopRow t stationId (head stops) i a),
           (AppOrchestrator.stopRow t stationId (head stops) (i + 1) b).
    split; [by rewrite list_lookup_imap, Ha |].
    split; [rewrite list_lookup_imap; replace (i + 1)%nat with (1 + i)%nat by lia;
            by rewrite Hb |].
    cbn [AppOrchestrator.legRow AppOrchestrator.stopRow LegRow.from_index LegRow.to_index
         LegRow.from_station LegRow.to_station LegRow.leg_minutes StopRow.stop_index
         StopRow.station_name StopRow.time_est_min].
    split; [lia |]. split; [done |]. split; [done |]. split; [done |].
    unfold DefaultTimeService.diffMin. cbv zeta.
    by destruct (DefaultTimeService.hmsToMin (Some (TrainStop.time_est a))),
                (DefaultTimeService.hmsToMin (Some (TrainStop.time_est b))).
Qed.

End ScraperFacts.

(** ** From the files of the scraper to the legs of the analysis *)

Ltac in_header := repeat (first [apply list_elem_of_here | apply list_elem_of_further]).

Section PipelineFacts.
Context `{JsRuntime} `{JsFormat}.

Lemma readBack_cell (headers : list string) (r : gmap string PrimitiveCsv) (k : string) :
  k ∈ headers → readBack headers r !! k = Some (Csv.cellText (r !! k)).
Proof. intros Hk. by rewrite readBack_lookup, decide_True. Qed.

Lemma header_clean (headers : list string) :
  forallb (λ h, negb (hasChar Csv.comma h) && negb (hasChar Csv.lf h)
                && negb (hasChar Csv.cr h)) headers = true →
  ∀ h, h ∈ headers →
    hasChar Csv.comma h = false ∧ hasChar Csv.lf h = false ∧ hasChar Csv.cr h = false.
Proof.
  intros Hall h Hh%list_elem_of_In. rewrite forallb_forall in Hall.
  specialize (Hall h Hh). apply andb_prop in Hall as [Hall H3].
  apply andb_prop in Hall as [H1 H2].
  by rewrite (negb_true_iff _), (negb_true_iff _), (negb_true_iff _) in *.
Qed.

Lemma header_own (headers : list string) :
  forallb (λ h, bool_decide (h ∉ Csv.inheritedNames)) headers = true →
  ∀ h, h ∈ headers → h ∉ Csv.inheritedNames.
Proof.
  intros Hall h Hh%list_elem_of_In. rewrite forallb_forall in Hall.
  specialize (Hall h Hh). by apply bool_decide_eq_true in Hall.
Qed.

Lemma or_of_nat (n : nat) (x : JsNum) :
  Js.or (Js.of_nat n) x = if (n =? 0)%nat then x else Js.of_nat n.
Proof.
  unfold Js.or, Js.of_nat, Js.truthy. destruct n as [| n]; [done |].
  change (S n =? 0)%nat with false. cbv iota.
  destruct (Qeq_bool (inject_Z (Z.of_nat (S n))) 0) eqn:E; [| done].
  apply Qeq_bool_eq in E. unfold Qeq in E. cbn in E. lia.
Qed.

(** What the analysis makes of the [legs.csv] that the scraper writes, when
    no text of the file holds a line break and the indices survive printing
    ([Number(String(i))] is [i]).  [loadLegs] returns one leg for each leg
    row, with its train and its two stations.  The sequence number of a leg
    is its [from_index], except that a leg with [from_index] 0, the first leg
    of a train, gets the position of its row in the file, counted from 1.  A
    null duration is written as the empty text and, [Number] of the empty
    text being 0, read back as 0 minutes; a finite duration that survives
    printing is read back as it was. *)
Theorem loadLegs_of_scraped (legsAll : list LegRow.t) (stopsFile : option (list AnyCsv)) :
  Number "" = Fin 0 →
  (∀ l, l ∈ legsAll →
     Number (numberToString (Js.of_nat (LegRow.from_index l)))
       = Js.of_nat (LegRow.from_index l)) →
  (∀ r h, r ∈ AppOrchestrator.legCells <$> legsAll → h ∈ AppOrchestrator.legsHeader →
     hasChar Csv.lf (Csv.cellText (r !! h)) = false ∧
     hasChar Csv.cr (Csv.cellText (r !! h)) = false) →
  ∃ legs,
    Analyze.loadLegs (Some (Csv.readCsv (AppOrchestrator.legsCsv legsAll))) stopsFile
      = Returned legs ∧
    length legs = length legsAll ∧
    ∀ i l, legsAll !! i = Some l →
      ∃ leg, legs !! i = Some leg ∧
        LegOut.train_id leg = LegRow.train_id l ∧
        LegOut.from_station leg = LegRow.from_station l ∧
        LegOut.to_station leg = LegRow.to_station l ∧
        LegOut.seq leg =
          Js.of_nat (if (LegRow.from_index l =? 0)%nat then i + 1 else LegRow.from_index l) ∧
        (LegRow.leg_minutes l = None → LegOut.leg_minutes leg = Some 0%Q) ∧
        (∀ q q', LegRow.leg_minutes l = Some (Fin q) →
                 Number (numberToString (Fin q)) = Fin q' →
                 LegOut.leg_minutes leg = Some q').
Proof.
  intros Hempty Hnum Hclean.
  unfold AppOrchestrator.legsCsv.
  rewrite readCsv_toCSV_rows;
    [| cbn; lia | by apply header_clean | done | by apply header_own].
  cbn [Analyze.loadLegs]. eexists. split; [reflexivity |].
  split; [by rewrite length_imap, !length_fmap |].
  intros i l Hl. rewrite list_lookup_imap, !list_lookup_fmap, Hl. cbn [fmap option_fmap option_map].
  eexists. split; [reflexivity |].
  unfold Analyze.legOfRow.
  cbn [LegOut.train_id LegOut.from_station LegOut.to_station LegOut.seq LegOut.leg_minutes].
  rewrite !readBack_cell by in_header.
  change (AppOrchestrator.legCells l !! "train_id") with (Some (PString (LegRow.train_id l))).
  change (AppOrchestrator.legCells l !! "from_station")
    with (Some (PString (LegRow.from_station l))).
  change (AppOrchestrator.legCells l !! "to_station")
    with (Some (PString (LegRow.to_station l))).
  change (AppOrchestrator.legCells l !! "from_index")
    with (Some (PNumber (Js.of_nat (LegRow.from_index l)))).
  change (AppOrchestrator.legCells l !! "leg_minutes")
    with (Some (AppOrchestrator.numberOrNull (LegRow.leg_minutes l))).
  cbn [Csv.cellText NumberU]. split; [done |]. split; [done |]. split; [done |].
  split.
  - rewrite (Hnum l) by (by apply (list_elem_of_lookup_2 legsAll i l)).
    rewrite or_of_nat. by destruct (LegRow.from_index l =? 0)%nat.
  - unfold Analyze.toNum. split.
    + intros ->. cbn [AppOrchestrator.numberOrNull Csv.cellText]. by rewrite Hempty.
    + intros q q' -> Hq. cbn [AppOrchestrator.numberOrNull Csv.cellText]. by rewrite Hq.
Qed.


Lemma derive_single_train (rows : list AnyCsv) (tid : string) :
  (∀ r, r ∈ rows → trainIdOf r = tid) →
  Analyze.deriveLegsFromStops rows =
  imap (λ i ab, Analyze.legBetween tid i ab.1 ab.2)
       (zip (stopsOfTrain tid rows) (drop 1 (stopsOfTrain tid rows))).
Proof.
  intros Hall. rewrite <- deriveLegsFromStops_train. unfold legsOfTrain.
  rewrite filter_all; [done |].
  intros leg. unfold Analyze.deriveLegsFromStops. cbv zeta.
  intros ([k arr] & Hin & Hleg)%list_elem_of_In%in_flat_map.
  apply list_elem_of_In in Hin. apply list_elem_of_In in Hleg.
  apply legsFrom_train_id in Hleg as ->.
  apply groupByTrain_elem_of in Hin as [Hne Harr].
  destruct arr as [| r arr']; [done |].
  assert (r ∈ filter (λ r, trainIdOf r = k) rows) as Hr by (rewrite <- Harr; left).
  apply list_elem_of_filter in Hr as [<- Hr]. by apply Hall.
Qed.

Lemma stopCells_readBack (a : StopRow.t) :
  trainIdOf (readBack AppOrchestrator.stopsHeader (AppOrchestrator.stopCells a))
    = StopRow.train_id a ∧
  readBack AppOrchestrator.stopsHeader (AppOrchestrator.stopCells a) !! "stop_index"
    = Some (numberToString (Js.of_nat (StopRow.stop_index a))) ∧
  readBack AppOrchestrator.stopsHeader (AppOrchestrator.stopCells a) !! "station_name"
    = Some (StopRow.station_name a) ∧
  readBack AppOrchestrator.stopsHeader (AppOrchestrator.stopCells a) !! "time_est_min"
    = Some (Csv.cellText (Some (AppOrchestrator.numberOrNull (StopRow.time_est_min a)))).
Proof.
  unfold trainIdOf. rewrite !readBack_cell by in_header. done.
Qed.

Lemma wrap_agree (x y x' y' : Q) :
  (x' == x)%Q → (y' == y)%Q →
  ∃ m m',
    (if Js.lt (Js.sub (Fin y) (Fin x)) Js.zero
     then Js.add (Js.sub (Fin y) (Fin x)) (Js.of_Z (24 * 60))
     else Js.sub (Fin y) (Fin x)) = Fin m ∧
    (if Js.qneg (y' - x') then (y' - x' + inject_Z (24 * 60))%Q else (y' - x')%Q) = m' ∧
    (m' == m)%Q.
Proof.
  intros Hx Hy. unfold Js.zero, Js.of_Z. cbn [Js.sub Js.neg Js.add].
  destruct (Js.lt (Fin (y + - x)) (Fin 0)) eqn:E1;
    destruct (Js.qneg (y' - x')) eqn:E2; eexists _, _;
    (split; [reflexivity |]); (split; [reflexivity |]).
  - lra.
  - apply lt_Fin in E1. apply qneg_false in E2. lra.
  - apply lt_Fin_false in E1. apply qneg_true in E2. lra.
  - lra.
Qed.

(** The legs that the analysis derives from the [stops.csv] of one fetched
    train are the legs that the scraper wrote for it, when no text of the
    file holds a line break and the stop indices survive printing.  There
    are as many; the derived leg of index [i] has the train and the two
    stations of the leg row of index [i], and its sequence number is the
    [to_index] of that row; and when the minute values of its two stops are
    finite and survive printing, the two durations are equal. *)
Theorem derived_of_scraped (stationId : string) (t : TrainSummaryRow.t)
    (stops : list TrainStop.t) (localStops : list StopRow.t) (localLegs : list LegRow.t)
    (tid : string) :
  AppOrchestrator.trainResult stationId t (Returned stops)
    = TrainResult.ok localStops localLegs tid →
  (∀ a, a ∈ localStops →
     Number (numberToString (Js.of_nat (StopRow.stop_index a)))
       = Js.of_nat (StopRow.stop_index a)) →
  (∀ r h, r ∈ AppOrchestrator.stopCells <$> localStops → h ∈ AppOrchestrator.stopsHeader →
     hasChar Csv.lf (Csv.cellText (r !! h)) = false ∧
     hasChar Csv.cr (Csv.cellText (r !! h)) = false) →
  length (Analyze.deriveLegsFromStops (Csv.readCsv (AppOrchestrator.stopsCsv localStops)))
    = length localLegs ∧
  ∀ i leg, localLegs !! i = Some leg →
    ∃ d,
      Analyze.deriveLegsFromStops (Csv.readCsv (AppOrchestrator.stopsCsv localStops)) !! i
        = Some d ∧
      LegOut.train_id d = LegRow.train_id leg ∧
      LegOut.seq d = Js.of_nat (LegRow.to_index leg) ∧
      LegOut.from_station d = LegRow.from_station leg ∧
      LegOut.to_station d = LegRow.to_station leg ∧
      ∀ a b x y x' y',
        localStops !! i = Some a → localStops !! (i + 1)%nat = Some b →
        StopRow.time_est_min a = Some (Fin x) → StopRow.time_est_min b = Some (Fin y) →
        Number (numberToString (Fin x)) = Fin x' →
        Number (numberToString (Fin y)) = Fin y' →
        (x' == x)%Q → (y' == y)%Q →
        ∃ m m', LegRow.leg_minutes leg = Some (Fin m) ∧
                LegOut.leg_minutes d = Some m' ∧ (m' == m)%Q.
Proof.
  unfold AppOrchestrator.trainResult. rewrite rowsFrom_top.
  intros [= <- <- <-] Hnum Hclean.
  set (localStops := imap (AppOrchestrator.stopRow t stationId (head stops)) stops) in *.
  set (R := λ a, readBack AppOrchestrator.stopsHeader (AppOrchestrator.stopCells a)).
  unfold AppOrchestrator.stopsCsv.
  rewrite readCsv_toCSV_rows;
    [| cbn; lia | by apply header_clean | done | by apply header_own].
  rewrite <- list_fmap_compose. change (readBack _ ∘ _) with R.
  set (tid := TrainSummaryRow.train_id t).
  assert (Htid : ∀ r, r ∈ R <$> localStops → trainIdOf r = tid).
  { intros r (a & -> & Ha)%list_elem_of_fmap.
    destruct (stopCells_readBack a) as (Ht & _). unfold R. rewrite Ht.
    apply list_elem_of_lookup in Ha as [i Ha].
    apply list_lookup_imap_Some in Ha as (s & _ & ->). done. }
  rewrite (derive_single_train _ tid Htid).
  assert (Hsorted : stopsOfTrain tid (R <$> localStops) = R <$> localStops).
  { unfold stopsOfTrain. rewrite filter_all by done.
    apply sort_id. intros i j ra rb Hij.
    rewrite !list_lookup_fmap.
    intros (a & Ha & ->)%fmap_Some (b & Hb & ->)%fmap_Some.
    unfold sequenceIndex, R.
    destruct (stopCells_readBack a) as (_ & -> & _).
    destruct (stopCells_readBack b) as (_ & -> & _).
    cbn [NumberU].
    rewrite (Hnum a) by (by apply (list_elem_of_lookup_2 localStops i a)).
    rewrite (Hnum b) by (by apply (list_elem_of_lookup_2 localStops j b)).
    apply list_lookup_imap_Some in Ha as (sa & _ & ->).
    apply list_lookup_imap_Some in Hb as (sb & _ & ->).
    cbn [AppOrchestrator.stopRow StopRow.stop_index].
    rewrite !or_of_nat. unfold Js.gt.
    assert (∀ n, (if (n =? 0)%nat then Js.zero else Js.of_nat n) = Js.of_nat n) as Hz
      by (by intros [| n]).
    rewrite !Hz. cbn [Js.of_nat Js.sub Js.neg Js.add].
    apply lt_Fin_false.
    rewrite <- (Qplus_opp_r (inject_Z (Z.of_nat j))).
    apply Qplus_le_l. rewrite <- Zle_Qle. lia. }
  rewrite Hsorted.
  split.
  - rewrite !length_imap, !length_zip, !length_drop, !length_fmap. unfold localStops.
    by rewrite length_imap.
  - intros i leg ([s1 s2] & Hss & ->)%list_lookup_imap_Some.
    apply lookup_zip_with_Some in Hss as (s1' & s2' & [= <- <-] & Hs1 & Hs2).
    rewrite lookup_drop in Hs2. cbn [fst snd].
    set (a := AppOrchestrator.stopRow t stationId (head stops) i s1).
    set (b := AppOrchestrator.stopRow t stationId (head stops) (1 + i) s2).
    assert (Ha : localStops !! i = Some a) by (unfold localStops; by rewrite list_lookup_imap, Hs1).
    assert (Hb : localStops !! (1 + i)%nat = Some b)
      by (unfold localStops; by rewrite list_lookup_imap, Hs2).
    exists (Analyze.legBetween tid i (R a) (R b)).
    split.
    { rewrite list_lookup_imap.
      assert (zip (R <$> localStops) (drop 1 (R <$> localStops)) !! i = Some (R a, R b)) as ->;
        [| done].
      apply lookup_zip_with_Some. exists (R a), (R b). split; [done |].
      rewrite lookup_drop, !list_lookup_fmap, Ha, Hb. done. }
    unfold Analyze.legBetween.
    cbn [LegOut.train_id LegOut.seq LegOut.from_station LegOut.to_station LegOut.leg_minutes].
    destruct (stopCells_readBack a) as (_ & _ & Hsa & Hma).
    destruct (stopCells_readBack b) as (_ & _ & Hsb & Hmb).
    fold (R a) in Hsa, Hma. fold (R b) in Hsb, Hmb. rewrite Hsa, Hsb, Hma, Hmb.
    split; [done |]. split; [done |]. split; [done |]. split; [done |].
    intros a' b' x y x' y' Ha' Hb' Hx Hy Hx' Hy' Hxx Hyy.
    rewrite Ha in Ha'. replace (i + 1)%nat with (1 + i)%nat in Hb' by lia. rewrite Hb in Hb'.
    injection Ha' as <-. injection Hb' as <-.
    rewrite Hx, Hy. cbn [AppOrchestrator.numberOrNull Csv.cellText].
    unfold Analyze.toNum. rewrite Hx', Hy'.
    cbn [AppOrchestrator.legRow LegRow.leg_minutes].
    unfold DefaultTimeService.diffMin. cbv zeta.
    change (DefaultTimeService.hmsToMin (Some (TrainStop.time_est s1)))
      with (StopRow.time_est_min a).
    change (DefaultTimeService.hmsToMin (Some (TrainStop.time_est s2)))
      with (StopRow.time_est_min b).
    rewrite Hx, Hy.
    destruct (wrap_agree x y x' y' Hxx Hyy) as (m & m' & Hm & Hm' & Hmm).
    exists m, m'. unfold DefaultTimeService.MIN_IN_DAY. rewrite Hm, Hm'. done.
Qed.

End PipelineFacts.

(** ** [loadTrains] and [main] of [through.ts] *)

Section MainFacts.
Context `{JsRuntime}.

Lemma loadTrains_step_lookup (rows : list AnyCsv) (tid : string) :
  foldl ThroughMain.loadTrains_step ∅ rows !! tid =
  if decide (tid = "") then None
  else metaOfRow <$> last (filter (λ r, r !! "train_id" = Some tid) rows).
Proof.
  induction rows as [| r rows IH] using rev_ind.
  - cbn. by destruct (decide (tid = "")).
  - rewrite foldl_app, filter_app, filter_cons, filter_nil. cbn [foldl].
    unfold ThroughMain.loadTrains_step at 1.
    destruct (r !! "train_id") as [id |] eqn:E.
    + destruct id as [| c id].
      * cbn [truthyS negb]. rewrite IH. destruct (decide (tid = "")) as [-> | Hne]; [done |].
        rewrite decide_False by congruence. by rewrite app_nil_r.
      * cbn [truthyS negb]. change (default "" (Some (String c id))) with (String c id).
        destruct (decide (String c id = tid)) as [<- | Hne].
        -- rewrite lookup_insert_eq, decide_False by done.
           rewrite decide_True by done. by rewrite last_snoc.
        -- rewrite lookup_insert_ne by done. rewrite IH.
           rewrite (decide_False (P := Some (String c id) = Some tid)) by congruence.
           by rewrite app_nil_r.
    + cbn [truthyS negb]. rewrite IH.
      rewrite (decide_False (P := None = Some tid)) by done. by rewrite app_nil_r.
Qed.

(** The train metadata that [loadTrains] returns.  A file that cannot be
    read gives the empty map.  Otherwise the metadata of a train is taken
    from the last row of [trains.csv] with its id, and the rows without an
    id, or with the empty id, are left out: the map never has the empty
    string as a key. *)
Theorem loadTrains_spec (content : option string) (tid : string) :
  (content = None → ThroughMain.loadTrains content !! tid = None) ∧
  (∀ c, content = Some c →
     ThroughMain.loadTrains content !! "" = None ∧
     (tid ≠ "" →
      ThroughMain.loadTrains content !! tid =
      metaOfRow <$> last (filter (λ r, r !! "train_id" = Some tid) (Csv.readCsv c)))).
Proof.
  split.
  - by intros ->.
  - intros c ->. cbn [ThroughMain.loadTrains]. rewrite !loadTrains_step_lookup.
    split; [done |]. intros Hne. by rewrite decide_False.
Qed.

Lemma limited_spec {A : Type} (o : Options.t) (arr : list A) :
  (arr ≠ [] → ThroughMain.limited o arr ≠ []) ∧
  (∀ x, x ∈ ThroughMain.limited o arr → x ∈ arr) ∧
  ((Options.limitNum o <= 0)%Z → ThroughMain.limited o arr = arr) ∧
  ((0 < Options.limitNum o)%Z →
   ThroughMain.limited o arr = take (Z.to_nat (Options.limitNum o)) arr).
Proof.
  unfold ThroughMain.limited.
  destruct (Options.limitNum o >? 0)%Z eqn:E.
  - apply Z.gtb_lt in E. split; [| split; [| split]]; try done; try lia.
    + destruct arr as [| x arr]; [done |]. intros _.
      destruct (Z.to_nat (Options.limitNum o)) as [| n] eqn:En; [lia | done].
    + intros x Hx. by apply subseteq_take in Hx.
  - rewrite Z.gtb_ltb in E. apply Z.ltb_ge in E.
    split; [| split; [| split]]; try done; lia.
Qed.

Lemma orderedThrough_perm (o : Options.t) (stops : list AnyCsv)
    (trains : gmap string TrainMeta) :
  ThroughMain.orderedThrough o stops trains
  ≡ₚ Through.findThrough stops trains (Options.via o) (Options.dest o).
Proof.
  unfold ThroughMain.orderedThrough. cbv zeta.
  destruct (bool_decide _); [apply sort_perm | done].
Qed.

Lemma orderedPairs_perm (o : Options.t) (stopsPre stopsPost : list AnyCsv)
    (trains : gmap string TrainMeta) :
  ThroughMain.orderedPairs o stopsPre stopsPost trains
  ≡ₚ Through.buildTransferPairs stopsPre stopsPost trains
       (Options.via o) (Options.dest o) (Options.maxWaitMin o).
Proof.
  unfold ThroughMain.orderedPairs. cbv zeta.
  destruct (bool_decide _); [apply sort_perm |].
  destruct (bool_decide _); [apply sort_perm | done].
Qed.

Lemma report_cases (o : Options.t) (stopsPre stopsPost : list AnyCsv)
    (trainsPre trainsPost : gmap string TrainMeta) :
  reported o stopsPre stopsPost (trainsPost ∪ trainsPre)
    (ThroughMain.report o stopsPre stopsPost trainsPre trainsPost).
Proof.
  unfold ThroughMain.report, reported. cbv zeta.
  pose proof (orderedThrough_perm o (stopsPre ++ stopsPost) (trainsPost ∪ trainsPre)) as Hth.
  pose proof (orderedPairs_perm o stopsPre stopsPost (trainsPost ∪ trainsPre)) as Hps.
  destruct (limited_spec o
              (ThroughMain.orderedThrough o (stopsPre ++ stopsPost) (trainsPost ∪ trainsPre)))
    as (Hne1 & Hin1 & Hall1 & Htake1).
  destruct (limited_spec o
              (ThroughMain.orderedPairs o stopsPre stopsPost (trainsPost ∪ trainsPre)))
    as (Hne2 & Hin2 & Hall2 & Htake2).
  destruct (length (ThroughMain.orderedThrough _ _ _) =? 0)%nat eqn:E1.
  - apply Nat.eqb_eq, nil_length_inv in E1. rewrite E1 in Hth.
    apply Permutation_nil_l in Hth.
    destruct (length (ThroughMain.orderedPairs _ _ _ _) =? 0)%nat eqn:E2.
    + apply Nat.eqb_eq, nil_length_inv in E2. rewrite E2 in Hps.
      by apply Permutation_nil_l in Hps.
    + apply Nat.eqb_neq in E2.
      split; [done |]. split; [apply Hne2; by intros E; rewrite E in E2 |].
      split; [intros p Hp%Hin2; by rewrite <- Hps |].
      split; [intros Hle; by rewrite (Hall2 Hle) |].
      intros Hlt. rewrite (Htake2 Hlt), length_take. by rewrite Hps.
  - apply Nat.eqb_neq in E1.
    split; [apply Hne1; by intros E; rewrite E in E1 |].
    split; [intros r Hr%Hin1; by rewrite <- Hth |].
    split; [intros Hle; by rewrite (Hall1 Hle) |].
    intros Hlt. rewrite (Htake1 Hlt), length_take. by rewrite Hth.
Qed.

(** What [main] does.  It prints the usage when the arguments name neither
    both of [--a] and [--b] nor both of [--pre] and [--post].  Otherwise it
    fails exactly when one of the two [stops.csv] cannot be read (a
    [trains.csv] that cannot be read is no error).  Otherwise it reports on
    the rows of the two files: through trains whenever there is one, and then
    no transfer is looked for; transfer pairs only when no train runs
    through; nothing only when there is neither.  What is listed is never
    empty and holds only results of [findThrough] (of [buildTransferPairs])
    on these rows: all of them, each once, without a positive limit, and
    [limit] of them at most with one. *)
Theorem main_spec (readFile : string → string → option string) (argv : list string) :
  match ThroughMain.main readFile argv with
  | ReportUsage => ThroughMain.needsUsage (ThroughMain.options (Cli.parseArgs argv)) = true
  | ReportFailed =>
      ThroughMain.needsUsage (ThroughMain.options (Cli.parseArgs argv)) = false ∧
      (readFile (ThroughMain.srcPre (ThroughMain.options (Cli.parseArgs argv))) "stops.csv"
         = None ∨
       readFile (ThroughMain.srcPost (ThroughMain.options (Cli.parseArgs argv))) "stops.csv"
         = None)
  | r =>
      ThroughMain.needsUsage (ThroughMain.options (Cli.parseArgs argv)) = false ∧
      ∃ pre post,
        readFile (ThroughMain.srcPre (ThroughMain.options (Cli.parseArgs argv))) "stops.csv"
          = Some pre ∧
        readFile (ThroughMain.srcPost (ThroughMain.options (Cli.parseArgs argv))) "stops.csv"
          = Some post ∧
        reported (ThroughMain.options (Cli.parseArgs argv))
          (Csv.readCsv pre) (Csv.readCsv post)
          (ThroughMain.loadTrains
             (readFile (ThroughMain.srcPost (ThroughMain.options (Cli.parseArgs argv)))
                "trains.csv")
           ∪ ThroughMain.loadTrains
               (readFile (ThroughMain.srcPre (ThroughMain.options (Cli.parseArgs argv)))
                  "trains.csv"))
          r
  end.
Proof.
  unfold ThroughMain.main. cbv zeta.
  set (o := ThroughMain.options (Cli.parseArgs argv)).
  destruct (ThroughMain.needsUsage o) eqn:Huse; [done |].
  unfold ThroughMain.loadStops.
  destruct (readFile (ThroughMain.srcPre o) "stops.csv") as [pre |] eqn:Epre;
    cbn [fmap option_fmap option_map]; [| split; [done | by left]].
  destruct (readFile (ThroughMain.srcPost o) "stops.csv") as [post |] eqn:Epost;
    cbn [fmap option_fmap option_map]; [| split; [done | by right]].
  pose proof (report_cases o (Csv.readCsv pre) (Csv.readCsv post)
    (ThroughMain.loadTrains (readFile (ThroughMain.srcPre o) "trains.csv"))
    (ThroughMain.loadTrains (readFile (ThroughMain.srcPost o) "trains.csv"))) as Hrep.
  destruct (ThroughMain.report _ _ _ _ _) eqn:E;
    try (split; [done |]; exists pre, post; by rewrite ?Epre, ?Epost).
  - done.
  - done.
Qed.


Lemma pair_wait_finite (stopsPre stopsPost : list AnyCsv) (trains : gmap string TrainMeta)
    (via dest : string) (maxWaitMin : option JsNum) (p : PairResult.t) :
  Forall (λ a, Js.in_day (LegA.arriveTAMin a) = true) (Through.legAs stopsPre trains via) →
  Forall (λ b, Js.in_day (LegB.departTAMin b) = true) (Through.legBs stopsPost trains dest) →
  p ∈ Through.buildTransferPairs stopsPre stopsPost trains via dest maxWaitMin →
  ∃ w, PairResult.wait_min p = Fin w.
Proof.
  intros HA HB (a & Ha & Hp)%buildTransferPairs_elem_of.
  destruct (pairFor_Some _ _ _ _ Hp) as (b & Eb & _).
  pose proof (legBs_sorted _ _ _ HB) as Hsorted.
  rewrite Forall_forall in HA. rewrite Forall_forall in HB.
  pose proof (bestFor_spec _ maxWaitMin a Hsorted HB (HA a Ha)) as Hbest.
  rewrite Eb in Hbest. destruct Hbest as (Hb & -> & _).
  apply HA, in_day_Fin in Ha as (q & Hq & ? & ?).
  apply HB, in_day_Fin in Hb as (d & Hd & ? & ?).
  unfold waitAt. rewrite Hq, Hd.
  destruct (waitDiffMin_in_day q d) as (w & -> & _); [done.. |]. eauto.
Qed.

Lemma truthy_Fin_false (q : Q) : Js.truthy (Fin q) = false → (q == 0)%Q.
Proof. cbn. intros E%negb_false_iff. by apply Qeq_bool_eq. Qed.

(** The order of the transfer pairs, when every arrival and departure at the
    hub is a minute of the day.  [buildTransferPairs] returns the pairs in
    ascending order of wait.  [main] keeps that order when asked for
    [--order=wait], and lists the pairs in descending order of wait when
    [--desc] is given too. *)
Theorem pairs_sorted_by_wait (o : Options.t) (stopsPre stopsPost : list AnyCsv)
    (trains : gmap string TrainMeta) :
  Forall (λ a, Js.in_day (LegA.arriveTAMin a) = true)
    (Through.legAs stopsPre trains (Options.via o)) →
  Forall (λ b, Js.in_day (LegB.departTAMin b) = true)
    (Through.legBs stopsPost trains (Options.dest o)) →
  StronglySorted (λ p q, Js.le (PairResult.wait_min p) (PairResult.wait_min q))
    (Through.buildTransferPairs stopsPre stopsPost trains
       (Options.via o) (Options.dest o) (Options.maxWaitMin o)) ∧
  (Options.orderArg o = "wait" →
   StronglySorted
     (λ p q, if Options.isDesc o
             then Js.le (PairResult.wait_min q) (PairResult.wait_min p)
             else Js.le (PairResult.wait_min p) (PairResult.wait_min q))
     (ThroughMain.orderedPairs o stopsPre stopsPost trains)).
Proof.
  intros HA HB.
  assert (Hfin : ∀ p,
            p ∈ Through.buildTransferPairs stopsPre stopsPost trains
                  (Options.via o) (Options.dest o) (Options.maxWaitMin o) →
            ∃ w, PairResult.wait_min p = Fin w)
    by (intros p; by apply pair_wait_finite).
  split.
  - unfold Through.buildTransferPairs at 1. cbv zeta.
    assert (Hfin' : ∀ p, p ∈ omap (Through.pairFor
                (Through.legBs stopsPost trains (Options.dest o)) (Options.maxWaitMin o))
                (Through.legAs stopsPre trains (Options.via o)) →
              ∃ w, PairResult.wait_min p = Fin w).
    { intros p Hp. apply Hfin.
      unfold Through.buildTransferPairs. cbv zeta. by apply elem_of_sort. }
    apply sort_sorted.
    + intros x y z. apply Js_le_trans.
    + intros x y [wx Hx]%Hfin' [wy Hy]%Hfin'. unfold Through.byWait, Js.or.
      rewrite Hx, Hy. cbn [Js.sub Js.neg Js.add Js.le].
      destruct (Js.truthy (Fin (wx + - wy))) eqn:E.
      * unfold Js.gt, Js.zero. intros Hgt%lt_Fin. lra.
      * apply truthy_Fin_false in E. intros _. lra.
    + intros x y [wx Hx]%Hfin' [wy Hy]%Hfin'. unfold Through.byWait, Js.or.
      rewrite Hx, Hy. cbn [Js.sub Js.neg Js.add Js.le].
      destruct (Js.truthy (Fin (wx + - wy))) eqn:E.
      * unfold Js.gt, Js.zero. intros Hgt%lt_Fin_false. lra.
      * apply truthy_Fin_false in E. intros _. lra.
  - intros Hord. unfold ThroughMain.orderedPairs. cbv zeta. rewrite Hord.
    rewrite bool_decide_eq_false_2 by done. rewrite bool_decide_eq_true_2 by done.
    unfold ThroughMain.direction.
    destruct (Options.isDesc o); apply sort_sorted.
    + intros x y z ? ?. by apply (Js_le_trans (PairResult.wait_min z) (PairResult.wait_min y)).
    + intros x y [wx Hx]%Hfin [wy Hy]%Hfin. rewrite Hx, Hy.
      unfold Js.gt, Js.zero, Js.of_Z. cbn [Js.sub Js.neg Js.add Js.mul Js.le].
      intros Hgt%lt_Fin. change (inject_Z (-1)) with (-1 # 1)%Q in Hgt. lra.
    + intros x y [wx Hx]%Hfin [wy Hy]%Hfin. rewrite Hx, Hy.
      unfold Js.gt, Js.zero, Js.of_Z. cbn [Js.sub Js.neg Js.add Js.mul Js.le].
      intros Hgt%lt_Fin_false. change (inject_Z (-1)) with (-1 # 1)%Q in Hgt. lra.
    + intros x y z. apply Js_le_trans.
    + intros x y [wx Hx]%Hfin [wy Hy]%Hfin. rewrite Hx, Hy.
      unfold Js.gt, Js.zero, Js.of_Z. cbn [Js.sub Js.neg Js.add Js.mul Js.le].
      intros Hgt%lt_Fin. change (inject_Z 1) with 1%Q in Hgt. lra.
    + intros x y [wx Hx]%Hfin [wy Hy]%Hfin. rewrite Hx, Hy.
      unfold Js.gt, Js.zero, Js.of_Z. cbn [Js.sub Js.neg Js.add Js.mul Js.le].
      intros Hgt%lt_Fin_false. change (inject_Z 1) with 1%Q in Hgt. lra.
Qed.

End MainFacts.

(** ** The averages of the compare mode *)

Lemma avgByLabel_get (legs : list LegOut.t) (k : string) :
  JsMap.get k (foldl Analyze.avgByLabel_step [] legs) =
  match samplesOf k legs with
  | [] => None
  | xs => Some (foldl Qplus 0%Q xs, length xs)
  end.
Proof.
  induction legs as [| l legs IH] using rev_ind; [done |].
  rewrite foldl_app, samplesOf_snoc. cbn [foldl].
  unfold Analyze.avgByLabel_step at 1.
  destruct (LegOut.leg_minutes l) as [v |] eqn:Ev.
  - destruct (decide (Analyze.label l = k)) as [<- | Hne].
    + rewrite get_set_eq, IH. cbn [option_list].
      destruct (samplesOf (Analyze.label l) legs) as [| x xs].
      * done.
      * change (default (0%Q, 0%nat) (Some ?e)) with e. cbn [fst snd].
        cbn [option_list app foldl length]. rewrite foldl_app, length_app.
        cbn [foldl length]. do 2 f_equal; lia.
    + rewrite get_set_ne by done. rewrite IH. by rewrite app_nil_r.
  - rewrite IH. destruct (decide (Analyze.label l = k)); cbn [option_list];
      by rewrite app_nil_r.
Qed.

Lemma avgByLabel_lookup (labelOrder : list string) (legs : option (list LegOut.t))
    (i : nat) (lab : string) :
  labelOrder !! i = Some lab →
  Analyze.avgByLabel labelOrder legs !! i
  = Some (roundedMean (samplesOf lab (default [] legs))).
Proof.
  intros Hlab. unfold Analyze.avgByLabel. cbv zeta.
  rewrite list_lookup_fmap, Hlab. cbn [fmap option_fmap option_map].
  rewrite avgByLabel_get. f_equal.
  destruct (samplesOf lab (default [] legs)) as [| x xs]; [done |].
  cbn [snd fst length]. done.
Qed.

Lemma roundedMean_averageOf (xs : list Q) : averageOf xs (roundedMean xs).
Proof.
  unfold averageOf, roundedMean. destruct xs as [| x xs]; [done |].
  split; [done |]. intros _. eexists. split; [reflexivity |].
  intros _. apply toFixed2_rounded.
Qed.

(** The averages of a series.  The entry of [avgA] (of [avgB]) for a label
    belongs to the durations that are not null of the legs with that label
    among those kept of data set A (of B) for the destination: it is null
    when there is no such duration, and a number otherwise, which for
    durations in whole minutes is their mean rounded to two decimals. *)
Theorem compare_averages (startStation : string) (legsA legsB : list LegOut.t)
    (trainsA trainsB : gmap string TrainMeta) (s : SeriesPerDest.t) (i : nat) (lab : string) :
  s ∈ Analyze.buildCompareSeries startStation legsA legsB trainsA trainsB →
  SeriesPerDest.labels s !! i = Some lab →
  ∃ a b,
    SeriesPerDest.avgA s !! i = Some a ∧
    SeriesPerDest.avgB s !! i = Some b ∧
    averageOf
      (samplesOf lab (segmentLegs startStation legsA trainsA (SeriesPerDest.dest s))) a ∧
    averageOf
      (samplesOf lab (segmentLegs startStation legsB trainsB (SeriesPerDest.dest s))) b.
Proof.
  unfold Analyze.buildCompareSeries. cbv zeta.
  intros (dest & -> & _)%list_elem_of_fmap.
  cbn [SeriesPerDest.dest SeriesPerDest.labels SeriesPerDest.avgA SeriesPerDest.avgB].
  intros Hlab. unfold segmentLegs.
  do 2 eexists. split; [by apply avgByLabel_lookup |].
  split; [by apply avgByLabel_lookup |].
  split; apply roundedMean_averageOf.
Qed.

(** ** The legs taken up to the destination *)

(** The inner loop of [extractSegments] takes the legs of a train from a
    given leg on and stops after the first one that arrives at the
    destination.  What it takes is a prefix of the legs, not empty unless
    there is no leg; none of the legs taken but the last arrives at the
    destination; and when legs are left over, the last one taken arrives
    there. *)
Theorem takeUntilDest_spec (dest : string) (seq : list LegOut.t) :
  (∃ rest, seq = Analyze.takeUntilDest dest seq ++ rest) ∧
  (seq ≠ [] → Analyze.takeUntilDest dest seq ≠ []) ∧
  (∀ i l, Analyze.takeUntilDest dest seq !! i = Some l →
          (S i < length (Analyze.takeUntilDest dest seq))%nat →
          LegOut.to_station l ≠ dest) ∧
  ((length (Analyze.takeUntilDest dest seq) < length seq)%nat →
   ∃ l, last (Analyze.takeUntilDest dest seq) = Some l ∧ LegOut.to_station l = dest).
Proof.
  induction seq as [| leg seq (IH1 & IH2 & IH3 & IH4)].
  - split; [by exists [] |]. split; [done |]. split; [done |]. cbn. lia.
  - cbn [Analyze.takeUntilDest]. case_bool_decide as Hd.
    + split; [by exists seq |]. split; [done |]. split.
      * intros i l Hi Hlen. cbn in Hlen. lia.
      * intros _. by exists leg.
    + destruct IH1 as [rest Hrest]. split; [exists rest; by rewrite <- app_comm_cons, <- Hrest |].
      split; [done |]. split.
      * intros [| i] l Hi Hlen.
        -- cbn in Hi. by injection Hi as <-.
        -- cbn in Hi, Hlen. apply (IH3 i l Hi). lia.
      * intros Hlen. cbn [length] in Hlen. destruct IH4 as (l & Hl & Hdest); [lia |].
        exists l. split; [| done].
        destruct (Analyze.takeUntilDest dest seq) as [| x xs]; [done |]. done.
Qed.

(** ** The start station of the compare mode *)

Lemma takeUntilDest_head (dest : string) (seq : list LegOut.t) :
  head (Analyze.takeUntilDest dest seq) = head seq.
Proof. by destruct seq. Qed.

Lemma extractSegments_start (startStation : string)
    (byTrain : list (string * list LegOut.t)) (trains : gmap string TrainMeta) :
  ∀ dest legs, (dest, legs) ∈ Analyze.extractSegments startStation byTrain trains →
    ∃ l, l ∈ legs ∧ LegOut.from_station l = startStation.
Proof.
  unfold Analyze.extractSegments.
  induction byTrain as [| [tid seq] byTrain IH] using rev_ind.
  - intros ? ? []%elem_of_nil.
  - rewrite foldl_app. cbn [foldl].
    set (res := foldl _ [] byTrain) in *.
    unfold Analyze.extractSegments_step.
    destruct (findIndex_spec (λ l, bool_decide (LegOut.from_station l = startStation)) seq)
      as [[-> _] | (i & -> & [(l0 & Hl0 & Hstart) _])]; [done |].
    assert ((Z.of_nat i <? 0)%Z = false) as -> by (apply Z.ltb_ge; lia). cbv zeta.
    set (dest := if truthyS (trains !! tid ≫= tm_dest) then _ else _).
    destruct (truthyS (Some dest)); cbn [negb]; [| done].
    rewrite Nat2Z.id.
    set (taken := Analyze.takeUntilDest dest (drop i seq)).
    destruct (length taken =? 0)%nat; [done |].
    intros dest' legs [[-> ->] | Hin]%elem_of_set; [| by apply (IH dest' legs)].
    exists l0. split; [| by apply bool_decide_eq_true_1 in Hstart].
    apply elem_of_app. right.
    assert (head taken = Some l0) as Hhead.
    { unfold taken. rewrite takeUntilDest_head, head_lookup, lookup_drop.
      by rewrite Nat.add_0_r. }
    destruct taken as [| x xs]; [done |]. injection Hhead as ->. left.
Qed.

(** A series needs the start station.  Every series of the compare mode
    keeps, of data set A or of data set B, a leg that departs from the start
    station; so when no leg of either data set departs from it, there is no
    series at all. *)
Theorem compare_needs_start (startStation : string) (legsA legsB : list LegOut.t)
    (trainsA trainsB : gmap string TrainMeta) :
  (∀ s, s ∈ Analyze.buildCompareSeries startStation legsA legsB trainsA trainsB →
     ∃ l, (l ∈ segmentLegs startStation legsA trainsA (SeriesPerDest.dest s) ∨
           l ∈ segmentLegs startStation legsB trainsB (SeriesPerDest.dest s)) ∧
          l ∈ legsA ++ legsB ∧ LegOut.from_station l = startStation) ∧
  ((∀ l, l ∈ legsA ++ legsB → LegOut.from_station l ≠ startStation) →
   Analyze.buildCompareSeries startStation legsA legsB trainsA trainsB = []).
Proof.
  assert (Hser : ∀ s,
            s ∈ Analyze.buildCompareSeries startStation legsA legsB trainsA trainsB →
            ∃ l, (l ∈ segmentLegs startStation legsA trainsA (SeriesPerDest.dest s) ∨
                  l ∈ segmentLegs startStation legsB trainsB (SeriesPerDest.dest s)) ∧
                 l ∈ legsA ++ legsB ∧ LegOut.from_station l = startStation).
  { unfold Analyze.buildCompareSeries. cbv zeta.
    intros s (dest & -> & Hdest)%list_elem_of_fmap. cbn [SeriesPerDest.dest].
    apply elem_of_dedupe, elem_of_app in Hdest. unfold segmentLegs.
    destruct (extractSegments_inv (λ x, x ∈ legsA ++ legsB) startStation
                (Analyze.groupLegsByTrain legsA) trainsA) as [_ HA].
    { intros tid seq x [_ ->]%groupLegsByTrain_elem_of Hx%elem_of_sort.
      apply list_elem_of_filter in Hx as [_ Hx]. apply elem_of_app. by left. }
    destruct (extractSegments_inv (λ x, x ∈ legsA ++ legsB) startStation
                (Analyze.groupLegsByTrain legsB) trainsB) as [_ HB].
    { intros tid seq x [_ ->]%groupLegsByTrain_elem_of Hx%elem_of_sort.
      apply list_elem_of_filter in Hx as [_ Hx]. apply elem_of_app. by right. }
    destruct Hdest as [Hd | Hd].
    - destruct (JsMap.get dest (Analyze.extractSegments startStation
                  (Analyze.groupLegsByTrain legsA) trainsA)) as [legs |] eqn:E;
        [| by apply get_None in E].
      apply get_Some_elem_of in E.
      destruct (extractSegments_start _ _ _ _ _ E) as (l & Hl & Hstart).
      exists l. split; [by left |]. split; [| done].
      by apply (HA dest legs E).
    - destruct (JsMap.get dest (Analyze.extractSegments startStation
                  (Analyze.groupLegsByTrain legsB) trainsB)) as [legs |] eqn:E;
        [| by apply get_None in E].
      apply get_Some_elem_of in E.
      destruct (extractSegments_start _ _ _ _ _ E) as (l & Hl & Hstart).
      exists l. split; [by right |]. split; [| done].
      by apply (HB dest legs E). }
  split; [exact Hser |].
  intros Hnone.
  destruct (Analyze.buildCompareSeries startStation legsA legsB trainsA trainsB)
    as [| s series] eqn:E; [done |].
  destruct (Hser s) as (l & _ & Hl & Hstart); [left |].
  by destruct (Hnone l Hl).
Qed.

(** ** The container and the entry point *)

Section ContainerFacts.
Context {Token V : Type} `{EqDecision Token}.
Variable description : Token → string.

Lemma set_eq {X : Type} (m : Token → option X) (token : Token) (x : X) :
  Container.set m token x token = Some x.
Proof. unfold Container.set. by rewrite decide_True. Qed.

Lemma set_ne {X : Type} (m : Token → option X) (token t : Token) (x : X) :
  t ≠ token → Container.set m token x t = m t.
Proof. intros Hne. unfold Container.set. by rewrite decide_False. Qed.

(** Once [resolve] has returned a value for a token registered with
    [registerSingleton], the singletons hold that value for the token; and
    whenever the singletons hold a value for the token, whatever else they
    hold, [resolve] of the token returns that value and leaves the singletons
    as they are, at any depth of calls allowed: the factory is not called a
    second time. *)
Theorem resolve_singleton_again (factories : @Container.Factories Token V)
    (token : Token) (factory : Container.Factory) (fuel : nat)
    (s s' : Container.Singletons) (v : V) :
  Container.resolve description (S fuel)
    (Container.registerSingleton factories token factory) token s = (Returned v, s') →
  s' token = Some v ∧
  ∀ fuel' s'', s'' token = Some v →
    Container.resolve description (S fuel')
      (Container.registerSingleton factories token factory) token s''
    = (Returned v, s'').
Proof.
  intros Hfirst. split.
  - revert Hfirst. cbn [Container.resolve]. unfold Container.registerSingleton.
    rewrite set_eq. unfold Container.lazy.
    destruct (s token) as [v0 |] eqn:E.
    + by intros [= <- <-].
    + destruct (factory _ s) as [[v0 | e] s0]; intros [= <- <-].
      by rewrite set_eq.
  - intros fuel' s'' E. cbn [Container.resolve]. unfold Container.registerSingleton.
    rewrite set_eq. unfold Container.lazy. by rewrite E.
Qed.

End ContainerFacts.

Lemma index_no_token (fuel : nat) (argv : list string) (env : gmap string string) message :
  (5 ≤ fuel)%nat →
  EnvCliConfigService.getConfig argv env = Thrown message →
  Wiring.index fuel argv env = LogErrorExit1 message.
Proof.
  intros Hfuel E.
  do 5 (destruct fuel as [| fuel]; [lia |]).
  cbv -[EnvCliConfigService.getConfig Cli.parseArgs Cli.truthyArg lookup].
  rewrite E. done.
Qed.

Lemma index_token (fuel : nat) (argv : list string) (env : gmap string string) cfg :
  (5 ≤ fuel)%nat →
  EnvCliConfigService.getConfig argv env = Returned cfg →
  Wiring.index fuel argv env =
    Start (if Cli.truthyArg (Cli.parseArgs argv !! "analyze") then RunAnalyze argv
           else if Cli.truthyArg (Cli.parseArgs argv !! "through") then RunThrough argv
           else RunApp (AppConfig.stationId cfg) (AppConfig.timeFrom cfg)
                       (AppConfig.timeTo cfg) (AppConfig.outDir cfg)).
Proof.
  intros Hfuel E.
  do 5 (destruct fuel as [| fuel]; [lia |]).
  cbv -[EnvCliConfigService.getConfig Cli.parseArgs Cli.truthyArg lookup].
  repeat (rewrite E;
          cbv -[EnvCliConfigService.getConfig Cli.parseArgs Cli.truthyArg lookup]).
  repeat match goal with
         | |- context [Cli.truthyArg ?x] => destruct (Cli.truthyArg x)
         end; reflexivity.
Qed.


(** [index.ts] builds the router before it looks at the arguments, and the
    router needs the scraper, whose HTTP client reads the configuration.  So
    without a non-empty [KRL_TOKEN] in the environment no command is started,
    whatever the arguments, [--analyze] and [--through] included: the message
    of [getConfig] is logged and the process exits with code 1.  With a
    token, [--analyze] starts the analysis, otherwise [--through] starts the
    through report, otherwise the scraper runs with the configuration.  Five
    nested calls of [resolve] are enough. *)
Theorem index_spec (fuel : nat) (argv : list string) (env : gmap string string) :
  (5 ≤ fuel)%nat →
  (truthyS (env !! "KRL_TOKEN") = false →
   Wiring.index fuel argv env = LogErrorExit1 "Env KRL_TOKEN belum diset") ∧
  (truthyS (env !! "KRL_TOKEN") = true →
   ∃ cfg, EnvCliConfigService.getConfig argv env = Returned cfg ∧
     Wiring.index fuel argv env =
       Start (if Cli.truthyArg (Cli.parseArgs argv !! "analyze") then RunAnalyze argv
              else if Cli.truthyArg (Cli.parseArgs argv !! "through") then RunThrough argv
              else RunApp (AppConfig.stationId cfg) (AppConfig.timeFrom cfg)
                          (AppConfig.timeTo cfg) (AppConfig.outDir cfg))).
Proof.
  intros Hfuel. split; intros Htok.
  - apply index_no_token; [done |].
    unfold EnvCliConfigService.getConfig. cbv zeta. by rewrite Htok.
  - destruct (EnvCliConfigService.getConfig argv env) as [cfg | msg] eqn:E.
    + exists cfg. split; [done |]. by apply index_token.
    + exfalso. revert E. unfold EnvCliConfigService.getConfig. cbv zeta.
      by rewrite Htok.
Qed.

Lemma resolve_singleton_again_witness :
  Container.resolve TOKENS.description 1 logger_only TOKENS.Logger Container.empty
    = (Returned NewConsoleLogger,
       Container.set Container.empty TOKENS.Logger NewConsoleLogger) ∧
  Container.resolve TOKENS.description 3 logger_only TOKENS.Logger
      (Container.set (Container.set Container.empty TOKENS.Logger NewConsoleLogger)
         TOKENS.Time NewDefaultTimeService)
    = (Returned NewConsoleLogger,
       Container.set (Container.set Container.empty TOKENS.Logger NewConsoleLogger)
         TOKENS.Time NewDefaultTimeService).
Proof.
  assert (Container.resolve TOKENS.description 1 logger_only TOKENS.Logger Container.empty
          = (Returned NewConsoleLogger,
             Container.set Container.empty TOKENS.Logger NewConsoleLogger)) as H1
    by reflexivity.
  exact (conj H1
    (proj2 (resolve_singleton_again TOKENS.description Container.empty
              TOKENS.Logger _ 0 _ _ _ H1) 2
       (Container.set (Container.set Container.empty TOKENS.Logger NewConsoleLogger)
          TOKENS.Time NewDefaultTimeService)
       eq_refl)).
Defined.

Lemma index_spec_witness :
  (5 ≤ 5)%nat ∧ truthyS ((∅ : gmap string string) !! "KRL_TOKEN") = false ∧
  Wiring.index 5 ["bun"; "index.ts"; "--analyze"; "--out=./out"] ∅
    = LogErrorExit1 "Env KRL_TOKEN belum diset".
Proof.
  assert (truthyS ((∅ : gmap string string) !! "KRL_TOKEN") = false) as H1
    by (vm_compute; reflexivity).
  exact (conj (le_n 5) (conj H1
    (proj1 (index_spec 5 ["bun"; "index.ts"; "--analyze"; "--out=./out"] ∅ (le_n 5)) H1))).
Defined.

(** ** The properties on the example data *)

Lemma cells_clean `{JsFormat} (rows : list (gmap string PrimitiveCsv)) (headers : list string) :
  forallb (λ r, forallb (λ h, negb (hasChar Csv.lf (Csv.cellText (r !! h)))
                              && negb (hasChar Csv.cr (Csv.cellText (r !! h)))) headers)
    rows = true →
  ∀ r h, r ∈ rows → h ∈ headers →
    hasChar Csv.lf (Csv.cellText (r !! h)) = false ∧
    hasChar Csv.cr (Csv.cellText (r !! h)) = false.
Proof.
  intros Hall r h Hr%list_elem_of_In Hh%list_elem_of_In.
  rewrite forallb_forall in Hall. specialize (Hall r Hr).
  rewrite forallb_forall in Hall. specialize (Hall h Hh).
  apply andb_prop in Hall as [H1 H2]. by rewrite (negb_true_iff _), (negb_true_iff _) in *.
Qed.

Lemma forallb_elem_of {A : Type} (P : A → bool) (l : list A) :
  forallb P l = true → ∀ x, x ∈ l → P x = true.
Proof. intros Hall x Hx%list_elem_of_In. rewrite forallb_forall in Hall. by apply Hall. Qed.

Ltac forall_compute :=
  match goal with
  | |- Forall ?P ?l =>
      let l' := eval vm_compute in l in
      change (Forall P l');
      repeat (first [apply Forall_nil_2 | apply Forall_cons_2; [vm_compute; reflexivity |]])
  end.

Section MoreInstances.
Import Examples Samples.
#[local] Existing Instance ascii_runtime.
#[local] Existing Instance ascii_format.

(** The two rows are written as three lines and read back cell by cell. *)
Lemma readCsv_toCSV_witness :
  (2 <= length csv_headers)%nat ∧
  (∀ h, h ∈ csv_headers →
     hasChar Csv.comma h = false ∧ hasChar Csv.lf h = false ∧ hasChar Csv.cr h = false) ∧
  (∀ r h, r ∈ csv_rows → h ∈ csv_headers →
     hasChar Csv.lf (Csv.cellText (r !! h)) = false ∧
     hasChar Csv.cr (Csv.cellText (r !! h)) = false) ∧
  (∀ h, h ∈ csv_headers → h ∉ Csv.inheritedNames) ∧
  Csv.readCsv (Csv.toCSV (λ _, csv_headers) csv_rows (Some csv_headers))
    = readBack csv_headers <$> csv_rows.
Proof.
  assert (2 <= length csv_headers)%nat as H1 by (vm_compute; lia).
  assert (∀ h, h ∈ csv_headers →
            hasChar Csv.comma h = false ∧ hasChar Csv.lf h = false ∧ hasChar Csv.cr h = false)
    as H2 by (apply header_clean; reflexivity).
  assert (∀ r h, r ∈ csv_rows → h ∈ csv_headers →
            hasChar Csv.lf (Csv.cellText (r !! h)) = false ∧
            hasChar Csv.cr (Csv.cellText (r !! h)) = false)
    as H3 by (apply cells_clean; reflexivity).
  assert (∀ h, h ∈ csv_headers → h ∉ Csv.inheritedNames)
    as H4 by (apply header_own; reflexivity).
  exact (conj H1 (conj H2 (conj H3 (conj H4
           (readCsv_toCSV (λ _, csv_headers) csv_rows csv_headers H1 H2 H3 H4))))).
Defined.

(** The blank line is skipped, and the short line still has both columns. *)
Lemma readCsv_shape_witness :
  filter (λ l, (0 < String.length l)%nat) (Csv.splitLines stops_text)
    = ["train_id,station_name"; "101,Palmerah"; "102"] ∧
  length (Csv.readCsv stops_text) = 2%nat ∧
  ∀ r k, r ∈ Csv.readCsv stops_text →
    (is_Some (r !! k) ↔ k ∈ split_on Csv.comma "train_id,station_name" ∧ k ≠ "__proto__").
Proof.
  assert (filter (λ l, (0 < String.length l)%nat) (Csv.splitLines stops_text)
            = ["train_id,station_name"; "101,Palmerah"; "102"]) as H1
    by (vm_compute; reflexivity).
  exact (conj H1 (proj2 (readCsv_shape stops_text) _ _ H1)).
Defined.

(** Under the header [__proto__] no column is created: the row read has the
    single column [a]. *)
Example readCsv_proto_header : Csv.readCsv proto_text = [{[ "a" := "1" ]}].
Proof. vm_compute. reflexivity. Qed.

(** For a header that names an inherited member and a row without such a
    cell, [toCSV] writes the text of the member, not the empty text. *)
Example toCSV_inherited_member :
  Csv.toCSV (λ _, ["note"]) [note_row] (Some ["note"; "constructor"])
  = String.append "note,constructor"
      (String Csv.lf (String.append "late," (memberToString "constructor"))).
Proof. vm_compute. reflexivity. Qed.

(** Without a header order the headers are the names of the properties of
    the rows, each at its first occurrence. *)
Example toCSV_no_header_order :
  Csv.toCSV (λ _, ["note"]) [note_row; note_row] None
  = String.append "note" (String Csv.lf (String.append "late" (String Csv.lf "late"))).
Proof. vm_compute. reflexivity. Qed.

Lemma parseArgs_no_equals_witness :
  Cli.parseArgs argv !! "via" = Some (VString "Palmerah") ∧
  hasChar "=" "via" = false ∧
  ∀ s, VString "Palmerah" = VString s → hasChar "=" s = false.
Proof.
  assert (Cli.parseArgs argv !! "via" = Some (VString "Palmerah")) as H1
    by (vm_compute; reflexivity).
  exact (conj H1 (parseArgs_no_equals argv "via" (VString "Palmerah") H1)).
Defined.

(** A later [--via=Kebayoran=Lama] overrides the earlier [--via], and loses
    what follows its second equals sign. *)
Lemma parseArgs_last_witness :
  hasChar "=" "via" = false ∧
  Cli.parseArgs ("bun" :: "through.ts" :: ["--via=Palmerah"]
                   ++ [String.append "--" (String.append "via"
                                             (String.append "=" "Kebayoran=Lama"))])
    !! "via" = Some (VString (upTo "=" "Kebayoran=Lama")) ∧
  Cli.parseArgs ("bun" :: "through.ts" :: ["--via=Palmerah"]
                   ++ [String.append "--" "via"]) !! "via" = Some VTrue.
Proof.
  assert (hasChar "=" "via" = false) as H1 by reflexivity.
  exact (conj H1 (parseArgs_last "bun" "through.ts" ["--via=Palmerah"] "via"
                    "Kebayoran=Lama" H1)).
Defined.

Lemma hmsToMin_rejects_witness :
  hasChar ":" (default "" (Some "0720")) = false ∧
  Through.hmsToMin (Some "0720") = None ∧ ThroughCommand.hmsToMin (Some "0720") = None ∧
  DefaultTimeService.hmsToMin (Some "0720") = None.
Proof.
  assert (hasChar ":" (default "" (Some "0720")) = false) as H1 by reflexivity.
  exact (conj H1 (hmsToMin_rejects (Some "0720") H1)).
Defined.

(** 07:20:30 is minute 440 for the analysis and minute 440.5 for the scraper. *)
Lemma hmsToMin_floor_witness :
  Through.hmsToMin (Some "07:20:30") = Some (Fin 440) ∧
  ∃ y, DefaultTimeService.hmsToMin (Some "07:20:30") = Some (Fin y) ∧ (440 <= y)%Q.
Proof.
  assert (Through.hmsToMin (Some "07:20:30") = Some (Fin 440)) as H1
    by (vm_compute; reflexivity).
  exact (conj H1 (proj2 (hmsToMin_floor (Some "07:20:30")) 440%Q H1)).
Defined.

(** From 23:50 to 00:10 there are 20 minutes. *)
Lemma diffMin_spec_witness :
  DefaultTimeService.hmsToMin (Some "23:50") = Some (Fin (85800 # 60)) ∧
  DefaultTimeService.hmsToMin (Some "00:10") = Some (Fin (600 # 60)) ∧
  ∃ d, DefaultTimeService.diffMin (Some "23:50") (Some "00:10") = Some (Fin d) ∧
       (0 <= d)%Q ∧ (d <= 1440)%Q ∧
       (isInteger (85800 # 60) → isInteger (600 # 60) →
        (85800 # 60 < 1440)%Q → (600 # 60 < 1440)%Q →
          (d == Qmod ((600 # 60) - (85800 # 60)) 1440)%Q ∧ (d <= 1439)%Q ∧
          (((85800 # 60) <= (600 # 60))%Q → (d == (600 # 60) - (85800 # 60))%Q) ∧
          (((600 # 60) < (85800 # 60))%Q → (d == (600 # 60) - (85800 # 60) + 1440)%Q)).
Proof.
  assert (DefaultTimeService.hmsToMin (Some "23:50") = Some (Fin (85800 # 60))) as H1
    by (vm_compute; reflexivity).
  assert (DefaultTimeService.hmsToMin (Some "00:10") = Some (Fin (600 # 60))) as H2
    by (vm_compute; reflexivity).
  assert (0 <= 85800 # 60)%Q as H3 by (vm_compute; discriminate).
  assert (85800 # 60 <= 1440)%Q as H4 by (vm_compute; discriminate).
  assert (0 <= 600 # 60)%Q as H5 by (vm_compute; discriminate).
  assert (600 # 60 <= 1440)%Q as H6 by (vm_compute; discriminate).
  exact (conj H1 (conj H2
    (proj2 (diffMin_spec (Some "23:50") (Some "00:10")) _ _ H1 H2 H3 H4 H5 H6))).
Defined.

(** Two failures and a success: the body is returned after sleeping 750 ms
    and 1500 ms. *)
Lemma getJSON_spec_witness :
  (Z.of_nat 2 <= 2)%Z ∧
  (∀ j, (j < 2)%nat → ∃ e, flaky j = Thrown e) ∧
  FetchHttpClient.getJSON flaky 2 = (Returned 7%nat, sleepsBefore 2).
Proof.
  assert (Z.of_nat 2 <= 2)%Z as H1 by (vm_compute; discriminate).
  assert (∀ j, (j < 2)%nat → ∃ e, flaky j = Thrown e) as H2.
  { intros [| [| j]] Hj; [by eexists | by eexists | lia]. }
  exact (conj H1 (conj H2 (proj1 (getJSON_spec flaky 2 2 H1 H2) 7%nat eq_refl))).
Defined.

Lemma derived_legs_continuous_witness :
  ("101", 0%nat) ∈ AnalyzeMain.continuityRows (Analyze.deriveLegsFromStops through_stops) ∧
  0%nat = 0%nat.
Proof.
  assert (("101", 0%nat)
            ∈ AnalyzeMain.continuityRows (Analyze.deriveLegsFromStops through_stops)) as H1
    by (vm_compute; constructor).
  exact (conj H1 (derived_legs_continuous through_stops "101" 0 H1)).
Defined.

(** The legs of train 1234 as [legs.csv] has them, loaded by the analysis:
    the first leg, of [from_index] 0, gets the sequence number 1 of its row. *)
Lemma loadLegs_of_scraped_witness :
  Number "" = Fin 0 ∧
  (∀ l, l ∈ (AppOrchestrator.rowsFrom train "THB" (head api_stops) 0 None api_stops).2 →
     Number (numberToString (Js.of_nat (LegRow.from_index l)))
       = Js.of_nat (LegRow.from_index l)) ∧
  (∀ r h,
     r ∈ AppOrchestrator.legCells
           <$> (AppOrchestrator.rowsFrom train "THB" (head api_stops) 0 None api_stops).2 →
     h ∈ AppOrchestrator.legsHeader →
     hasChar Csv.lf (Csv.cellText (r !! h)) = false ∧
     hasChar Csv.cr (Csv.cellText (r !! h)) = false) ∧
  ∃ legs,
    Analyze.loadLegs
      (Some (Csv.readCsv
               (AppOrchestrator.legsCsv
                  (AppOrchestrator.rowsFrom train "THB" (head api_stops) 0 None api_stops).2)))
      None = Returned legs ∧
    length legs
      = length (AppOrchestrator.rowsFrom train "THB" (head api_stops) 0 None api_stops).2 ∧
    ∀ i l,
      (AppOrchestrator.rowsFrom train "THB" (head api_stops) 0 None api_stops).2 !! i = Some l →
      ∃ leg, legs !! i = Some leg ∧
        LegOut.train_id leg = LegRow.train_id l ∧
        LegOut.from_station leg = LegRow.from_station l ∧
        LegOut.to_station leg = LegRow.to_station l ∧
        LegOut.seq leg =
          Js.of_nat (if (LegRow.from_index l =? 0)%nat then i + 1 else LegRow.from_index l) ∧
        (LegRow.leg_minutes l = None → LegOut.leg_minutes leg = Some 0%Q) ∧
        (∀ q q', LegRow.leg_minutes l = Some (Fin q) →
                 Number (numberToString (Fin q)) = Fin q' →
                 LegOut.leg_minutes leg = Some q').
Proof.
  assert (Number "" = Fin 0) as H1 by (vm_compute; reflexivity).
  assert (∀ l, l ∈ (AppOrchestrator.rowsFrom train "THB" (head api_stops) 0 None api_stops).2 →
            Number (numberToString (Js.of_nat (LegRow.from_index l)))
              = Js.of_nat (LegRow.from_index l)) as H2.
  { apply Forall_forall. forall_compute. }
  assert (∀ r h,
            r ∈ AppOrchestrator.legCells
                  <$> (AppOrchestrator.rowsFrom train "THB" (head api_stops) 0 None api_stops).2 →
            h ∈ AppOrchestrator.legsHeader →
            hasChar Csv.lf (Csv.cellText (r !! h)) = false ∧
            hasChar Csv.cr (Csv.cellText (r !! h)) = false) as H3
    by (apply cells_clean; vm_compute; reflexivity).
  exact (conj H1 (conj H2 (conj H3 (loadLegs_of_scraped _ None H1 H2 H3)))).
Defined.

(** The legs derived from the [stops.csv] of train 1234 are its two leg rows:
    20.5 minutes to Tanah Abang, 19.5 minutes on to Sudirman. *)
Lemma derived_of_scraped_witness :
  AppOrchestrator.trainResult "THB" train (Returned api_stops)
    = TrainResult.ok
        (AppOrchestrator.rowsFrom train "THB" (head api_stops) 0 None api_stops).1
        (AppOrchestrator.rowsFrom train "THB" (head api_stops) 0 None api_stops).2
        "1234" ∧
  (∀ a, a ∈ (AppOrchestrator.rowsFrom train "THB" (head api_stops) 0 None api_stops).1 →
     Number (numberToString (Js.of_nat (StopRow.stop_index a)))
       = Js.of_nat (StopRow.stop_index a)) ∧
  (∀ r h,
     r ∈ AppOrchestrator.stopCells
           <$> (AppOrchestrator.rowsFrom train "THB" (head api_stops) 0 None api_stops).1 →
     h ∈ AppOrchestrator.stopsHeader →
     hasChar Csv.lf (Csv.cellText (r !! h)) = false ∧
     hasChar Csv.cr (Csv.cellText (r !! h)) = false) ∧
  length (Analyze.deriveLegsFromStops
            (Csv.readCsv
               (AppOrchestrator.stopsCsv
                  (AppOrchestrator.rowsFrom train "THB" (head api_stops) 0 None api_stops).1)))
    = length (AppOrchestrator.rowsFrom train "THB" (head api_stops) 0 None api_stops).2 ∧
  ∀ i leg,
    (AppOrchestrator.rowsFrom train "THB" (head api_stops) 0 None api_stops).2 !! i = Some leg →
    ∃ d,
      Analyze.deriveLegsFromStops
        (Csv.readCsv
           (AppOrchestrator.stopsCsv
              (AppOrchestrator.rowsFrom train "THB" (head api_stops) 0 None api_stops).1)) !! i
        = Some d ∧
      LegOut.train_id d = LegRow.train_id leg ∧
      LegOut.seq d = Js.of_nat (LegRow.to_index leg) ∧
      LegOut.from_station d = LegRow.from_station leg ∧
      LegOut.to_station d = LegRow.to_station leg ∧
      ∀ a b x y x' y',
        (AppOrchestrator.rowsFrom train "THB" (head api_stops) 0 None api_stops).1 !! i
          = Some a →
        (AppOrchestrator.rowsFrom train "THB" (head api_stops) 0 None api_stops).1
          !! (i + 1)%nat = Some b →
        StopRow.time_est_min a = Some (Fin x) → StopRow.time_est_min b = Some (Fin y) →
        Number (numberToString (Fin x)) = Fin x' →
        Number (numberToString (Fin y)) = Fin y' →
        (x' == x)%Q → (y' == y)%Q →
        ∃ m m', LegRow.leg_minutes leg = Some (Fin m) ∧
                LegOut.leg_minutes d = Some m' ∧ (m' == m)%Q.
Proof.
  assert (AppOrchestrator.trainResult "THB" train (Returned api_stops)
            = TrainResult.ok
                (AppOrchestrator.rowsFrom train "THB" (head api_stops) 0 None api_stops).1
                (AppOrchestrator.rowsFrom train "THB" (head api_stops) 0 None api_stops).2
                "1234") as H1 by (vm_compute; reflexivity).
  assert (∀ a, a ∈ (AppOrchestrator.rowsFrom train "THB" (head api_stops) 0 None api_stops).1 →
            Number (numberToString (Js.of_nat (StopRow.stop_index a)))
              = Js.of_nat (StopRow.stop_index a)) as H2
    by (apply Forall_forall; forall_compute).
  assert (∀ r h,
            r ∈ AppOrchestrator.stopCells
                  <$> (AppOrchestrator.rowsFrom train "THB" (head api_stops) 0 None api_stops).1 →
            h ∈ AppOrchestrator.stopsHeader →
            hasChar Csv.lf (Csv.cellText (r !! h)) = false ∧
            hasChar Csv.cr (Csv.cellText (r !! h)) = false) as H3
    by (apply cells_clean; vm_compute; reflexivity).
  exact (conj H1 (conj H2 (conj H3
           (derived_of_scraped "THB" train api_stops _ _ "1234" H1 H2 H3)))).
Defined.

(** With [--order=wait --desc] the pairs are listed by descending wait. *)
Lemma pairs_sorted_by_wait_witness :
  Forall (λ a, Js.in_day (LegA.arriveTAMin a) = true)
    (Through.legAs pre_stops ∅ (Options.via (ThroughMain.options (Cli.parseArgs argv)))) ∧
  Forall (λ b, Js.in_day (LegB.departTAMin b) = true)
    (Through.legBs post_stops ∅ (Options.dest (ThroughMain.options (Cli.parseArgs argv)))) ∧
  Options.orderArg (ThroughMain.options (Cli.parseArgs argv)) = "wait" ∧
  StronglySorted
    (λ p q, if Options.isDesc (ThroughMain.options (Cli.parseArgs argv))
            then Js.le (PairResult.wait_min q) (PairResult.wait_min p)
            else Js.le (PairResult.wait_min p) (PairResult.wait_min q))
    (ThroughMain.orderedPairs (ThroughMain.options (Cli.parseArgs argv))
       pre_stops post_stops ∅).
Proof.
  assert (Forall (λ a, Js.in_day (LegA.arriveTAMin a) = true)
            (Through.legAs pre_stops ∅
               (Options.via (ThroughMain.options (Cli.parseArgs argv))))) as H1
    by forall_compute.
  assert (Forall (λ b, Js.in_day (LegB.departTAMin b) = true)
            (Through.legBs post_stops ∅
               (Options.dest (ThroughMain.options (Cli.parseArgs argv))))) as H2
    by forall_compute.
  assert (Options.orderArg (ThroughMain.options (Cli.parseArgs argv)) = "wait") as H3
    by (vm_compute; reflexivity).
  exact (conj H1 (conj H2 (conj H3
           (proj2 (pairs_sorted_by_wait (ThroughMain.options (Cli.parseArgs argv))
                     pre_stops post_stops ∅ H1 H2) H3)))).
Defined.

(** Nine samples of 0 and one of 10: the sample 10 is flagged; its segment
    has ten samples, and the value reported is that sample. *)
Lemma outliers_need_five_witness :
  {| Outlier.segment := "A→B"; Outlier.value := toFixed2 10 |}
    ∈ Analyze.outliers boundary_legs ∧
  (5 <= length (samplesOf "A→B" boundary_legs))%nat ∧
  ∃ v, v ∈ samplesOf "A→B" boundary_legs ∧ (isInteger v → (toFixed2 10 == v)%Q).
Proof.
  assert ({| Outlier.segment := "A→B"; Outlier.value := toFixed2 10 |}
            ∈ Analyze.outliers boundary_legs) as H1
    by (rewrite outliers_at_threshold; left).
  exact (conj H1 (proj1 (outliers_need_five boundary_legs) _ H1)).
Defined.

(** The segment from A to B is taken at 4 minutes on the way to C. *)
Lemma compare_averages_witness :
  {| SeriesPerDest.dest := "C"; SeriesPerDest.labels := ["A→B"; "B→C"];
     SeriesPerDest.avgA := [Some (toFixed2 (4 / 1)); Some (toFixed2 (6 / 1))];
     SeriesPerDest.avgB := [None; None] |}
    ∈ Analyze.buildCompareSeries "A" compare_legs [] ∅ ∅ ∧
  ["A→B"; "B→C"] !! 0%nat = Some "A→B" ∧
  ∃ a b,
    [Some (toFixed2 (4 / 1)); Some (toFixed2 (6 / 1))] !! 0%nat = Some a ∧
    [None; None] !! 0%nat = Some b ∧
    averageOf (samplesOf "A→B" (segmentLegs "A" compare_legs ∅ "C")) a ∧
    averageOf (samplesOf "A→B" (segmentLegs "A" [] ∅ "C")) b.
Proof.
  assert ({| SeriesPerDest.dest := "C"; SeriesPerDest.labels := ["A→B"; "B→C"];
             SeriesPerDest.avgA := [Some (toFixed2 (4 / 1)); Some (toFixed2 (6 / 1))];
             SeriesPerDest.avgB := [None; None] |}
            ∈ Analyze.buildCompareSeries "A" compare_legs [] ∅ ∅) as H1
    by (vm_compute; constructor).
  assert (["A→B"; "B→C"] !! 0%nat = Some "A→B") as H2 by reflexivity.
  exact (conj H1 (conj H2
           (compare_averages "A" compare_legs [] ∅ ∅ _ 0 "A→B" H1 H2))).
Defined.

(** A [trains.csv] with two rows for train 101: the second one wins. *)
Lemma loadTrains_spec_witness :
  ThroughMain.loadTrains
    (Some (String.append "train_id,dest"
             (String Csv.lf (String.append "101,Bogor" (String Csv.lf "101,Depok")))))
    !! "101"
  = Some {| tm_dest := Some "Depok"; tm_ka_name := None; tm_route_name := None |}.
Proof.
  assert ("101" ≠ "") as H1 by discriminate.
  exact (eq_trans
    (proj2 (proj2 (loadTrains_spec
      (Some (String.append "train_id,dest"
               (String Csv.lf (String.append "101,Bogor" (String Csv.lf "101,Depok")))))
      "101") _ eq_refl) H1)
    (eq_refl : metaOfRow <$> last (filter (λ r, r !! "train_id" = Some "101")
                 (Csv.readCsv (String.append "train_id,dest"
                    (String Csv.lf (String.append "101,Bogor" (String Csv.lf "101,Depok"))))))
               = Some {| tm_dest := Some "Depok"; tm_ka_name := None;
                         tm_route_name := None |})).
Defined.

End MoreInstances.
